(** * Photoevaporation test script [2disktest.py]: grid indexer, mass-loss
      estimator, luminosity fit, disk-radius updater and driver loop.

    Python floats are idealised as real numbers: every finite float is a
    real, comparisons and [==] agree with the order and equality of [R],
    and NaN never occurs in a grid column.  Rounding is not modelled.
    The results of the float operations that can divide by zero are reals,
    the two infinities or NaN.  Exceptions are modelled by the [result]
    type, the content of an array that [numpy.ndarray] allocates without
    initialising by an arbitrary function [mem] from positions to reals, and
    the two simulation codes by the values the script reads from them. *)

From Stdlib Require Import Reals Lra Lia List Bool Arith Permutation.
Import ListNotations.

Local Open Scope R_scope.

(** ** Exceptions *)

Inductive exn : Type :=
| ValueError
| IndexError
| AttributeError.

Inductive result (A : Type) : Type :=
| Ok (a : A)
| Raise (e : exn).

Arguments Ok {A} a.
Arguments Raise {A} e.

Definition bind {A B : Type} (m : result A) (k : A -> result B) : result B :=
  match m with
  | Ok a => k a
  | Raise e => Raise e
  end.

Notation "x <- m ;; k" := (bind m (fun x => k))
  (at level 61, m at next level, right associativity).
Notation "' p <- m ;; k" := (bind m (fun x => let p := x in k))
  (at level 61, p pattern, m at next level, right associativity).

(** ** Comparisons on floats *)

Definition Rltb (a b : R) : bool := if Rlt_dec a b then true else false.
Definition Reqb (a b : R) : bool := if Req_dec_T a b then true else false.

(** ** numpy array primitives used by the script *)

(** [a.max()]: [ValueError] on a zero-size array. *)
Definition np_max (a : list R) : result R :=
  match a with
  | [] => Raise ValueError
  | v :: rest => Ok (fold_left Rmax rest v)
  end.

(** [a.min()]: [ValueError] on a zero-size array. *)
Definition np_min (a : list R) : result R :=
  match a with
  | [] => Raise ValueError
  | v :: rest => Ok (fold_left Rmin rest v)
  end.

(** Positions of the array where [column == v] holds, in increasing order:
    [numpy.where(column == v)[0]]. *)
Fixpoint np_where_eq_from (k : nat) (column : list R) (v : R) : list nat :=
  match column with
  | [] => []
  | c :: rest =>
      if Reqb c v then k :: np_where_eq_from (S k) rest v
      else np_where_eq_from (S k) rest v
  end.

Definition np_where_eq (column : list R) (v : R) : list nat :=
  np_where_eq_from 0 column v.

(** [a[0]]: [IndexError] when the array is empty. *)
Definition first_entry {A : Type} (a : list A) : result A :=
  match a with
  | [] => Raise IndexError
  | v :: _ => Ok v
  end.

(** [try: e  except ValueError: h]  *)
Definition try_except_ValueError {A : Type} (e h : result A) : result A :=
  match e with
  | Ok v => Ok v
  | Raise ValueError => h
  | Raise other => Raise other
  end.

(** ** Grid indexer: [find_indices] *)

Definition find_indices (column : list R) (val : R) : result (nat * nat) :=
  value_below <-
    try_except_ValueError
      (np_max (filter (fun c => Rltb c val) column))
      (np_min column) ;;
  index_i <- first_entry (np_where_eq column value_below) ;;
  value_above <-
    try_except_ValueError
      (np_min (filter (fun c => Rltb val c) column))
      (np_max column) ;;
  index_j <- first_entry (np_where_eq column value_above) ;;
  Ok (index_i, index_j).

(** ** Array access *)

(** [a[k]] for a non-negative integer [k]. *)
Definition getitem {A : Type} (a : list A) (k : nat) : result A :=
  match nth_error a k with
  | Some v => Ok v
  | None => Raise IndexError
  end.

Fixpoint replace_nth {A : Type} (a : list A) (k : nat) (v : A) : list A :=
  match a, k with
  | [], _ => []
  | _ :: rest, O => v :: rest
  | c :: rest, S k' => c :: replace_nth rest k' v
  end.

(** [a[k] = v] *)
Definition setitem {A : Type} (a : list A) (k : nat) (v : A) : result (list A) :=
  if (k <? length a)%nat then Ok (replace_nth a k v) else Raise IndexError.

(** [l.index(x)] on a Python list of integers: position of the first
    occurrence, [ValueError] when [x] does not occur. *)
Fixpoint list_index_from (k : nat) (l : list nat) (x : nat) : result nat :=
  match l with
  | [] => Raise ValueError
  | c :: rest => if (c =? x)%nat then Ok k else list_index_from (S k) rest x
  end.

Definition list_index (l : list nat) (x : nat) : result nat :=
  list_index_from 0 l x.

(** [numpy.ndarray(shape=(n,), dtype=float)] allocates without initialising:
    the entries are whatever the allocated memory [mem] holds. *)
Definition np_ndarray (mem : nat -> R) (n : nat) : list R :=
  map mem (seq 0 n).

(** A [for] loop whose body may raise. *)
Fixpoint for_each {A S : Type} (items : list A) (body : S -> A -> result S)
    (s : S) : result S :=
  match items with
  | [] => Ok s
  | it :: rest => s' <- body s it ;; for_each rest body s'
  end.

(** ** FRIED grid *)

(** One row of [friedgrid.dat] as read by [numpy.loadtxt]. *)
Record grid_row : Type := mk_grid_row {
  col0 : R;  (* stellar mass *)
  col1 : R;  (* FUV *)
  col2 : R;  (* disk mass *)
  col3 : R;  (* not used *)
  col4 : R;  (* disk radius *)
  col5 : R   (* log10 of the mass-loss rate *)
}.

(** What [numpy.loadtxt('friedgrid.dat', skiprows=2)] returns for a file
    whose data lines are [data], six numbers each: a two-dimensional array
    when there are two lines or more, the one-dimensional array of its six
    numbers for a single line, and an empty one-dimensional array when
    there is none. *)
Inductive ndarray : Type :=
| Array_1d (entries : list R)
| Array_2d (rows : list grid_row).

Definition np_loadtxt (data : list grid_row) : ndarray :=
  match data with
  | [] => Array_1d []
  | [r] => Array_1d [col0 r; col1 r; col2 r; col3 r; col4 r; col5 r]
  | _ => Array_2d data
  end.

(** [grid[:, ...]], lines 282-283: an index with two entries, which a
    one-dimensional array refuses with [IndexError]. *)
Definition select_columns (grid : ndarray) : result (list grid_row) :=
  match grid with
  | Array_2d rows => Ok rows
  | Array_1d _ => Raise IndexError
  end.

(** A row of the 4-column working grid, and a query point [xi[0]]. *)
Record point : Type := mk_point {
  p_stellar_mass : R;
  p_FUV : R;
  p_disk_mass : R;
  p_disk_radius : R
}.

(** [grid[:, [0, 1, 2, 4]]] *)
Definition working_row (r : grid_row) : point :=
  mk_point (col0 r) (col1 r) (col2 r) (col4 r).

Definition FRIED_grid (grid : list grid_row) : list point :=
  map working_row grid.

(** [grid[:, 5]] *)
Definition grid_log10Mdot (grid : list grid_row) : list R := map col5 grid.

Definition grid_stellar_masses (grid : list grid_row) : list R :=
  map p_stellar_mass (FRIED_grid grid).
Definition grid_FUV (grid : list grid_row) : list R :=
  map p_FUV (FRIED_grid grid).
Definition grid_disk_mass (grid : list grid_row) : list R :=
  map p_disk_mass (FRIED_grid grid).
Definition grid_disk_radius (grid : list grid_row) : list R :=
  map p_disk_radius (FRIED_grid grid).

(** ** Nearest-neighbour [interpolate.griddata(..., method="nearest")]

    scipy looks the query point up in a k-d tree of [points] and returns the
    entry of [values] at the position of the closest point (Euclidean norm,
    no rescaling).  Which position is reported when several points are
    equally close is the tree's business; here the lowest position wins. *)

Definition dist2 (p q : point) : R :=
  (p_stellar_mass p - p_stellar_mass q) ^ 2
  + (p_FUV p - p_FUV q) ^ 2
  + (p_disk_mass p - p_disk_mass q) ^ 2
  + (p_disk_radius p - p_disk_radius q) ^ 2.

Definition euclidean (p q : point) : R := sqrt (dist2 p q).

Fixpoint argmin_from (points : list point) (xi : point)
    (k best : nat) (best_d : R) : nat :=
  match points with
  | [] => best
  | p :: rest =>
      if Rltb (dist2 p xi) best_d
      then argmin_from rest xi (S k) k (dist2 p xi)
      else argmin_from rest xi (S k) best best_d
  end.

Definition nearest_index (points : list point) (xi : point) : result nat :=
  match points with
  | [] => Raise ValueError
  | p :: rest => Ok (argmin_from rest xi 1 0 (dist2 p xi))
  end.

Definition griddata_nearest (points : list point) (values : list R)
    (xi : point) : result R :=
  k <- nearest_index points xi ;;
  getitem values k.

(** ** Mass-loss estimator: the body of the inner loop, lines 331-365 *)

Record candidates : Type := mk_candidates {
  indices_list : list nat;
  subgrid : list point;
  Mdot_values : list R
}.

(** The loop [for x in indices_list: Mdot_values[indices_list.index(x)] =
    grid_log10Mdot[x]]. *)
Definition fill_Mdot_values (log10Mdot : list R) (indices : list nat)
    (Mdot : list R) : result (list R) :=
  for_each indices
    (fun Mdot x =>
       v <- getitem log10Mdot x ;;
       k <- list_index indices x ;;
       setitem Mdot k v)
    Mdot.

(** [mem] is the content of the memory handed out for [Mdot_values].  The
    eight rows of [subgrid] are all assigned, so its initial content plays no
    role. *)
Definition build_candidates (mem : nat -> R) (grid : list grid_row)
    (xi : point) : result candidates :=
  ' (stellar_mass_i, stellar_mass_j) <-
      find_indices (grid_stellar_masses grid) (p_stellar_mass xi) ;;
  s0 <- getitem (FRIED_grid grid) stellar_mass_i ;;
  s1 <- getitem (FRIED_grid grid) stellar_mass_j ;;
  ' (FUV_i, FUV_j) <- find_indices (grid_FUV grid) (p_FUV xi) ;;
  s2 <- getitem (FRIED_grid grid) FUV_i ;;
  s3 <- getitem (FRIED_grid grid) FUV_j ;;
  ' (disk_mass_i, disk_mass_j) <-
      find_indices (grid_disk_mass grid) (p_disk_mass xi) ;;
  s4 <- getitem (FRIED_grid grid) disk_mass_i ;;
  s5 <- getitem (FRIED_grid grid) disk_mass_j ;;
  ' (disk_radius_i, disk_radius_j) <-
      find_indices (grid_disk_radius grid) (p_disk_radius xi) ;;
  s6 <- getitem (FRIED_grid grid) disk_radius_i ;;
  s7 <- getitem (FRIED_grid grid) disk_radius_j ;;
  let indices := [stellar_mass_i; stellar_mass_j; FUV_i; FUV_j;
                  disk_mass_i; disk_mass_j; disk_radius_i; disk_radius_j] in
  Mdot <- fill_Mdot_values (grid_log10Mdot grid) indices (np_ndarray mem 8) ;;
  Ok (mk_candidates indices [s0; s1; s2; s3; s4; s5; s6; s7] Mdot).

Definition photoevap_Mdot (mem : nat -> R) (grid : list grid_row)
    (xi : point) : result R :=
  c <- build_candidates mem grid xi ;;
  griddata_nearest (subgrid c) (Mdot_values c) xi.

(** ** Luminosity fit *)

(** [lo < mass < hi] *)
Definition between (lo mass hi : R) : bool := Rltb lo mass && Rltb mass hi.

(** [numpy.power(mass, e)] is [Rpower mass e] for the positive masses that
    reach a power-law branch.  The result is in LSun. *)
Definition luminosity_fit (mass : R) : R :=
  if between 0.12 mass 0.24 then 1.70294E16 * Rpower mass 42.557
  else if between 0.24 mass 0.56 then 9.11137E-9 * Rpower mass 3.8845
  else if between 0.56 mass 0.70 then 1.10021E-6 * Rpower mass 12.237
  else if between 0.70 mass 0.91 then 2.38690E-4 * Rpower mass 27.199
  else if between 0.91 mass 1.37 then 1.02477E-4 * Rpower mass 18.465
  else if between 1.37 mass 2.07 then 9.66362E-4 * Rpower mass 11.410
  else if between 2.07 mass 3.72 then 6.49335E-2 * Rpower mass 5.6147
  else if between 3.72 mass 10.0 then 6.99075E-1 * Rpower mass 3.8058
  else if between 10.0 mass 20.2 then 9.73664E0 * Rpower mass 2.6620
  else if Rltb 20.2 mass then 1.31175E2 * Rpower mass 1.7974
  else 0.

(** ** Disk-radius updater *)

(** The values a float operation can produce: reals stand for the finite
    floats; a zero is always the positive zero, which is the only zero the
    expressions below can produce as a divisor. *)
Inductive npfloat : Type :=
| Finite (r : R)
| PosInf
| NegInf
| NaN.

Definition np_neg (a : npfloat) : npfloat :=
  match a with
  | Finite r => Finite (- r)
  | PosInf => NegInf
  | NegInf => PosInf
  | NaN => NaN
  end.

(** The infinity with the sign of [r], and [at_zero] when [r] is zero. *)
Definition signed_inf (r : R) (at_zero : npfloat) : npfloat :=
  if Reqb r 0 then at_zero else if Rltb 0 r then PosInf else NegInf.

Definition np_sub (a b : npfloat) : npfloat :=
  match a, b with
  | NaN, _ | _, NaN => NaN
  | Finite u, Finite v => Finite (u - v)
  | Finite _, PosInf => NegInf
  | Finite _, NegInf => PosInf
  | PosInf, PosInf => NaN
  | PosInf, _ => PosInf
  | NegInf, NegInf => NaN
  | NegInf, _ => NegInf
  end.

Definition np_div (a b : npfloat) : npfloat :=
  match a, b with
  | NaN, _ | _, NaN => NaN
  | Finite u, Finite v =>
      if Reqb v 0 then signed_inf u NaN else Finite (u / v)
  | Finite _, _ => Finite 0
  | PosInf, Finite v => if Rltb v 0 then NegInf else PosInf
  | NegInf, Finite v => if Rltb v 0 then PosInf else NegInf
  | _, _ => NaN
  end.

Definition np_mul (a b : npfloat) : npfloat :=
  match a, b with
  | NaN, _ | _, NaN => NaN
  | Finite u, Finite v => Finite (u * v)
  | Finite u, PosInf | PosInf, Finite u => signed_inf u NaN
  | Finite u, NegInf | NegInf, Finite u => np_neg (signed_inf u NaN)
  | PosInf, PosInf | NegInf, NegInf => PosInf
  | PosInf, NegInf | NegInf, PosInf => NegInf
  end.

(** [numpy.log] *)
Definition np_log (a : npfloat) : npfloat :=
  match a with
  | Finite r =>
      if Rltb 0 r then Finite (ln r) else if Reqb r 0 then NegInf else NaN
  | PosInf => PosInf
  | NegInf | NaN => NaN
  end.

Definition is_finite (a : npfloat) : bool :=
  match a with
  | Finite _ => true
  | _ => false
  end.

(** Conversion factors of the AMUSE unit system. *)
Record amuse_units : Type := mk_units {
  MJupiter_per_MSun : R;
  erg_s_per_LSun : R
}.

(** A particle of the [stars] set.  Positions are kept in cm, masses in MSun
    and the disk radius in AU; an attribute that was never assigned to the
    particle is [None]. *)
Record Star : Type := mk_star {
  x : R;
  y : R;
  z : R;
  stellar_mass : R;
  disk_mass : option R;
  disk_radius : option R
}.

Definition attribute {A : Type} (a : option A) : result A :=
  match a with
  | Some v => Ok v
  | None => Raise AttributeError
  end.

(** [mass] is a quantity, given here by its value in MSun. *)
Definition radius_containing_mass (U : amuse_units) (star : Star) (mass : R)
    : result npfloat :=
  disk_characteristic_radius <- attribute (disk_radius star) ;;
  disk_mass_MSun <- attribute (disk_mass star) ;;
  let total_disk_mass := disk_mass_MSun * MJupiter_per_MSun U in
  Ok (np_mul (Finite disk_characteristic_radius)
        (np_log
           (np_div (Finite 1)
              (np_sub (Finite 1)
                 (np_div (Finite (mass * MJupiter_per_MSun U))
                         (Finite total_disk_mass)))))).

(** ** Geometry *)

Definition distance (star1 star2 : Star) : R :=
  sqrt ((x star2 - x star1) ^ 2 + (y star2 - y star1) ^ 2
        + (z star2 - z star1) ^ 2).

(** The source calls the second argument [R].  Both arguments are floats:
    at distance zero the division is a division by zero, which gives an
    infinity, or NaN for a zero luminosity. *)
Definition radiation_at_distance (rad R_cm : R) : npfloat :=
  np_div (Finite rad) (Finite (4 * PI * R_cm ^ 2)).

(** ** Simulation driver *)

(** A subset such as [stars[mask]] is a view on the particle set: it is
    kept as the list of positions of its members in [stars], and an
    assignment through the view writes into [stars]. *)
Fixpoint select_from (k : nat) (mask : Star -> bool) (stars : list Star)
    : list nat :=
  match stars with
  | [] => []
  | s :: rest =>
      if mask s then k :: select_from (S k) mask rest
      else select_from (S k) mask rest
  end.

Definition bright_stars (stars : list Star) : list nat :=
  select_from 0 (fun s => Rltb 1.9 (stellar_mass s)) stars.

Definition small_stars (stars : list Star) : list nat :=
  select_from 0 (fun s => Rltb (stellar_mass s) 1.9) stars.

Definition mem_nat (k : nat) (l : list nat) : bool :=
  existsb (Nat.eqb k) l.

(** Rebuild a particle set entry by entry, each entry knowing its position. *)
Fixpoint map_at_from {A B : Type} (k : nat) (f : nat -> A -> B) (l : list A)
    : list B :=
  match l with
  | [] => []
  | a :: rest => f k a :: map_at_from (S k) f rest
  end.

(** [view.attr = ...]: every member of the view gets the attribute.  AMUSE
    keeps an attribute as one array over the whole particle set; when the
    assignment is the first one to the attribute, that array is created
    filled with zeros, so that a particle outside the view reads 0
    afterwards ([fill]). *)
Definition assign (view : list nat) (upd fill : Star -> Star)
    (stars : list Star) : list Star :=
  map_at_from 0 (fun k s => if mem_nat k view then upd s else fill s) stars.

Definition set_disk_mass (value : Star -> R) (s : Star) : Star :=
  mk_star (x s) (y s) (z s) (stellar_mass s) (Some (value s)) (disk_radius s).

Definition set_disk_radius (value : Star -> R) (s : Star) : Star :=
  mk_star (x s) (y s) (z s) (stellar_mass s) (disk_mass s) (Some (value s)).

(** A particle outside the view keeps the attribute it has, and reads 0
    when the attribute is new. *)
Definition new_disk_mass (s : Star) : Star :=
  match disk_mass s with
  | Some _ => s
  | None => set_disk_mass (fun _ => 0) s
  end.

Definition new_disk_radius (s : Star) : Star :=
  match disk_radius s with
  | Some _ => s
  | None => set_disk_radius (fun _ => 0) s
  end.

Definition set_position (xyz : R * R * R) (s : Star) : Star :=
  let '(px, py, pz) := xyz in
  mk_star px py pz (stellar_mass s) (disk_mass s) (disk_radius s).

(** Lines 237-241.  [m ** 0.5] is the square root for the non-negative
    masses a star has. *)
Definition assign_disks (stars : list Star) : list Star :=
  let bright := bright_stars stars in
  let small := small_stars stars in
  let stars :=
    assign bright (set_disk_mass (fun _ => 0)) new_disk_mass stars in
  let stars :=
    assign small (set_disk_mass (fun s => 0.1 * stellar_mass s)) new_disk_mass
      stars in
  let stars :=
    assign small (set_disk_radius (fun s => 100 * sqrt (stellar_mass s)))
      new_disk_radius stars in
  assign bright (set_disk_radius (fun _ => 0)) new_disk_radius stars.

(** What the script takes from its collaborators: the smallest time step
    (yr) of the stellar-evolution code, which holds the bright stars and is
    asked at line 276; the positions the gravity code hands back at the end
    of each iteration; and the memory [numpy.ndarray] returns for
    [Mdot_values] in a given iteration for a given pair. *)
Record collaborators : Type := mk_collaborators {
  time_step_amin : R;
  gravity_xyz : nat -> nat -> R * R * R;
  fresh_memory : nat -> nat -> nat -> nat -> R
}.

Record loop_state : Type := mk_loop_state {
  time : R;                        (* yr *)
  dt : R;                          (* yr *)
  stars : list Star;
  time_total_mass_loss : list R;
  iteration : nat
}.

(** Mass lost during [dt_yr] at the estimated rate. *)
Definition mass_loss_increment (photoevap : R) (dt_yr : R) : R :=
  Rpower 10 photoevap * dt_yr.

(** Lines 331-365 on the query of a pair, whose second coordinate is the
    flux [radiation_ss_G0].  With a flux that is infinite or NaN the indexer
    still returns on a grid with rows (a comparison with an infinity or a
    NaN holds for every entry or for none, and then the fall-back applies),
    and [griddata] refuses the query: scipy's k-d tree raises [ValueError]
    for a point that is not finite.  On a grid without rows the indexer
    raises [ValueError] itself. *)
Definition photoevap_Mdot_at (mem : nat -> R) (grid : list grid_row)
    (xi0 : R) (xi1 : npfloat) (xi2 xi3 : R) : result R :=
  match xi1 with
  | Finite radiation_ss_G0 =>
      photoevap_Mdot mem grid (mk_point xi0 radiation_ss_G0 xi2 xi3)
  | PosInf | NegInf | NaN => Raise ValueError
  end.

(** Body of [for ss in small_stars], lines 313-371; the loop state is the
    accumulator array and the counter [z]. *)
Definition small_star_step (U : amuse_units) (grid : list grid_row)
    (mem : nat -> nat -> R) (dt_yr : R) (particles : list Star) (s : Star)
    (lum : R) (st : list R * nat) (ss_pos : nat) : result (list R * nat) :=
  let '(mass_loss, zc) := st in
  ss <- getitem particles ss_pos ;;
  let dist := distance s ss in
  let radiation_ss := radiation_at_distance (lum * erg_s_per_LSun U) dist in
  let radiation_ss_G0 := np_div radiation_ss (Finite 1.6E-3) in
  ss_disk_mass <- attribute (disk_mass ss) ;;
  ss_disk_radius <- attribute (disk_radius ss) ;;
  photoevap <-
    photoevap_Mdot_at (mem zc) grid (stellar_mass ss) radiation_ss_G0
      (ss_disk_mass * MJupiter_per_MSun U) ss_disk_radius ;;
  let total_photoevap_mass_loss := mass_loss_increment photoevap dt_yr in
  old <- getitem mass_loss zc ;;
  mass_loss' <- setitem mass_loss zc (old + total_photoevap_mass_loss) ;;
  Ok (mass_loss', S zc).

(** Body of [for s in bright_stars], lines 306-371. *)
Definition bright_star_step (U : amuse_units) (grid : list grid_row)
    (mem : nat -> nat -> nat -> R) (dt_yr : R) (particles : list Star)
    (small : list nat) (mass_loss : list R) (s_pos : nat)
    : result (list R) :=
  s <- getitem particles s_pos ;;
  let lum := luminosity_fit (stellar_mass s) in
  st <- for_each small
          (small_star_step U grid (mem s_pos) dt_yr particles s lum)
          (mass_loss, O) ;;
  Ok (fst st).

(** [channel_from_gravity_to_framework.copy()] *)
Definition copy_positions (xyz : nat -> R * R * R) (particles : list Star)
    : list Star :=
  map_at_from 0 (fun k s => set_position (xyz k) s) particles.

(** One pass through the body of [while time < t_end], lines 294-390. *)
Definition loop_body (U : amuse_units) (W : collaborators)
    (grid : list grid_row) (t_end : R) (bright small : list nat)
    (st : loop_state) : result loop_state :=
  let dt' := Rmin (dt st) (t_end - time st) in
  mass_loss <-
    for_each bright
      (bright_star_step U grid (fresh_memory W (iteration st)) dt' (stars st)
         small)
      (time_total_mass_loss st) ;;
  Ok (mk_loop_state (time st + dt') dt'
        (copy_positions (gravity_xyz W (iteration st)) (stars st))
        mass_loss (S (iteration st))).

(** The state after at most [n] passes of the [while] loop. *)
Fixpoint while_loop (n : nat) (U : amuse_units) (W : collaborators)
    (grid : list grid_row) (t_end : R) (bright small : list nat)
    (st : loop_state) : result loop_state :=
  match n with
  | O => Ok st
  | S n' =>
      if Rltb (time st) t_end
      then st' <- loop_body U W grid t_end bright small st ;;
           while_loop n' U W grid t_end bright small st'
      else Ok st
  end.

(** The state on entry to the loop: the disks of lines 229-241, the clock
    and the time step of lines 275-276, the accumulator of line 290. *)
Definition initial_state (W : collaborators) (particles : list Star)
    : loop_state :=
  mk_loop_state 0 (time_step_amin W) (assign_disks particles)
    (repeat 0 (length (small_stars particles))) O.

(** Lines 229-390 of [main]; [grid] holds the data lines of
    [friedgrid.dat], which is read and cut into columns at lines 279-288,
    before the loop is entered. *)
Definition main_loop (n : nat) (U : amuse_units) (W : collaborators)
    (grid : list grid_row) (t_end : R) (particles : list Star)
    : result loop_state :=
  let st := initial_state W particles in
  rows <- select_columns (np_loadtxt grid) ;;
  while_loop n U W rows t_end (bright_stars particles)
    (small_stars particles) st.

(** ** [find_nearest] *)

(** [a.argmin()]: the position of the first occurrence of the smallest
    entry, [ValueError] on a zero-size array. *)
Fixpoint argmin_scan (a : list R) (k best : nat) (best_v : R) : nat :=
  match a with
  | [] => best
  | v :: rest =>
      if Rltb v best_v then argmin_scan rest (S k) k v
      else argmin_scan rest (S k) best best_v
  end.

Definition np_argmin (a : list R) : result nat :=
  match a with
  | [] => Raise ValueError
  | v :: rest => Ok (argmin_scan rest 1 0 v)
  end.

Definition find_nearest (array : list R) (value : R) : result (nat * R) :=
  idx <- np_argmin (map (fun a => Rabs (a - value)) array) ;;
  nearest <- getitem array idx ;;
  Ok (idx, nearest).

(** ** The closing report, lines 396-397 *)

Fixpoint map_result {A B : Type} (f : A -> result B) (l : list A)
    : result (list B) :=
  match l with
  | [] => Ok []
  | a :: rest => b <- f a ;; bs <- map_result f rest ;; Ok (b :: bs)
  end.

(** One printed line: the disk radius of the small star and the radius
    recomputed for the mass [(1 - t) * ss.disk_mass]. *)
Definition report_line (U : amuse_units) (particles : list Star)
    (line : R * nat) : result (R * npfloat) :=
  let '(t, ss_pos) := line in
  ss <- getitem particles ss_pos ;;
  old_radius <- attribute (disk_radius ss) ;;
  ss_disk_mass <- attribute (disk_mass ss) ;;
  new_radius <- radius_containing_mass U ss ((1 - t) * ss_disk_mass) ;;
  Ok (old_radius, new_radius).

(** [for t, ss in zip(time_total_mass_loss, small_stars): print(...)] *)
Definition final_report (U : amuse_units) (small : list nat)
    (st : loop_state) : result (list (R * npfloat)) :=
  map_result (report_line U (stars st))
    (combine (time_total_mass_loss st) small).

(** ** Specification vocabulary *)

(** [i] is the lowest row index at which [column] holds the value [v]. *)
Definition first_index_of {A : Type} (column : list A) (v : A) (i : nat)
    : Prop :=
  nth_error column i = Some v /\
  forall k, (k < i)%nat -> nth_error column k <> Some v.

(** [v] is the largest entry of [column], and the smallest one. *)
Definition is_maximum (column : list R) (v : R) : Prop :=
  In v column /\ forall c, In c column -> c <= v.

Definition is_minimum (column : list R) (v : R) : Prop :=
  In v column /\ forall c, In c column -> v <= c.

(** [v] is the largest entry strictly below [val], the smallest strictly
    above it. *)
Definition largest_below (column : list R) (val v : R) : Prop :=
  In v column /\ v < val /\ forall c, In c column -> c < val -> c <= v.

Definition smallest_above (column : list R) (val v : R) : Prop :=
  In v column /\ val < v /\ forall c, In c column -> val < c -> v <= c.

(** What [build_candidates] computes, read off the source: the eight
    indices come from the four calls of the indexer, the sub-grid holds the
    working-grid rows at these indices, and [Mdot_values] is what the fill
    loop leaves in the fresh array. *)
Definition candidates_of (mem : nat -> R) (grid : list grid_row) (xi : point)
    (c : candidates) : Prop :=
  exists mi mj fi fj di dj ri rj,
    find_indices (grid_stellar_masses grid) (p_stellar_mass xi) = Ok (mi, mj) /\
    find_indices (grid_FUV grid) (p_FUV xi) = Ok (fi, fj) /\
    find_indices (grid_disk_mass grid) (p_disk_mass xi) = Ok (di, dj) /\
    find_indices (grid_disk_radius grid) (p_disk_radius xi) = Ok (ri, rj) /\
    indices_list c = [mi; mj; fi; fj; di; dj; ri; rj] /\
    Forall2 (fun i s => nth_error (FRIED_grid grid) i = Some s)
      (indices_list c) (subgrid c) /\
    Forall (fun i => (i < length grid)%nat) (indices_list c) /\
    fill_Mdot_values (grid_log10Mdot grid) (indices_list c) (np_ndarray mem 8)
      = Ok (Mdot_values c).

(** ** Sample grids *)

(** Two rows, and a query bracketed by them on every axis. *)
Definition two_row_grid : list grid_row :=
  [mk_grid_row 0.5 10 1 0 50 (-8); mk_grid_row 1 100 10 0 100 (-7)].

Definition two_row_query : point := mk_point 0.7 50 5 70.

(** The value the indexer settles on for the lower bracket, in terms of
    the entries of the column only: the largest entry below [val] when there
    is one, the minimum otherwise.  Likewise for the upper bracket. *)
Definition below_choice (column : list R) (val v : R) : Prop :=
  ((exists c, In c column /\ c < val) /\ largest_below column val v) \/
  ((forall c, In c column -> val <= c) /\ is_minimum column v).

Definition above_choice (column : list R) (val v : R) : Prop :=
  ((exists c, In c column /\ val < c) /\ smallest_above column val v) \/
  ((forall c, In c column -> c <= val) /\ is_maximum column v).

(** The same integers occur at the same positions of two index lists, up to
    renaming. *)
Definition same_pattern (idx idx' : list nat) : Prop :=
  length idx = length idx' /\
  forall k l x y x' y',
    nth_error idx k = Some x -> nth_error idx l = Some y ->
    nth_error idx' k = Some x' -> nth_error idx' l = Some y' ->
    (x = y <-> x' = y').

(** The rows of the grid that hold the value [v] in column [g] are one and
    the same row. *)
Definition held_by_one_row (g : grid_row -> R) (grid : list grid_row) (v : R)
    : Prop :=
  forall r r', In r grid -> In r' grid -> g r = v -> g r' = v -> r = r'.

(** Each of the eight values at which the indexer brackets the query [xi]
    is held by one row in its column. *)
Definition bracket_rows_unique (grid : list grid_row) (xi : point) : Prop :=
  forall g val,
    In (g, val) [(col0, p_stellar_mass xi); (col1, p_FUV xi);
                 (col2, p_disk_mass xi); (col4, p_disk_radius xi)] ->
    forall i j v,
      find_indices (map g grid) val = Ok (i, j) ->
      nth_error (map g grid) i = Some v \/ nth_error (map g grid) j = Some v ->
      held_by_one_row g grid v.

(** [i] and [i'] are the rows the indexer picks on the grid and on the
    permuted grid for one bracket: the first row holding the bracketing value
    in some column [g], and the same row on both grids. *)
Definition picked (grid grid' : list grid_row) (i i' : nat) : Prop :=
  exists (g : grid_row -> R) r,
    nth_error grid i = Some r /\ nth_error grid' i' = Some r /\
    first_index_of (map g grid) (g r) i /\
    first_index_of (map g grid') (g r) i'.

(** ** Vocabulary for the driver *)

Definition has_disk (s : Star) : Prop :=
  (exists m, disk_mass s = Some m) /\ (exists r, disk_radius s = Some r).

(** The loop state fits the particle set the run started from: same number
    of particles, every small star carries a disk, and the accumulator has
    one slot per small star. *)
Definition fits (particles : list Star) (st : loop_state) : Prop :=
  length (stars st) = length particles /\
  (forall pos, In pos (small_stars particles) ->
     exists s, nth_error (stars st) pos = Some s /\ has_disk s) /\
  length (time_total_mass_loss st) = length (small_stars particles).

(** Slot by slot comparison of two accumulator arrays. *)
Definition slots_le (a b : list R) : Prop := Forall2 Rle a b.

(** What an attribute reads after the disk assignments on a particle that
    none of them reaches: the value it had, or the 0 a new attribute is
    created with. *)
Definition or_zero (a : option R) : R :=
  match a with
  | Some v => v
  | None => 0
  end.

(** No small star of the particle set [stars] is at the place of a bright
    star. *)
Definition apart (bright small : list nat) (stars : list Star) : Prop :=
  forall b pos s ss,
    In b bright -> In pos small ->
    nth_error stars b = Some s -> nth_error stars pos = Some ss ->
    distance s ss <> 0.

(** No small star is ever at the place of a bright star: neither in the
    cluster the run starts from nor in any of the configurations the gravity
    code hands back. *)
Definition never_meet (W : collaborators) (particles : list Star) : Prop :=
  apart (bright_stars particles) (small_stars particles) particles /\
  forall it,
    apart (bright_stars particles) (small_stars particles)
      (copy_positions (gravity_xyz W it) particles).

(** The query point of lines 325-329 for a bright star [s] of luminosity
    [lum] (LSun) and a small star [ss] whose disk has the mass [m] (MSun)
    and the radius [r] (AU), at a non-zero distance from [s]. *)
Definition pair_query (U : amuse_units) (lum : R) (s ss : Star) (m r : R)
    : point :=
  mk_point (stellar_mass ss)
    (lum * erg_s_per_LSun U / (4 * PI * distance s ss ^ 2) / 1.6E-3)
    (m * MJupiter_per_MSun U) r.

(** [e] is the estimate for the pair of the bright star at position [b]
    and the small star at position [pos] of [stars], whose slot of the
    accumulator is [z]; [mem] is the memory handed out for [Mdot_values]
    during the pass. *)
Definition pair_estimate (U : amuse_units) (grid : list grid_row)
    (stars : list Star) (mem : nat -> nat -> nat -> R) (z pos b : nat)
    (e : R) : Prop :=
  exists s ss m r,
    nth_error stars b = Some s /\
    nth_error stars pos = Some ss /\
    distance s ss <> 0 /\
    disk_mass ss = Some m /\ disk_radius ss = Some r /\
    photoevap_Mdot (mem b z) grid
      (pair_query U (luminosity_fit (stellar_mass s)) s ss m r) = Ok e.

(** The mass the rates [10 ^ e] take off a disk during [dt_yr]. *)
Definition total_loss (dt_yr : R) (estimates : list R) : R :=
  fold_right Rplus 0 (map (fun e => Rpower 10 e * dt_yr) estimates).

(** Nine rows; the first two share the stellar mass 9.  [grid_BA] is
    [grid_AB] with its first two rows exchanged. *)
Definition row_A : grid_row := mk_grid_row 9 8 8 0 8 (-1).
Definition row_B : grid_row := mk_grid_row 9 12 12 0 12 (-2).

Definition other_rows : list grid_row :=
  [mk_grid_row 11 100 100 0 100 (-3);
   mk_grid_row 0 9 100 0 100 (-3);
   mk_grid_row 0 11 100 0 100 (-3);
   mk_grid_row 0 100 9 0 100 (-3);
   mk_grid_row 0 100 11 0 100 (-3);
   mk_grid_row 0 100 100 0 9 (-3);
   mk_grid_row 0 100 100 0 11 (-3)].

Definition grid_AB : list grid_row := row_A :: row_B :: other_rows.
Definition grid_BA : list grid_row := row_B :: row_A :: other_rows.

Definition query_10 : point := mk_point 10 10 10 10.

(** ** A sample cluster *)

(** Two bright stars, two small stars and one star of exactly 1.9 MSun. *)
Definition sample_units : amuse_units := mk_units 1047 (3839 * 10 ^ 30).

Definition sample_cluster : list Star :=
  [mk_star 0 0 0 5 None None;
   mk_star (10 ^ 16) 0 0 0.3 None None;
   mk_star 0 (10 ^ 16) 0 1.9 None None;
   mk_star 0 0 (10 ^ 16) 1 None None;
   mk_star (10 ^ 16) (10 ^ 16) 0 20 None None].

Definition sample_collaborators : collaborators :=
  mk_collaborators 2000
    (fun _ k => (INR k * 10 ^ 16, 0, 0))
    (fun _ _ _ _ => 0).

(** Two particle sets that differ at most in the particle at position [k]. *)
Definition same_off (k : nat) (a b : list Star) : Prop :=
  length a = length b /\ forall j, j <> k -> nth_error a j = nth_error b j.

(** Two loop states that differ at most in the particle at position [k]. *)
Definition states_same_off (k : nat) (st st' : loop_state) : Prop :=
  time st = time st' /\ dt st = dt st' /\
  time_total_mass_loss st = time_total_mass_loss st' /\
  iteration st = iteration st' /\
  same_off k (stars st) (stars st').

(** Two runs end alike: the same exception, or states that differ at most
    in the particle at position [k]. *)
Definition runs_same_off (k : nat) (r r' : result loop_state) : Prop :=
  match r, r' with
  | Ok st, Ok st' => states_same_off k st st'
  | Raise e, Raise e' => e = e'
  | _, _ => False
  end.

(** ** UVBLUE spectra: [read_UVBLUE] and [integrate_FUV]

    The decompressed file is given by its lines, each split at white space
    into fields.  A field is an integer literal, another numeric literal,
    or something that is not a number. *)

Inductive token : Type :=
| Int_token (n : Z)
| Float_token (r : R)
| Word_token.

(** [float(s)] and [int(s)] on a field. *)
Definition py_float (f : token) : result R :=
  match f with
  | Int_token n => Ok (IZR n)
  | Float_token r => Ok r
  | Word_token => Raise ValueError
  end.

Definition py_int (f : token) : result Z :=
  match f with
  | Int_token n => Ok n
  | _ => Raise ValueError
  end.

(** [l1, l2 = line.split()] *)
Definition unpack2 (line : list token) : result (token * token) :=
  match line with
  | [l1; l2] => Ok (l1, l2)
  | _ => Raise ValueError
  end.

(** The loop over the data lines; only [column1] is used afterwards. *)
Definition read_columns (data : list (list token)) : result (list R * list R) :=
  for_each data
    (fun columns line =>
       ' (l1, l2) <- unpack2 line ;;
       v1 <- py_float l1 ;;
       v2 <- py_float l2 ;;
       Ok (fst columns ++ [v1], snd columns ++ [v2]))
    ([], []).

(** [numpy.linspace(first, last, steps)] *)
Definition np_linspace (first last : R) (steps : Z) : result (list R) :=
  if (steps <? 0)%Z then Raise ValueError
  else
    let n := Z.to_nat steps in
    Ok (map (fun i =>
               match n with
               | 1%nat => first
               | _ => first + INR i * ((last - first) / (INR n - 1))
               end)
            (seq 0 n)).

(** [l[a:b]] for non-negative [a] and [b]. *)
Definition py_slice {A : Type} (l : list A) (a b : nat) : list A :=
  firstn (b - a) (skipn a l).

Definition read_UVBLUE (file : list (list token)) (limits : option (R * R))
    : result (list R) :=
  columns <- read_columns (skipn 3 file) ;;
  let column1 := fst columns in
  match limits with
  | Some (low, high) =>
      wl <- getitem file 1 ;;
      wl0 <- getitem wl 0 ;;
      steps <- py_int wl0 ;;
      wl1 <- getitem wl 1 ;;
      first <- py_float wl1 ;;
      wl2 <- getitem wl 2 ;;
      last <- py_float wl2 ;;
      wavelengths <- np_linspace first last steps ;;
      ' (id_lower, lower) <- find_nearest wavelengths low ;;
      ' (id_higher, higher) <- find_nearest wavelengths high ;;
      Ok (py_slice column1 id_lower (id_higher + 1))
  | None => Ok column1
  end.

(** [a.sum()] *)
Definition np_sum (a : list R) : R := fold_right Rplus 0 a.

Definition integrate_FUV (file : list (list token)) (lower higher : R)
    : result R :=
  radiation <- read_UVBLUE file (Some (lower, higher)) ;;
  Ok (np_sum radiation).

(** A data line with two numeric fields, the first of which reads [v]. *)
Definition data_line (line : list token) (v : R) : Prop :=
  exists l1 l2 v2,
    line = [l1; l2] /\ py_float l1 = Ok v /\ py_float l2 = Ok v2.

(** A spectrum of five samples between 1000 and 3000. *)
Definition sample_spectrum : list (list token) :=
  [[Word_token];
   [Int_token 5; Int_token 1000; Int_token 3000];
   [Word_token; Word_token];
   [Float_token 1.5; Int_token 0];
   [Float_token 2.5; Int_token 0];
   [Float_token 4; Int_token 0];
   [Float_token 3; Int_token 0];
   [Float_token 0.5; Int_token 0]].

(** The entries of an array do not decrease with the position. *)
Definition nondecreasing (a : list R) : Prop :=
  forall i j u v, (i <= j)%nat ->
    nth_error a i = Some u -> nth_error a j = Some v -> u <= v.

(** The mass bounds that separate the branches of [luminosity_fit]. *)
Definition fit_bounds : list R :=
  [0.12; 0.24; 0.56; 0.70; 0.91; 1.37; 2.07; 3.72; 10.0; 20.2].

(** What one line of the closing report shows for the pair of an
    accumulated loss and the position of a small star. *)
Definition report_of (particles : list Star) (tp : R * nat)
    (line : R * npfloat) : Prop :=
  exists s,
    nth_error particles (snd tp) = Some s /\
    fst line = 100 * sqrt (stellar_mass s) /\
    (0 < fst tp ->
     snd line = Finite (100 * sqrt (stellar_mass s) * ln (1 / fst tp))) /\
    (fst tp = 0 -> snd line = PosInf).

(* ================================================================== *)
(** * Properties *)

(** ** Comparisons *)

Lemma Rltb_true (a b : R) : a < b -> Rltb a b = true.
Proof. intros H. unfold Rltb. destruct (Rlt_dec a b); [reflexivity | contradiction]. Qed.

Lemma Rltb_false (a b : R) : b <= a -> Rltb a b = false.
Proof. intros H. unfold Rltb. destruct (Rlt_dec a b); [lra | reflexivity]. Qed.

Lemma Rltb_lt (a b : R) : Rltb a b = true <-> a < b.
Proof.
  unfold Rltb. destruct (Rlt_dec a b); split; intros; auto; discriminate.
Qed.

Lemma Rltb_ge (a b : R) : Rltb a b = false <-> b <= a.
Proof.
  unfold Rltb. destruct (Rlt_dec a b); split; intros; auto; try discriminate; lra.
Qed.

Lemma Reqb_eq (a b : R) : Reqb a b = true <-> a = b.
Proof.
  unfold Reqb. destruct (Req_dec_T a b); split; intros; auto; discriminate.
Qed.

Lemma Reqb_true (a b : R) : a = b -> Reqb a b = true.
Proof. apply Reqb_eq. Qed.

Lemma Reqb_false (a b : R) : a <> b -> Reqb a b = false.
Proof.
  intros H. unfold Reqb. destruct (Req_dec_T a b); [contradiction | reflexivity].
Qed.

(** ** [max], [min] and [where] on arrays *)

Lemma fold_Rmax_bounds (l : list R) : forall v,
  v <= fold_left Rmax l v /\
  (forall c, In c l -> c <= fold_left Rmax l v) /\
  In (fold_left Rmax l v) (v :: l).
Proof.
  induction l as [| a l IH]; intros v; simpl.
  - repeat split; [lra | tauto | auto].
  - destruct (IH (Rmax v a)) as (H1 & H2 & H3).
    pose proof (Rmax_l v a). pose proof (Rmax_r v a).
    repeat split.
    + lra.
    + intros c [<- | Hc]; [lra | auto].
    + destruct H3 as [H3 | H3]; [| auto].
      rewrite <- H3. unfold Rmax. destruct (Rle_dec v a); auto.
Qed.

Lemma fold_Rmin_bounds (l : list R) : forall v,
  fold_left Rmin l v <= v /\
  (forall c, In c l -> fold_left Rmin l v <= c) /\
  In (fold_left Rmin l v) (v :: l).
Proof.
  induction l as [| a l IH]; intros v; simpl.
  - repeat split; [lra | tauto | auto].
  - destruct (IH (Rmin v a)) as (H1 & H2 & H3).
    pose proof (Rmin_l v a). pose proof (Rmin_r v a).
    repeat split.
    + lra.
    + intros c [<- | Hc]; [lra | auto].
    + destruct H3 as [H3 | H3]; [| auto].
      rewrite <- H3. unfold Rmin. destruct (Rle_dec v a); auto.
Qed.

Lemma np_max_ok (a : list R) :
  a <> [] -> exists m, np_max a = Ok m /\ is_maximum a m.
Proof.
  destruct a as [| v rest]; [congruence |]. intros _.
  destruct (fold_Rmax_bounds rest v) as (H1 & H2 & H3).
  exists (fold_left Rmax rest v). split; [reflexivity |]. split; [exact H3 |].
  intros c [<- | Hc]; auto.
Qed.

Lemma np_min_ok (a : list R) :
  a <> [] -> exists m, np_min a = Ok m /\ is_minimum a m.
Proof.
  destruct a as [| v rest]; [congruence |]. intros _.
  destruct (fold_Rmin_bounds rest v) as (H1 & H2 & H3).
  exists (fold_left Rmin rest v). split; [reflexivity |]. split; [exact H3 |].
  intros c [<- | Hc]; auto.
Qed.

Lemma np_where_eq_from_first (column : list R) (v : R) : forall k,
  In v column ->
  exists i tl, np_where_eq_from k column v = (k + i)%nat :: tl /\
               first_index_of column v i.
Proof.
  induction column as [| c rest IH]; intros k Hin; [destruct Hin |].
  simpl. destruct (Req_dec_T c v) as [-> | Hne].
  - rewrite Reqb_true by reflexivity.
    exists O, (np_where_eq_from (S k) rest v). split.
    + f_equal. lia.
    + split; [reflexivity | intros j Hj; lia].
  - rewrite Reqb_false by assumption.
    destruct Hin as [-> | Hin]; [congruence |].
    destruct (IH (S k) Hin) as (i & tl & Heq & Hnth & Hfirst).
    exists (S i), tl. split.
    + rewrite Heq. f_equal. lia.
    + split; [exact Hnth |].
      intros [| j] Hj; simpl; [congruence | apply Hfirst; lia].
Qed.

Lemma first_entry_where (column : list R) (v : R) :
  In v column ->
  exists i, first_entry (np_where_eq column v) = Ok i /\
            first_index_of column v i.
Proof.
  intros Hin. destruct (np_where_eq_from_first column v O Hin) as (i & tl & Heq & Hf).
  exists i. unfold np_where_eq. rewrite Heq. auto.
Qed.

Lemma first_index_of_unique {A : Type} (column : list A) (v : A) (i j : nat) :
  first_index_of column v i -> first_index_of column v j -> i = j.
Proof.
  intros [Hi Fi] [Hj Fj].
  destruct (Nat.lt_trichotomy i j) as [H | [H | H]]; auto.
  - exfalso. exact (Fj i H Hi).
  - exfalso. exact (Fi j H Hj).
Qed.

(** ** Grid indexer *)

Lemma raise_bind {A B : Type} (e : exn) (k : A -> result B) :
  bind (Raise e) k = Raise e.
Proof. reflexivity. Qed.

Lemma value_below_ok (column : list R) (val : R) :
  column <> [] ->
  exists vb,
    try_except_ValueError (np_max (filter (fun c => Rltb c val) column))
      (np_min column) = Ok vb /\
    In vb column /\
    ((exists c, In c column /\ c < val) -> largest_below column val vb) /\
    ((forall c, In c column -> val <= c) -> is_minimum column vb).
Proof.
  intros Hne.
  destruct (filter (fun c => Rltb c val) column) as [| b below] eqn:Hf.
  - destruct (np_min_ok column Hne) as (m & Hm & Hmin).
    exists m. simpl. split; [exact Hm |]. split; [apply Hmin |]. split.
    + intros (c & Hc & Hlt). exfalso.
      assert (Hin : In c (filter (fun c => Rltb c val) column))
        by (apply filter_In; split; [exact Hc | apply Rltb_true; exact Hlt]).
      rewrite Hf in Hin. destruct Hin.
    + intros _. exact Hmin.
  - assert (Hnb : b :: below <> []) by discriminate.
    destruct (np_max_ok (b :: below) Hnb) as (m & Hm & Hin & Hmax).
    exists m. rewrite Hm. simpl. split; [reflexivity |].
    rewrite <- Hf in Hin, Hmax. apply filter_In in Hin. destruct Hin as [Hin Hlt].
    apply Rltb_lt in Hlt. split; [exact Hin |]. split.
    + intros _. split; [exact Hin |]. split; [exact Hlt |].
      intros c Hc Hcv. apply Hmax. apply filter_In. split; [exact Hc |].
      apply Rltb_true; exact Hcv.
    + intros Hall. specialize (Hall m Hin). lra.
Qed.

Lemma value_above_ok (column : list R) (val : R) :
  column <> [] ->
  exists va,
    try_except_ValueError (np_min (filter (fun c => Rltb val c) column))
      (np_max column) = Ok va /\
    In va column /\
    ((exists c, In c column /\ val < c) -> smallest_above column val va) /\
    ((forall c, In c column -> c <= val) -> is_maximum column va).
Proof.
  intros Hne.
  destruct (filter (fun c => Rltb val c) column) as [| b above] eqn:Hf.
  - destruct (np_max_ok column Hne) as (m & Hm & Hmax).
    exists m. simpl. split; [exact Hm |]. split; [apply Hmax |]. split.
    + intros (c & Hc & Hlt). exfalso.
      assert (Hin : In c (filter (fun c => Rltb val c) column))
        by (apply filter_In; split; [exact Hc | apply Rltb_true; exact Hlt]).
      rewrite Hf in Hin. destruct Hin.
    + intros _. exact Hmax.
  - assert (Hnb : b :: above <> []) by discriminate.
    destruct (np_min_ok (b :: above) Hnb) as (m & Hm & Hin & Hmin).
    exists m. rewrite Hm. simpl. split; [reflexivity |].
    rewrite <- Hf in Hin, Hmin. apply filter_In in Hin. destruct Hin as [Hin Hlt].
    apply Rltb_lt in Hlt. split; [exact Hin |]. split.
    + intros _. split; [exact Hin |]. split; [exact Hlt |].
      intros c Hc Hcv. apply Hmin. apply filter_In. split; [exact Hc |].
      apply Rltb_true; exact Hcv.
    + intros Hall. specialize (Hall m Hin). lra.
Qed.

(** The indexer returns on every non-empty column, and the two indices are
    the first rows holding the two values it selected. *)
Lemma find_indices_ok (column : list R) (val : R) :
  column <> [] ->
  exists i j ci cj,
    find_indices column val = Ok (i, j) /\
    first_index_of column ci i /\ first_index_of column cj j /\
    ((exists c, In c column /\ c < val) -> largest_below column val ci) /\
    ((forall c, In c column -> val <= c) -> is_minimum column ci) /\
    ((exists c, In c column /\ val < c) -> smallest_above column val cj) /\
    ((forall c, In c column -> c <= val) -> is_maximum column cj).
Proof.
  intros Hne.
  destruct (value_below_ok column val Hne) as (vb & Hvb & Hinb & Hb1 & Hb2).
  destruct (value_above_ok column val Hne) as (va & Hva & Hina & Ha1 & Ha2).
  destruct (first_entry_where column vb Hinb) as (i & Hi & Hfi).
  destruct (first_entry_where column va Hina) as (j & Hj & Hfj).
  exists i, j, vb, va. unfold find_indices.
  rewrite Hvb. simpl. rewrite Hi. simpl. rewrite Hva. simpl. rewrite Hj. simpl.
  split; [reflexivity |]. split; [exact Hfi |]. split; [exact Hfj |].
  split; [exact Hb1 |]. split; [exact Hb2 |]. split; [exact Ha1 | exact Ha2].
Qed.

(** C2: on a non-empty column, [find_indices column val] returns [(i, j)]
    where [i] and [j] are the first (lowest) row indices of the values
    [column[i]] and [column[j]]; when [val] lies strictly between the
    column's minimum and maximum, [column[i]] is the largest element
    strictly less than [val] and [column[j]] the smallest element strictly
    greater, so [column[i] < val < column[j]]; when no element is strictly
    below [val], [column[i]] is the column's minimum, and when none is
    strictly above, [column[j]] is the column's maximum. *)
Theorem find_indices_brackets (column : list R) (val : R) :
  column <> [] ->
  exists i j ci cj,
    find_indices column val = Ok (i, j) /\
    first_index_of column ci i /\
    first_index_of column cj j /\
    (forall lo hi, is_minimum column lo -> is_maximum column hi ->
       lo < val < hi ->
       largest_below column val ci /\ smallest_above column val cj /\
       ci < val < cj) /\
    ((forall c, In c column -> ~ c < val) -> is_minimum column ci) /\
    ((forall c, In c column -> ~ val < c) -> is_maximum column cj).
Proof.
  intros Hne.
  destruct (find_indices_ok column val Hne)
    as (i & j & ci & cj & Hfi & Hi & Hj & Hb1 & Hb2 & Ha1 & Ha2).
  exists i, j, ci, cj.
  split; [exact Hfi |]. split; [exact Hi |]. split; [exact Hj |].
  split; [| split].
  - intros lo hi [Hlo _] [Hhi _] Hbetween.
    assert (Hlb : largest_below column val ci)
      by (apply Hb1; exists lo; split; [exact Hlo | lra]).
    assert (Hsa : smallest_above column val cj)
      by (apply Ha1; exists hi; split; [exact Hhi | lra]).
    split; [exact Hlb |]. split; [exact Hsa |].
    destruct Hlb as (_ & Hlt & _). destruct Hsa as (_ & Hgt & _). lra.
  - intros Hnone. apply Hb2. intros c Hc. specialize (Hnone c Hc). lra.
  - intros Hnone. apply Ha2. intros c Hc. specialize (Hnone c Hc). lra.
Qed.

(** Evaluation of the indexer and the estimator on concrete arrays: the
    comparisons are decided by linear arithmetic. *)
Ltac decide_cmp :=
  repeat match goal with
  | |- context [Rltb ?a ?b] =>
      first [rewrite (Rltb_true a b) by lra | rewrite (Rltb_false a b) by lra]
  | |- context [Reqb ?a ?b] =>
      first [rewrite (Reqb_true a b) by lra | rewrite (Reqb_false a b) by lra]
  | |- context [Rmax ?a ?b] =>
      first [rewrite (Rmax_left a b) by lra | rewrite (Rmax_right a b) by lra]
  | |- context [Rmin ?a ?b] =>
      first [rewrite (Rmin_left a b) by lra | rewrite (Rmin_right a b) by lra]
  end.

Lemma filter_keep {A : Type} (f : A -> bool) (a : A) (l : list A) :
  f a = true -> filter f (a :: l) = a :: filter f l.
Proof. intros H. simpl. rewrite H. reflexivity. Qed.

Lemma filter_drop {A : Type} (f : A -> bool) (a : A) (l : list A) :
  f a = false -> filter f (a :: l) = filter f l.
Proof. intros H. simpl. rewrite H. reflexivity. Qed.

Lemma where_hit (k : nat) (c v : R) (rest : list R) :
  c = v ->
  np_where_eq_from k (c :: rest) v = k :: np_where_eq_from (S k) rest v.
Proof. intros H. simpl. rewrite Reqb_true by exact H. reflexivity. Qed.

Lemma where_miss (k : nat) (c v : R) (rest : list R) :
  c <> v ->
  np_where_eq_from k (c :: rest) v = np_where_eq_from (S k) rest v.
Proof. intros H. simpl. rewrite Reqb_false by exact H. reflexivity. Qed.

Lemma argmin_closer (xi p : point) (rest : list point) (k best : nat)
    (best_d : R) :
  dist2 p xi < best_d ->
  argmin_from (p :: rest) xi k best best_d =
  argmin_from rest xi (S k) k (dist2 p xi).
Proof. intros H. simpl. rewrite Rltb_true by exact H. reflexivity. Qed.

Lemma argmin_farther (xi p : point) (rest : list point) (k best : nat)
    (best_d : R) :
  best_d <= dist2 p xi ->
  argmin_from (p :: rest) xi k best best_d =
  argmin_from rest xi (S k) best best_d.
Proof. intros H. simpl. rewrite Rltb_false by exact H. reflexivity. Qed.

(** The array traversals are unfolded one entry at a time, each test being
    decided before the next entry is looked at. *)
Ltac by_distance :=
  unfold dist2; cbn [p_stellar_mass p_FUV p_disk_mass p_disk_radius]; lra.

Ltac step_arrays :=
  match goal with
  | |- context [filter ?f []] => change (filter f []) with (@nil R)
  | |- context [np_where_eq_from ?k [] ?v] =>
      change (np_where_eq_from k [] v) with (@nil nat)
  | |- context [argmin_from [] ?xi ?k ?best ?d] =>
      change (argmin_from [] xi k best d) with best
  | |- context [filter ?f (?a :: ?l)] =>
      first [rewrite (filter_keep f a l) by (cbv beta; apply Rltb_true; lra)
            |rewrite (filter_drop f a l) by (cbv beta; apply Rltb_false; lra)]
  | |- context [np_where_eq_from ?k (?c :: ?rest) ?v] =>
      first [rewrite (where_hit k c v rest) by lra
            |rewrite (where_miss k c v rest) by lra]
  | |- context [argmin_from (?p :: ?rest) ?xi ?k ?best ?d] =>
      first [rewrite (argmin_closer xi p rest k best d) by by_distance
            |rewrite (argmin_farther xi p rest k best d) by by_distance]
  end.

Ltac run_arrays :=
  repeat (progress
            (cbn -[IZR Rplus Rmult Rminus Rdiv Rinv Ropp pow Q2R Rltb Reqb
                   Rmax Rmin filter np_where_eq_from argmin_from dist2];
             repeat step_arrays;
             decide_cmp)).

Example find_indices_inside :
  find_indices [3; 1; 2; 1; 3] 2 = Ok (1%nat, 0%nat).
Proof. unfold find_indices, np_where_eq. run_arrays. reflexivity. Qed.

Example find_indices_on_grid_value :
  find_indices [10; 100; 1000; 100] 100 = Ok (0%nat, 2%nat).
Proof. unfold find_indices, np_where_eq. run_arrays. reflexivity. Qed.

Example find_indices_below_range :
  find_indices [3; 1; 2.5; 1; 3] 0.5 = Ok (1%nat, 1%nat).
Proof. unfold find_indices, np_where_eq. run_arrays. reflexivity. Qed.

Example find_indices_above_range :
  find_indices [3; 1; 2.5; 1; 3] 7 = Ok (0%nat, 0%nat).
Proof. unfold find_indices, np_where_eq. run_arrays. reflexivity. Qed.

Lemma find_indices_brackets_witness :
  [3; 1; 2; 1; 3] <> [] /\
  exists i j ci cj,
    find_indices [3; 1; 2; 1; 3] 2 = Ok (i, j) /\
    first_index_of [3; 1; 2; 1; 3] ci i /\
    first_index_of [3; 1; 2; 1; 3] cj j /\
    (forall lo hi, is_minimum [3; 1; 2; 1; 3] lo ->
       is_maximum [3; 1; 2; 1; 3] hi -> lo < 2 < hi ->
       largest_below [3; 1; 2; 1; 3] 2 ci /\
       smallest_above [3; 1; 2; 1; 3] 2 cj /\ ci < 2 < cj) /\
    ((forall c, In c [3; 1; 2; 1; 3] -> ~ c < 2) ->
       is_minimum [3; 1; 2; 1; 3] ci) /\
    ((forall c, In c [3; 1; 2; 1; 3] -> ~ 2 < c) ->
       is_maximum [3; 1; 2; 1; 3] cj).
Proof.
  split; [discriminate |].
  apply (find_indices_brackets [3; 1; 2; 1; 3] 2). discriminate.
Defined.

(** C7: on a column with exactly one element the indexer returns index 0
    for both brackets, whatever the query value, and does not raise. *)
Theorem find_indices_single_row (c val : R) :
  find_indices [c] val = Ok (O, O).
Proof.
  unfold find_indices, np_where_eq. simpl.
  destruct (Rltb c val); destruct (Rltb val c); simpl;
    rewrite Reqb_true by reflexivity; reflexivity.
Qed.

(** C9: on an empty column both selections and both fallbacks are
    reductions of a zero-size array, so the call raises [ValueError]; the
    indexer returns a pair of indices exactly on the non-empty columns. *)
Theorem find_indices_needs_rows :
  (forall val,
     np_max (filter (fun c => Rltb c val) []) = Raise ValueError /\
     np_min [] = Raise ValueError /\
     np_min (filter (fun c => Rltb val c) []) = Raise ValueError /\
     np_max [] = Raise ValueError /\
     find_indices [] val = Raise ValueError) /\
  (forall column val,
     (exists i j, find_indices column val = Ok (i, j)) <-> column <> []).
Proof.
  split.
  - intros val. repeat split; reflexivity.
  - intros column val. split.
    + intros (i & j & H) ->. discriminate H.
    + intros Hne.
      destruct (find_indices_ok column val Hne) as (i & j & _ & _ & H & _).
      exists i, j. exact H.
Qed.

(** ** Array updates *)

Lemma replace_nth_length {A : Type} (a : list A) : forall k v,
  length (replace_nth a k v) = length a.
Proof.
  induction a as [| c rest IH]; intros [| k] v; simpl; auto.
Qed.

Lemma nth_error_replace_same {A : Type} (a : list A) : forall k v,
  (k < length a)%nat -> nth_error (replace_nth a k v) k = Some v.
Proof.
  induction a as [| c rest IH]; intros [| k] v Hk; simpl in *; try lia; auto.
  apply IH. lia.
Qed.

Lemma nth_error_replace_other {A : Type} (a : list A) : forall k l v,
  k <> l -> nth_error (replace_nth a k v) l = nth_error a l.
Proof.
  induction a as [| c rest IH]; intros [| k] [| l] v Hkl; simpl; auto;
    try congruence.
Qed.

Lemma getitem_ok {A : Type} (a : list A) (k : nat) :
  (k < length a)%nat -> exists v, getitem a k = Ok v /\ nth_error a k = Some v.
Proof.
  intros Hk. unfold getitem.
  destruct (nth_error a k) as [v |] eqn:E.
  - exists v. auto.
  - apply nth_error_None in E. lia.
Qed.

Lemma getitem_nth_error {A : Type} (a : list A) (k : nat) (v : A) :
  getitem a k = Ok v <-> nth_error a k = Some v.
Proof.
  unfold getitem. destruct (nth_error a k); split; intros H;
    try discriminate; congruence.
Qed.

Lemma first_index_of_lt {A : Type} (l : list A) (v : A) (i : nat) :
  first_index_of l v i -> (i < length l)%nat.
Proof.
  intros [H _]. apply nth_error_Some. congruence.
Qed.

Lemma list_index_from_first (l : list nat) (x : nat) : forall k,
  In x l ->
  exists p, list_index_from k l x = Ok (k + p)%nat /\ first_index_of l x p.
Proof.
  induction l as [| c rest IH]; intros k Hin; [destruct Hin |].
  simpl. destruct (Nat.eqb_spec c x) as [-> | Hne].
  - exists O. split; [f_equal; lia |].
    split; [reflexivity | intros j Hj; lia].
  - destruct Hin as [-> | Hin]; [congruence |].
    destruct (IH (S k) Hin) as (p & Heq & Hnth & Hfirst).
    exists (S p). split; [rewrite Heq; f_equal; lia |].
    split; [exact Hnth |].
    intros [| j] Hj; simpl; [congruence | apply Hfirst; lia].
Qed.

Lemma list_index_first (l : list nat) (x : nat) :
  In x l -> exists p, list_index l x = Ok p /\ first_index_of l x p.
Proof.
  intros Hin. destruct (list_index_from_first l x O Hin) as (p & H & Hf).
  exists p. auto.
Qed.

(** ** The fill loop of [Mdot_values] *)

Lemma fill_loop_spec (log10Mdot : list R) (idx : list nat) :
  (forall x, In x idx -> (x < length log10Mdot)%nat) ->
  forall items Mdot,
    incl items idx -> length Mdot = length idx ->
    exists Mdot',
      for_each items
        (fun Mdot x =>
           v <- getitem log10Mdot x ;;
           k <- list_index idx x ;;
           setitem Mdot k v) Mdot = Ok Mdot' /\
      length Mdot' = length Mdot /\
      (forall k, (forall x, In x items -> ~ first_index_of idx x k) ->
                 nth_error Mdot' k = nth_error Mdot k) /\
      (forall k x, In x items -> first_index_of idx x k ->
                   nth_error Mdot' k = nth_error log10Mdot x).
Proof.
  intros Hrange. induction items as [| x rest IH]; intros Mdot Hincl Hlen.
  - exists Mdot. simpl. repeat split; auto. intros k x [].
  - assert (Hx : In x idx) by (apply Hincl; left; reflexivity).
    destruct (getitem_ok log10Mdot x (Hrange x Hx)) as (v & Hget & Hv).
    destruct (list_index_first idx x Hx) as (p & Hp & Hfp).
    pose proof (first_index_of_lt _ _ _ Hfp) as Hplt.
    assert (Hincl' : incl rest idx)
      by (intros u Hu; apply Hincl; right; exact Hu).
    destruct (IH (replace_nth Mdot p v) Hincl')
      as (Mdot' & Hrun & Hlen' & Hkeep & Hset).
    { rewrite replace_nth_length. exact Hlen. }
    exists Mdot'. split.
    { simpl. rewrite Hget. simpl. rewrite Hp. simpl. unfold setitem.
      replace (p <? length Mdot)%nat with true
        by (symmetry; apply Nat.ltb_lt; lia).
      simpl. exact Hrun. }
    split; [rewrite Hlen', replace_nth_length; reflexivity |]. split.
    + intros k Hnone. rewrite Hkeep.
      * apply nth_error_replace_other. intros ->.
        apply (Hnone x); [left; reflexivity | exact Hfp].
      * intros u Hu. apply Hnone. right. exact Hu.
    + intros k u [<- | Hu] Hfu; [| apply (Hset k u Hu Hfu)].
      assert (k = p) by (eapply first_index_of_unique; eauto). subst k.
      destruct (in_dec Nat.eq_dec x rest) as [Hin | Hnin].
      * apply (Hset p x Hin Hfp).
      * rewrite Hkeep.
        -- rewrite nth_error_replace_same by lia. symmetry. exact Hv.
        -- intros u Hu Hfu'. apply Hnin.
           destruct Hfp as [Hpx _]. destruct Hfu' as [Hpu _].
           assert (u = x) by congruence. subst u. exact Hu.
Qed.

(** After the loop, a slot holds the grid value of its row index when the
    slot is the first position of that index in [indices_list]; every other
    slot still holds what the memory held. *)
Lemma fill_Mdot_values_spec (log10Mdot : list R) (idx : list nat)
    (Mdot : list R) :
  (forall x, In x idx -> (x < length log10Mdot)%nat) ->
  length Mdot = length idx ->
  exists Mdot',
    fill_Mdot_values log10Mdot idx Mdot = Ok Mdot' /\
    length Mdot' = length idx /\
    forall k x, nth_error idx k = Some x ->
      (first_index_of idx x k -> nth_error Mdot' k = nth_error log10Mdot x) /\
      (~ first_index_of idx x k -> nth_error Mdot' k = nth_error Mdot k).
Proof.
  intros Hrange Hlen.
  destruct (fill_loop_spec log10Mdot idx Hrange idx Mdot (incl_refl idx) Hlen)
    as (Mdot' & Hrun & Hlen' & Hkeep & Hset).
  exists Mdot'. split; [exact Hrun |]. split; [congruence |].
  intros k x Hk. split.
  - intros Hf. apply (Hset k x); [| exact Hf].
    eapply nth_error_In; eauto.
  - intros Hnf. apply Hkeep. intros u _ Hfu.
    destruct Hfu as [Hu Hfirst].
    assert (u = x) by congruence. subst u. apply Hnf. split; assumption.
Qed.

(** ** The candidate set *)

Lemma find_indices_in_range (column : list R) (val : R) (i j : nat) :
  find_indices column val = Ok (i, j) ->
  (i < length column)%nat /\ (j < length column)%nat.
Proof.
  intros H. destruct column as [| c rest]; [discriminate H |].
  destruct (find_indices_ok (c :: rest) val) as (i' & j' & ci & cj & H' & Hi & Hj & _);
    [discriminate |].
  rewrite H in H'. injection H' as <- <-.
  split; eapply first_index_of_lt; eauto.
Qed.

Lemma column_length (f : point -> R) (grid : list grid_row) :
  length (map f (FRIED_grid grid)) = length grid.
Proof. unfold FRIED_grid. rewrite !length_map. reflexivity. Qed.

Lemma column_nonempty (f : point -> R) (grid : list grid_row) :
  grid <> [] -> map f (FRIED_grid grid) <> [].
Proof. destruct grid; [congruence | discriminate]. Qed.

Lemma build_candidates_ok (mem : nat -> R) (grid : list grid_row) (xi : point) :
  grid <> [] ->
  exists c, build_candidates mem grid xi = Ok c /\ candidates_of mem grid xi c.
Proof.
  intros Hne.
  assert (Hcol : forall f val, exists i j,
             find_indices (map f (FRIED_grid grid)) val = Ok (i, j) /\
             (i < length grid)%nat /\ (j < length grid)%nat).
  { intros f val.
    destruct (find_indices_ok _ val (column_nonempty f grid Hne))
      as (i & j & _ & _ & H & _).
    exists i, j. split; [exact H |].
    apply find_indices_in_range in H. rewrite column_length in H. exact H. }
  assert (Hrow : forall i, (i < length grid)%nat ->
             exists s, getitem (FRIED_grid grid) i = Ok s /\
                       nth_error (FRIED_grid grid) i = Some s).
  { intros i Hi. apply getitem_ok. unfold FRIED_grid. rewrite length_map. exact Hi. }
  destruct (Hcol p_stellar_mass (p_stellar_mass xi)) as (mi & mj & Hm & Hmi & Hmj).
  destruct (Hcol p_FUV (p_FUV xi)) as (fi & fj & Hf & Hfi & Hfj).
  destruct (Hcol p_disk_mass (p_disk_mass xi)) as (di & dj & Hd & Hdi & Hdj).
  destruct (Hcol p_disk_radius (p_disk_radius xi)) as (ri & rj & Hr & Hri & Hrj).
  destruct (Hrow mi Hmi) as (s0 & G0 & N0). destruct (Hrow mj Hmj) as (s1 & G1 & N1).
  destruct (Hrow fi Hfi) as (s2 & G2 & N2). destruct (Hrow fj Hfj) as (s3 & G3 & N3).
  destruct (Hrow di Hdi) as (s4 & G4 & N4). destruct (Hrow dj Hdj) as (s5 & G5 & N5).
  destruct (Hrow ri Hri) as (s6 & G6 & N6). destruct (Hrow rj Hrj) as (s7 & G7 & N7).
  set (idx := [mi; mj; fi; fj; di; dj; ri; rj]).
  assert (Hall : Forall (fun i => (i < length grid)%nat) idx)
    by (unfold idx; repeat constructor; assumption).
  destruct (fill_Mdot_values_spec (grid_log10Mdot grid) idx (np_ndarray mem 8))
    as (Mdot & HMdot & _).
  { intros u Hu. unfold grid_log10Mdot. rewrite length_map.
    rewrite Forall_forall in Hall. apply Hall. exact Hu. }
  { reflexivity. }
  exists (mk_candidates idx [s0; s1; s2; s3; s4; s5; s6; s7] Mdot). split.
  - unfold build_candidates, grid_stellar_masses, grid_FUV, grid_disk_mass,
      grid_disk_radius.
    rewrite Hm. cbn [bind]. rewrite G0. cbn [bind]. rewrite G1. cbn [bind].
    rewrite Hf. cbn [bind]. rewrite G2. cbn [bind]. rewrite G3. cbn [bind].
    rewrite Hd. cbn [bind]. rewrite G4. cbn [bind]. rewrite G5. cbn [bind].
    rewrite Hr. cbn [bind]. rewrite G6. cbn [bind]. rewrite G7. cbn [bind].
    fold idx. rewrite HMdot. reflexivity.
  - exists mi, mj, fi, fj, di, dj, ri, rj.
    split; [exact Hm |]. split; [exact Hf |]. split; [exact Hd |].
    split; [exact Hr |]. split; [reflexivity |].
    split; [simpl; repeat constructor; assumption |].
    split; [exact Hall | exact HMdot].
Qed.

Lemma build_candidates_spec (mem : nat -> R) (grid : list grid_row)
    (xi : point) (c : candidates) :
  build_candidates mem grid xi = Ok c -> candidates_of mem grid xi c.
Proof.
  intros H. destruct grid as [| r rest]; [discriminate H |].
  destruct (build_candidates_ok mem (r :: rest) xi) as (c' & H' & Hc');
    [discriminate |].
  rewrite H in H'. injection H' as <-. exact Hc'.
Qed.

(** ** Nearest neighbour *)

Lemma argmin_from_spec (xi : point) (points : list point) :
  forall k best best_d,
    (argmin_from points xi k best best_d = best /\
     forall l q, nth_error points l = Some q -> best_d <= dist2 q xi) \/
    (exists l q,
       argmin_from points xi k best best_d = (k + l)%nat /\
       nth_error points l = Some q /\
       dist2 q xi < best_d /\
       (forall l' q', nth_error points l' = Some q' ->
                      dist2 q xi <= dist2 q' xi) /\
       (forall l' q', (l' < l)%nat -> nth_error points l' = Some q' ->
                      dist2 q xi < dist2 q' xi)).
Proof.
  induction points as [| p rest IH]; intros k best best_d.
  - left. split; [reflexivity |]. intros [| l] q H; discriminate H.
  - simpl. destruct (Rlt_dec (dist2 p xi) best_d) as [Hlt | Hge].
    + rewrite Rltb_true by exact Hlt. right.
      destruct (IH (S k) k (dist2 p xi))
        as [[Hr Hall] | (l & q & Hr & Hq & Hd & Hmin & Hearly)].
      * exists O, p. split; [rewrite Hr; lia |]. split; [reflexivity |].
        split; [exact Hlt |]. split.
        -- intros [| l'] q' H'; simpl in H'.
           ++ injection H' as <-. lra.
           ++ apply (Hall l' q' H').
        -- intros l' q' Hl'. lia.
      * exists (S l), q. split; [rewrite Hr; lia |]. split; [exact Hq |].
        split; [lra |]. split.
        -- intros [| l'] q' H'; simpl in H'.
           ++ injection H' as <-. lra.
           ++ apply (Hmin l' q' H').
        -- intros [| l'] q' Hl' H'; simpl in H'.
           ++ injection H' as <-. exact Hd.
           ++ apply (Hearly l' q'); [lia | exact H'].
    + rewrite Rltb_false by lra.
      destruct (IH (S k) best best_d)
        as [[Hr Hall] | (l & q & Hr & Hq & Hd & Hmin & Hearly)].
      * left. split; [exact Hr |].
        intros [| l'] q' H'; simpl in H'.
        -- injection H' as <-. lra.
        -- apply (Hall l' q' H').
      * right. exists (S l), q. split; [rewrite Hr; lia |].
        split; [exact Hq |]. split; [exact Hd |]. split.
        -- intros [| l'] q' H'; simpl in H'.
           ++ injection H' as <-. lra.
           ++ apply (Hmin l' q' H').
        -- intros [| l'] q' Hl' H'; simpl in H'.
           ++ injection H' as <-. lra.
           ++ apply (Hearly l' q'); [lia | exact H'].
Qed.

(** The position reported for the query is that of a closest point, and
    every point at a lower position is strictly farther away. *)
Lemma nearest_index_spec (points : list point) (xi : point) :
  points <> [] ->
  exists k p,
    nearest_index points xi = Ok k /\
    nth_error points k = Some p /\
    (forall l q, nth_error points l = Some q -> dist2 p xi <= dist2 q xi) /\
    (forall l q, (l < k)%nat -> nth_error points l = Some q ->
                 dist2 p xi < dist2 q xi).
Proof.
  destruct points as [| p rest]; [congruence |]. intros _. simpl.
  destruct (argmin_from_spec xi rest 1 0 (dist2 p xi))
    as [[Hr Hall] | (l & q & Hr & Hq & Hd & Hmin & Hearly)].
  - exists O, p. split; [rewrite Hr; reflexivity |]. split; [reflexivity |].
    split.
    + intros [| l] q H; simpl in H.
      * injection H as <-. lra.
      * apply (Hall l q H).
    + intros l q Hl. lia.
  - exists (S l), q. split; [rewrite Hr; reflexivity |]. split; [exact Hq |].
    split.
    + intros [| l'] q' H'; simpl in H'.
      * injection H' as <-. lra.
      * apply (Hmin l' q' H').
    + intros [| l'] q' Hl' H'; simpl in H'.
      * injection H' as <-. exact Hd.
      * apply (Hearly l' q'); [lia | exact H'].
Qed.

Lemma dist2_nonneg (p q : point) : 0 <= dist2 p q.
Proof.
  unfold dist2.
  pose proof (pow2_ge_0 (p_stellar_mass p - p_stellar_mass q)).
  pose proof (pow2_ge_0 (p_FUV p - p_FUV q)).
  pose proof (pow2_ge_0 (p_disk_mass p - p_disk_mass q)).
  pose proof (pow2_ge_0 (p_disk_radius p - p_disk_radius q)).
  lra.
Qed.

Lemma euclidean_le (p q xi : point) :
  dist2 p xi <= dist2 q xi -> euclidean p xi <= euclidean q xi.
Proof. intros H. unfold euclidean. apply sqrt_le_1_alt. exact H. Qed.

Lemma Forall2_nth_error_l {A B : Type} (P : A -> B -> Prop)
    (l : list A) (l' : list B) :
  Forall2 P l l' ->
  forall k a, nth_error l k = Some a ->
              exists b, nth_error l' k = Some b /\ P a b.
Proof.
  induction 1 as [| a0 b0 l l' H0 H IH]; intros [| k] a Hk; simpl in *;
    try discriminate.
  - injection Hk as <-. exists b0. auto.
  - apply IH. exact Hk.
Qed.

Lemma Forall2_nth_error_r {A B : Type} (P : A -> B -> Prop)
    (l : list A) (l' : list B) :
  Forall2 P l l' ->
  forall k b, nth_error l' k = Some b ->
              exists a, nth_error l k = Some a /\ P a b.
Proof.
  induction 1 as [| a0 b0 l l' H0 H IH]; intros [| k] b Hk; simpl in *;
    try discriminate.
  - injection Hk as <-. exists a0. auto.
  - apply IH. exact Hk.
Qed.

(** ** The estimator *)

Lemma np_ndarray_nth (mem : nat -> R) (n k : nat) :
  (k < n)%nat -> nth_error (np_ndarray mem n) k = Some (mem k).
Proof.
  intros Hk. unfold np_ndarray.
  rewrite nth_error_map, nth_error_seq.
  replace (k <? n)%nat with true by (symmetry; apply Nat.ltb_lt; exact Hk).
  reflexivity.
Qed.

(** Slot by slot content of [Mdot_values]: the grid value of the slot's row
    index at the first position of each index, the memory's content at every
    repeated position. *)
Lemma Mdot_values_slots (mem : nat -> R) (grid : list grid_row) (xi : point)
    (c : candidates) :
  build_candidates mem grid xi = Ok c ->
  length (indices_list c) = 8%nat /\
  length (Mdot_values c) = 8%nat /\
  forall k x, nth_error (indices_list c) k = Some x ->
    (first_index_of (indices_list c) x k ->
     nth_error (Mdot_values c) k = nth_error (grid_log10Mdot grid) x) /\
    (~ first_index_of (indices_list c) x k ->
     nth_error (Mdot_values c) k = Some (mem k)).
Proof.
  intros H. apply build_candidates_spec in H.
  destruct H as (mi & mj & fi & fj & di & dj & ri & rj
                 & _ & _ & _ & _ & Hidx & _ & Hall & Hfill).
  assert (Hlen : length (indices_list c) = 8%nat) by (rewrite Hidx; reflexivity).
  destruct (fill_Mdot_values_spec (grid_log10Mdot grid) (indices_list c)
              (np_ndarray mem 8)) as (Mdot & HMdot & HlenM & Hslots).
  { intros u Hu. unfold grid_log10Mdot. rewrite length_map.
    rewrite Forall_forall in Hall. apply Hall. exact Hu. }
  { rewrite Hlen. reflexivity. }
  rewrite Hfill in HMdot. injection HMdot as <-.
  split; [exact Hlen |]. split; [congruence |].
  intros k x Hk. destruct (Hslots k x Hk) as [Hw Hu].
  split; [exact Hw |].
  intros Hnf. rewrite (Hu Hnf). apply np_ndarray_nth.
  rewrite <- Hlen. apply nth_error_Some. congruence.
Qed.

Lemma photoevap_Mdot_nearest (mem : nat -> R)
    (grid : list grid_row) (xi : point) :
  grid <> [] ->
  exists c k s out,
    build_candidates mem grid xi = Ok c /\
    photoevap_Mdot mem grid xi = Ok out /\
    (k < 8)%nat /\
    nth_error (subgrid c) k = Some s /\
    nth_error (Mdot_values c) k = Some out /\
    (forall l q, nth_error (subgrid c) l = Some q ->
                 euclidean s xi <= euclidean q xi) /\
    exists row, nth_error (indices_list c) k = Some row /\
                nth_error (grid_log10Mdot grid) row = Some out.
Proof.
  intros Hne.
  destruct (build_candidates_ok mem grid xi Hne) as (c & Hc & Hspec).
  destruct (Mdot_values_slots mem grid xi c Hc) as (Hlen & HlenM & Hslots).
  destruct Hspec as (mi & mj & fi & fj & di & dj & ri & rj
                     & _ & _ & _ & _ & Hidx & Hsub & Hall & _).
  assert (Hsublen : length (subgrid c) = 8%nat)
    by (rewrite <- (Forall2_length Hsub); exact Hlen).
  assert (Hsne : subgrid c <> [])
    by (intros E; rewrite E in Hsublen; discriminate Hsublen).
  destruct (nearest_index_spec (subgrid c) xi Hsne)
    as (k & s & Hk & Hs & Hmin & Hearly).
  assert (Hk8 : (k < 8)%nat)
    by (rewrite <- Hsublen; apply nth_error_Some; congruence).
  destruct (Forall2_nth_error_r _ _ _ Hsub k s Hs) as (row & Hrow & Hrs).
  assert (Hfirst : first_index_of (indices_list c) row k).
  { split; [exact Hrow |]. intros l Hl Hl'.
    destruct (Forall2_nth_error_l _ _ _ Hsub l row Hl') as (q & Hq & Hrq).
    assert (q = s) by congruence. subst q.
    pose proof (Hearly l s Hl Hq). lra. }
  destruct (Hslots k row Hrow) as [Hw _]. specialize (Hw Hfirst).
  assert (Hrow_lt : (row < length (grid_log10Mdot grid))%nat).
  { unfold grid_log10Mdot. rewrite length_map.
    rewrite Forall_forall in Hall. apply Hall. eapply nth_error_In; eauto. }
  destruct (getitem_ok _ _ Hrow_lt) as (out & _ & Hout).
  exists c, k, s, out.
  split; [exact Hc |]. split.
  { unfold photoevap_Mdot, griddata_nearest. rewrite Hc. cbn [bind].
    rewrite Hk. cbn [bind]. apply getitem_nth_error. congruence. }
  split; [exact Hk8 |]. split; [exact Hs |]. split; [congruence |]. split.
  - intros l q Hq. apply euclidean_le. apply (Hmin l q Hq).
  - exists row. auto.
Qed.

Lemma photoevap_Mdot_returns (mem : nat -> R) (grid : list grid_row)
    (xi : point) :
  grid <> [] -> exists out, photoevap_Mdot mem grid xi = Ok out.
Proof.
  intros Hne.
  destruct (photoevap_Mdot_nearest mem grid xi Hne) as (c & k & s & out & _ & H & _).
  exists out. exact H.
Qed.

(** The estimate is the grid value of the row index at the position the
    nearest-neighbour query reports. *)
Lemma photoevap_Mdot_value (mem : nat -> R) (grid : list grid_row)
    (xi : point) (c : candidates) :
  build_candidates mem grid xi = Ok c ->
  exists k row out,
    nearest_index (subgrid c) xi = Ok k /\
    nth_error (indices_list c) k = Some row /\
    nth_error (grid_log10Mdot grid) row = Some out /\
    photoevap_Mdot mem grid xi = Ok out.
Proof.
  intros Hc.
  destruct (Mdot_values_slots mem grid xi c Hc) as (Hlen & HlenM & Hslots).
  destruct (build_candidates_spec mem grid xi c Hc)
    as (mi & mj & fi & fj & di & dj & ri & rj
        & _ & _ & _ & _ & Hidx & Hsub & Hall & _).
  assert (Hsne : subgrid c <> []).
  { intros E. pose proof (Forall2_length Hsub) as HL.
    rewrite E, Hlen in HL. discriminate HL. }
  destruct (nearest_index_spec (subgrid c) xi Hsne)
    as (k & s & Hk & Hs & _ & Hearly).
  destruct (Forall2_nth_error_r _ _ _ Hsub k s Hs) as (row & Hrow & Hrs).
  assert (Hfirst : first_index_of (indices_list c) row k).
  { split; [exact Hrow |]. intros l Hl Hl'.
    destruct (Forall2_nth_error_l _ _ _ Hsub l row Hl') as (q & Hq & Hrq).
    assert (q = s) by congruence. subst q.
    pose proof (Hearly l s Hl Hq). lra. }
  destruct (Hslots k row Hrow) as [Hw _]. specialize (Hw Hfirst).
  assert (Hrow_lt : (row < length (grid_log10Mdot grid))%nat).
  { unfold grid_log10Mdot. rewrite length_map.
    rewrite Forall_forall in Hall. apply Hall. eapply nth_error_In; eauto. }
  destruct (getitem_ok _ _ Hrow_lt) as (out & _ & Hout).
  exists k, row, out. split; [exact Hk |]. split; [exact Hrow |].
  split; [exact Hout |].
  unfold photoevap_Mdot, griddata_nearest. rewrite Hc. cbn [bind].
  rewrite Hk. cbn [bind]. apply getitem_nth_error. congruence.
Qed.

Lemma Forall2_functional {A B : Type} (P : A -> B -> Prop) (l : list A) :
  (forall a b b', P a b -> P a b' -> b = b') ->
  forall m m', Forall2 P l m -> Forall2 P l m' -> m = m'.
Proof.
  intros Hf. induction l as [| a l IH]; intros m m' H H';
    inversion H; inversion H'; subst; [reflexivity |].
  f_equal; [eapply Hf; eauto | apply IH; assumption].
Qed.

(** The content of the uninitialised array never reaches the estimate. *)
Lemma photoevap_Mdot_any_memory (mem mem' : nat -> R) (grid : list grid_row)
    (xi : point) :
  photoevap_Mdot mem grid xi = photoevap_Mdot mem' grid xi.
Proof.
  destruct grid as [| r rest]; [reflexivity |].
  destruct (build_candidates_ok mem (r :: rest) xi) as (c & Hc & Hs);
    [discriminate |].
  destruct (build_candidates_ok mem' (r :: rest) xi) as (c' & Hc' & Hs');
    [discriminate |].
  destruct (photoevap_Mdot_value mem _ xi c Hc)
    as (k & row & out & Hk & Hrow & Hout & Hrun).
  destruct (photoevap_Mdot_value mem' _ xi c' Hc')
    as (k' & row' & out' & Hk' & Hrow' & Hout' & Hrun').
  destruct Hs as (mi & mj & fi & fj & di & dj & ri & rj
                  & Hm & Hf & Hd & Hr & Hidx & Hsub & _ & _).
  destruct Hs' as (mi' & mj' & fi' & fj' & di' & dj' & ri' & rj'
                   & Hm' & Hf' & Hd' & Hr' & Hidx' & Hsub' & _ & _).
  assert (Eidx : indices_list c' = indices_list c) by congruence.
  rewrite Eidx in Hsub', Hrow'.
  assert (Esub : subgrid c = subgrid c').
  { apply (Forall2_functional
             (fun i s => nth_error (FRIED_grid (r :: rest)) i = Some s)
             (indices_list c)); [| exact Hsub | exact Hsub'].
    intros i s s' H1 H2. congruence. }
  rewrite <- Esub in Hk'.
  assert (k' = k) by congruence. subst k'.
  assert (row' = row) by congruence. subst row'.
  rewrite Hrun, Hrun'. congruence.
Qed.

(** C3: the estimate is one entry of the 8-vector handed to the
    interpolation, namely the entry at a position [k] whose sub-grid row is
    at the least Euclidean distance from the query point among the eight
    rows; that entry is the grid's log10 mass-loss value of the row index at
    position [k] (the lowest position among equally distant rows, hence a
    slot the fill loop has written).  No other value is ever produced. *)
Theorem photoevap_Mdot_nearest_candidate (mem : nat -> R)
    (grid : list grid_row) (xi : point) :
  grid <> [] ->
  exists c k s out,
    build_candidates mem grid xi = Ok c /\
    photoevap_Mdot mem grid xi = Ok out /\
    (k < 8)%nat /\
    nth_error (subgrid c) k = Some s /\
    nth_error (Mdot_values c) k = Some out /\
    (forall l q, nth_error (subgrid c) l = Some q ->
                 euclidean s xi <= euclidean q xi) /\
    exists row, nth_error (indices_list c) k = Some row /\
                nth_error (grid_log10Mdot grid) row = Some out.
Proof. exact (photoevap_Mdot_nearest mem grid xi). Qed.

Lemma photoevap_Mdot_nearest_candidate_witness :
  [mk_grid_row 0.5 10 1 0 50 (-8); mk_grid_row 1 100 10 0 100 (-7)] <> [] /\
  exists c k s out,
    build_candidates (fun _ => 0)
      [mk_grid_row 0.5 10 1 0 50 (-8); mk_grid_row 1 100 10 0 100 (-7)]
      (mk_point 0.7 50 5 70) = Ok c /\
    photoevap_Mdot (fun _ => 0)
      [mk_grid_row 0.5 10 1 0 50 (-8); mk_grid_row 1 100 10 0 100 (-7)]
      (mk_point 0.7 50 5 70) = Ok out /\
    (k < 8)%nat /\
    nth_error (subgrid c) k = Some s /\
    nth_error (Mdot_values c) k = Some out /\
    (forall l q, nth_error (subgrid c) l = Some q ->
                 euclidean s (mk_point 0.7 50 5 70)
                 <= euclidean q (mk_point 0.7 50 5 70)) /\
    exists row, nth_error (indices_list c) k = Some row /\
                nth_error
                  (grid_log10Mdot
                     [mk_grid_row 0.5 10 1 0 50 (-8);
                      mk_grid_row 1 100 10 0 100 (-7)]) row = Some out.
Proof.
  split; [discriminate |].
  apply (photoevap_Mdot_nearest_candidate (fun _ => 0)
           [mk_grid_row 0.5 10 1 0 50 (-8); mk_grid_row 1 100 10 0 100 (-7)]
           (mk_point 0.7 50 5 70)).
  discriminate.
Defined.

Ltac run_estimator :=
  unfold build_candidates, photoevap_Mdot, griddata_nearest, nearest_index,
    fill_Mdot_values, list_index, setitem, getitem, np_ndarray,
    grid_stellar_masses, grid_FUV, grid_disk_mass, grid_disk_radius,
    grid_log10Mdot, FRIED_grid, working_row, find_indices, np_where_eq;
  run_arrays.

Lemma two_row_candidates (mem : nat -> R) :
  build_candidates mem two_row_grid two_row_query =
  Ok (mk_candidates
        [0; 1; 0; 1; 0; 1; 0; 1]%nat
        [mk_point 0.5 10 1 50; mk_point 1 100 10 100;
         mk_point 0.5 10 1 50; mk_point 1 100 10 100;
         mk_point 0.5 10 1 50; mk_point 1 100 10 100;
         mk_point 0.5 10 1 50; mk_point 1 100 10 100]
        [-8; -7; mem 2%nat; mem 3%nat; mem 4%nat; mem 5%nat; mem 6%nat;
         mem 7%nat]).
Proof. unfold two_row_grid, two_row_query. run_estimator. reflexivity. Qed.

(** C1, at a grid of two rows: every row index occurs at four positions of
    [indices_list], the loop writes [Mdot_values] at the first position of
    each index only, and the six remaining slots keep the content of the
    uninitialised array, whatever the grid holds for their row index. *)
Theorem Mdot_values_repeated_indices (mem : nat -> R) :
  exists c,
    build_candidates mem two_row_grid two_row_query = Ok c /\
    indices_list c = [0; 1; 0; 1; 0; 1; 0; 1]%nat /\
    Mdot_values c =
      [-8; -7; mem 2%nat; mem 3%nat; mem 4%nat; mem 5%nat; mem 6%nat;
       mem 7%nat] /\
    grid_log10Mdot two_row_grid = [-8; -7].
Proof.
  eexists. split; [apply two_row_candidates |].
  repeat split; reflexivity.
Qed.

(** With zeroed memory the slot at position 2 holds 0, whereas the grid
    value of the row index at position 2 is -8. *)
Example Mdot_values_position_2 :
  exists c,
    build_candidates (fun _ => 0) two_row_grid two_row_query = Ok c /\
    nth_error (indices_list c) 2 = Some 0%nat /\
    nth_error (grid_log10Mdot two_row_grid) 0 = Some (-8) /\
    nth_error (Mdot_values c) 2 = Some 0 /\
    0 <> -8.
Proof.
  eexists. split; [apply two_row_candidates |].
  simpl. repeat split; try reflexivity. lra.
Qed.

(** When the eight indices are pairwise distinct, every slot holds the grid
    value of its row index. *)
Lemma Mdot_values_distinct_indices (mem : nat -> R) (grid : list grid_row)
    (xi : point) (c : candidates) :
  build_candidates mem grid xi = Ok c ->
  NoDup (indices_list c) ->
  forall k x, nth_error (indices_list c) k = Some x ->
    nth_error (Mdot_values c) k = nth_error (grid_log10Mdot grid) x.
Proof.
  intros Hc Hnd k x Hk.
  destruct (Mdot_values_slots mem grid xi c Hc) as (_ & _ & Hslots).
  apply (Hslots k x Hk). split; [exact Hk |].
  intros l Hl Hl'.
  assert (l = k); [| lia].
  apply (proj1 (NoDup_nth_error (indices_list c)) Hnd).
  - apply nth_error_Some. congruence.
  - congruence.
Qed.

(** ** Luminosity fit *)

Lemma power_law_pos (coefficient mass exponent : R) :
  0 < coefficient -> 0 < coefficient * Rpower mass exponent.
Proof.
  intros H. apply Rmult_lt_0_compat; [exact H |].
  unfold Rpower. apply exp_pos.
Qed.

Ltac run_fit := unfold luminosity_fit, between; decide_cmp; cbn [andb].

(** The ten branches of the fit. *)
Lemma luminosity_fit_branches (mass : R) :
  (0.12 < mass < 0.24 ->
     luminosity_fit mass = 1.70294E16 * Rpower mass 42.557) /\
  (0.24 < mass < 0.56 ->
     luminosity_fit mass = 9.11137E-9 * Rpower mass 3.8845) /\
  (0.56 < mass < 0.70 ->
     luminosity_fit mass = 1.10021E-6 * Rpower mass 12.237) /\
  (0.70 < mass < 0.91 ->
     luminosity_fit mass = 2.38690E-4 * Rpower mass 27.199) /\
  (0.91 < mass < 1.37 ->
     luminosity_fit mass = 1.02477E-4 * Rpower mass 18.465) /\
  (1.37 < mass < 2.07 ->
     luminosity_fit mass = 9.66362E-4 * Rpower mass 11.410) /\
  (2.07 < mass < 3.72 ->
     luminosity_fit mass = 6.49335E-2 * Rpower mass 5.6147) /\
  (3.72 < mass < 10.0 ->
     luminosity_fit mass = 6.99075E-1 * Rpower mass 3.8058) /\
  (10.0 < mass < 20.2 ->
     luminosity_fit mass = 9.73664E0 * Rpower mass 2.6620) /\
  (20.2 < mass ->
     luminosity_fit mass = 1.31175E2 * Rpower mass 1.7974).
Proof.
  repeat split; intros H; run_fit; reflexivity.
Qed.

Lemma luminosity_fit_zero_at (mass : R) :
  mass <= 0.12 \/ mass = 0.24 \/ mass = 0.56 \/ mass = 0.70 \/ mass = 0.91 \/
  mass = 1.37 \/ mass = 2.07 \/ mass = 3.72 \/ mass = 10.0 \/ mass = 20.2 ->
  luminosity_fit mass = 0.
Proof.
  intros H.
  repeat (destruct H as [H | H]; [run_fit; reflexivity |]).
  run_fit; reflexivity.
Qed.

Lemma luminosity_fit_pos_inside (mass : R) :
  0.12 < mass -> mass <> 0.24 -> mass <> 0.56 -> mass <> 0.70 ->
  mass <> 0.91 -> mass <> 1.37 -> mass <> 2.07 -> mass <> 3.72 ->
  mass <> 10.0 -> mass <> 20.2 ->
  0 < luminosity_fit mass.
Proof.
  intros H0 H1 H2 H3 H4 H5 H6 H7 H8 H9.
  destruct (luminosity_fit_branches mass)
    as (B1 & B2 & B3 & B4 & B5 & B6 & B7 & B8 & B9 & B10).
  destruct (Rlt_dec mass 0.24); [rewrite B1 by lra; apply power_law_pos; lra |].
  destruct (Rlt_dec mass 0.56); [rewrite B2 by lra; apply power_law_pos; lra |].
  destruct (Rlt_dec mass 0.70); [rewrite B3 by lra; apply power_law_pos; lra |].
  destruct (Rlt_dec mass 0.91); [rewrite B4 by lra; apply power_law_pos; lra |].
  destruct (Rlt_dec mass 1.37); [rewrite B5 by lra; apply power_law_pos; lra |].
  destruct (Rlt_dec mass 2.07); [rewrite B6 by lra; apply power_law_pos; lra |].
  destruct (Rlt_dec mass 3.72); [rewrite B7 by lra; apply power_law_pos; lra |].
  destruct (Rlt_dec mass 10.0); [rewrite B8 by lra; apply power_law_pos; lra |].
  destruct (Rlt_dec mass 20.2); [rewrite B9 by lra; apply power_law_pos; lra |].
  rewrite B10 by lra. apply power_law_pos; lra.
Qed.

(** C4, refuted as stated: a mass above 20.2, here 25, is not mapped to
    zero; it falls in a tenth, unbounded power-law branch. *)
Lemma luminosity_fit_25_not_zero :
  20.2 < 25 /\
  luminosity_fit 25 = 1.31175E2 * Rpower 25 1.7974 /\
  luminosity_fit 25 <> 0.
Proof.
  split; [lra |].
  assert (E : luminosity_fit 25 = 1.31175E2 * Rpower 25 1.7974)
    by (apply luminosity_fit_branches; lra).
  split; [exact E |].
  rewrite E. apply Rgt_not_eq. apply power_law_pos. lra.
Qed.

(** C4, amended: the fit has ten disjoint open power-law intervals, nine
    bounded ones from (0.12, 0.24) to (10.0, 20.2) and the unbounded one
    above 20.2; it returns zero exactly for the masses outside all of them,
    which are the masses at or below 0.12 and the nine boundaries 0.24, 0.56,
    0.70, 0.91, 1.37, 2.07, 3.72, 10.0 and 20.2.  No mass above 20.2 is
    mapped to zero. *)
Theorem luminosity_fit_ten_segments (mass : R) :
  ((0.12 < mass < 0.24 ->
      luminosity_fit mass = 1.70294E16 * Rpower mass 42.557) /\
   (0.24 < mass < 0.56 ->
      luminosity_fit mass = 9.11137E-9 * Rpower mass 3.8845) /\
   (0.56 < mass < 0.70 ->
      luminosity_fit mass = 1.10021E-6 * Rpower mass 12.237) /\
   (0.70 < mass < 0.91 ->
      luminosity_fit mass = 2.38690E-4 * Rpower mass 27.199) /\
   (0.91 < mass < 1.37 ->
      luminosity_fit mass = 1.02477E-4 * Rpower mass 18.465) /\
   (1.37 < mass < 2.07 ->
      luminosity_fit mass = 9.66362E-4 * Rpower mass 11.410) /\
   (2.07 < mass < 3.72 ->
      luminosity_fit mass = 6.49335E-2 * Rpower mass 5.6147) /\
   (3.72 < mass < 10.0 ->
      luminosity_fit mass = 6.99075E-1 * Rpower mass 3.8058) /\
   (10.0 < mass < 20.2 ->
      luminosity_fit mass = 9.73664E0 * Rpower mass 2.6620) /\
   (20.2 < mass ->
      luminosity_fit mass = 1.31175E2 * Rpower mass 1.7974)) /\
  (luminosity_fit mass = 0 <->
     mass <= 0.12 \/ mass = 0.24 \/ mass = 0.56 \/ mass = 0.70 \/
     mass = 0.91 \/ mass = 1.37 \/ mass = 2.07 \/ mass = 3.72 \/
     mass = 10.0 \/ mass = 20.2).
Proof.
  split; [apply luminosity_fit_branches |].
  split; [| apply luminosity_fit_zero_at].
  intros Hz.
  destruct (Rle_dec mass 0.12) as [Hle | Hgt]; [left; exact Hle | right].
  destruct (Req_dec_T mass 0.24) as [E1 | N1]; [tauto |].
  destruct (Req_dec_T mass 0.56) as [E2 | N2]; [tauto |].
  destruct (Req_dec_T mass 0.70) as [E3 | N3]; [tauto |].
  destruct (Req_dec_T mass 0.91) as [E4 | N4]; [tauto |].
  destruct (Req_dec_T mass 1.37) as [E5 | N5]; [tauto |].
  destruct (Req_dec_T mass 2.07) as [E6 | N6]; [tauto |].
  destruct (Req_dec_T mass 3.72) as [E7 | N7]; [tauto |].
  destruct (Req_dec_T mass 10.0) as [E8 | N8]; [tauto |].
  destruct (Req_dec_T mass 20.2) as [E9 | N9]; [tauto |].
  exfalso.
  assert (Hpos : 0 < luminosity_fit mass)
    by (apply luminosity_fit_pos_inside; auto; lra).
  lra.
Qed.

(** ** Disk-radius updater *)

Lemma ratio_below_one (m M : R) : 0 < M -> 0 <= m < M -> 0 <= m / M < 1.
Proof.
  intros HM [H0 H1]. unfold Rdiv.
  pose proof (Rinv_0_lt_compat M HM) as Hinv.
  assert (HMM : M * / M = 1) by (apply Rinv_r; lra).
  split; nra.
Qed.

Lemma ratio_at_least_one (m M : R) : 0 < M -> M <= m -> 1 <= m / M.
Proof.
  intros HM H. unfold Rdiv.
  pose proof (Rinv_0_lt_compat M HM) as Hinv.
  assert (HMM : M * / M = 1) by (apply Rinv_r; lra).
  nra.
Qed.

(** C6: for a characteristic radius [R_char > 0], a total disk mass
    [M_total > 0] and an enclosed mass [0 <= m_enc < M_total] (both masses in
    MJupiter) the result is the finite number
    [R_char * ln (1 / (1 - m_enc / M_total))]; whenever
    [m_enc >= M_total] the result is not a finite number (an infinity when
    the masses are equal, NaN when the enclosed mass is larger). *)
Theorem radius_containing_mass_formula (U : amuse_units) (star : Star)
    (mass R_char M : R) :
  disk_radius star = Some R_char ->
  disk_mass star = Some M ->
  0 < R_char ->
  0 < M * MJupiter_per_MSun U ->
  (0 <= mass * MJupiter_per_MSun U < M * MJupiter_per_MSun U ->
     radius_containing_mass U star mass =
     Ok (Finite
           (R_char *
            ln (1 / (1 - mass * MJupiter_per_MSun U
                         / (M * MJupiter_per_MSun U)))))) /\
  (M * MJupiter_per_MSun U <= mass * MJupiter_per_MSun U ->
     exists v, radius_containing_mass U star mass = Ok v /\
               is_finite v = false).
Proof.
  intros HR HM HRpos HMpos.
  set (Mt := M * MJupiter_per_MSun U) in *.
  set (me := mass * MJupiter_per_MSun U) in *.
  assert (Hunfold :
    radius_containing_mass U star mass =
    Ok (np_mul (Finite R_char)
          (np_log (np_div (Finite 1) (np_sub (Finite 1) (Finite (me / Mt))))))).
  { unfold radius_containing_mass. rewrite HR, HM. cbn [bind attribute].
    fold Mt me. cbn [np_div]. rewrite Reqb_false by lra. reflexivity. }
  rewrite Hunfold. cbn [np_sub np_div]. split.
  - intros Hin. destruct (ratio_below_one me Mt HMpos Hin) as [Hr0 Hr1].
    rewrite Reqb_false by lra. cbn [np_log].
    assert (Hinv : 0 < 1 / (1 - me / Mt))
      by (unfold Rdiv at 1; rewrite Rmult_1_l; apply Rinv_0_lt_compat; lra).
    rewrite Rltb_true by exact Hinv. reflexivity.
  - intros Hout. pose proof (ratio_at_least_one me Mt HMpos Hout) as Hr.
    destruct (Req_dec_T (1 - me / Mt) 0) as [Hz | Hnz].
    + rewrite Reqb_true by exact Hz.
      unfold signed_inf at 1. rewrite Reqb_false by lra.
      rewrite Rltb_true by lra. cbn [np_log np_mul].
      unfold signed_inf. rewrite Reqb_false by lra. rewrite Rltb_true by lra.
      exists PosInf. split; reflexivity.
    + rewrite Reqb_false by exact Hnz. cbn [np_log].
      assert (Hinv : 1 / (1 - me / Mt) < 0).
      { unfold Rdiv at 1. rewrite Rmult_1_l. apply Rinv_lt_0_compat. lra. }
      rewrite Rltb_false by lra. rewrite Reqb_false by lra. cbn [np_mul].
      exists NaN. split; reflexivity.
Qed.

Lemma radius_containing_mass_formula_witness :
  disk_radius (mk_star 0 0 0 1 (Some 0.1) (Some 100)) = Some 100 /\
  disk_mass (mk_star 0 0 0 1 (Some 0.1) (Some 100)) = Some 0.1 /\
  0 < 100 /\
  0 < 0.1 * MJupiter_per_MSun (mk_units 1000 1) /\
  0 <= 0.05 * MJupiter_per_MSun (mk_units 1000 1)
    < 0.1 * MJupiter_per_MSun (mk_units 1000 1) /\
  radius_containing_mass (mk_units 1000 1)
    (mk_star 0 0 0 1 (Some 0.1) (Some 100)) 0.05 =
  Ok (Finite
        (100 *
         ln (1 / (1 - 0.05 * MJupiter_per_MSun (mk_units 1000 1)
                      / (0.1 * MJupiter_per_MSun (mk_units 1000 1)))))).
Proof.
  assert (H1 : disk_radius (mk_star 0 0 0 1 (Some 0.1) (Some 100)) = Some 100)
    by reflexivity.
  assert (H2 : disk_mass (mk_star 0 0 0 1 (Some 0.1) (Some 100)) = Some 0.1)
    by reflexivity.
  assert (H3 : 0 < 100) by lra.
  assert (H4 : 0 < 0.1 * MJupiter_per_MSun (mk_units 1000 1))
    by (simpl; lra).
  assert (H5 : 0 <= 0.05 * MJupiter_per_MSun (mk_units 1000 1)
               < 0.1 * MJupiter_per_MSun (mk_units 1000 1))
    by (simpl; lra).
  repeat (split; [assumption |]).
  apply (radius_containing_mass_formula (mk_units 1000 1)
           (mk_star 0 0 0 1 (Some 0.1) (Some 100)) 0.05 100 0.1 H1 H2 H3 H4).
  exact H5.
Defined.

(** The enclosed mass of the whole disk: the result is an infinity. *)
Example radius_containing_whole_disk :
  radius_containing_mass (mk_units 1000 1)
    (mk_star 0 0 0 1 (Some 0.1) (Some 100)) 0.1 = Ok PosInf.
Proof.
  unfold radius_containing_mass. cbn [bind attribute disk_radius disk_mass
    MJupiter_per_MSun np_div np_sub].
  rewrite Reqb_false by lra.
  replace (0.1 * 1000 / (0.1 * 1000)) with 1 by (field; lra).
  replace (1 - 1) with 0 by lra.
  rewrite Reqb_true by reflexivity.
  unfold signed_inf. rewrite Reqb_false by lra. rewrite Rltb_true by lra.
  cbn [np_log np_mul]. unfold signed_inf.
  rewrite Reqb_false by lra. rewrite Rltb_true by lra. reflexivity.
Qed.

(** ** Populations *)

Lemma nth_error_map_at_from {A B : Type} (f : nat -> A -> B) (l : list A) :
  forall k i,
    nth_error (map_at_from k f l) i =
    option_map (f (k + i)%nat) (nth_error l i).
Proof.
  induction l as [| a rest IH]; intros k [| i]; simpl; auto.
  - rewrite Nat.add_0_r. reflexivity.
  - rewrite IH. replace (S k + i)%nat with (k + S i)%nat by lia. reflexivity.
Qed.

Lemma length_map_at_from {A B : Type} (f : nat -> A -> B) (l : list A) :
  forall k, length (map_at_from k f l) = length l.
Proof. induction l as [| a rest IH]; intros k; simpl; auto. Qed.

Lemma select_from_In (mask : Star -> bool) (particles : list Star) :
  forall k0 k,
    In k (select_from k0 mask particles) <->
    exists s, (k0 <= k)%nat /\ nth_error particles (k - k0) = Some s /\
              mask s = true.
Proof.
  induction particles as [| a rest IH]; intros k0 k; simpl.
  - split; [intros [] | intros (s & _ & H & _)].
    destruct (k - k0)%nat; discriminate H.
  - assert (Hrest : In k (select_from (S k0) mask rest) <->
                    exists s, (S k0 <= k)%nat /\
                              nth_error rest (k - S k0) = Some s /\
                              mask s = true) by apply IH.
    assert (Hhere : (exists s, (k0 <= k)%nat /\
                        nth_error (a :: rest) (k - k0) = Some s /\
                        mask s = true) <->
                    (k = k0 /\ mask a = true) \/
                    exists s, (S k0 <= k)%nat /\
                              nth_error rest (k - S k0) = Some s /\
                              mask s = true).
    { split.
      - intros (s & Hle & Hn & Hm).
        destruct (k - k0)%nat as [| d] eqn:Hd; simpl in Hn.
        + injection Hn as <-. left. split; [lia | exact Hm].
        + right. exists s. split; [lia |].
          replace (k - S k0)%nat with d by lia. auto.
      - intros [[-> Hm] | (s & Hle & Hn & Hm)].
        + exists a. rewrite Nat.sub_diag. auto.
        + exists s. split; [lia |].
          replace (k - k0)%nat with (S (k - S k0)) by lia. auto. }
    rewrite Hhere. destruct (mask a); simpl; rewrite Hrest.
    + split; [intros [<- | H]; auto | intros [[-> _] | H]; auto].
    + split; [auto | intros [[_ H] | H]; [discriminate H | exact H]].
Qed.

Lemma bright_stars_In (particles : list Star) (k : nat) :
  In k (bright_stars particles) <->
  exists s, nth_error particles k = Some s /\ 1.9 < stellar_mass s.
Proof.
  unfold bright_stars. rewrite select_from_In. rewrite Nat.sub_0_r.
  split; intros (s & H); exists s.
  - destruct H as (_ & Hn & Hm). apply Rltb_lt in Hm. auto.
  - destruct H as (Hn & Hm). split; [lia |]. split; [exact Hn |].
    apply Rltb_true. exact Hm.
Qed.

Lemma small_stars_In (particles : list Star) (k : nat) :
  In k (small_stars particles) <->
  exists s, nth_error particles k = Some s /\ stellar_mass s < 1.9.
Proof.
  unfold small_stars. rewrite select_from_In. rewrite Nat.sub_0_r.
  split; intros (s & H); exists s.
  - destruct H as (_ & Hn & Hm). apply Rltb_lt in Hm. auto.
  - destruct H as (Hn & Hm). split; [lia |]. split; [exact Hn |].
    apply Rltb_true. exact Hm.
Qed.

Lemma mem_nat_In (k : nat) (l : list nat) : mem_nat k l = true <-> In k l.
Proof.
  unfold mem_nat. rewrite existsb_exists. split.
  - intros (u & Hu & E). apply Nat.eqb_eq in E. subst u. exact Hu.
  - intros H. exists k. split; [exact H | apply Nat.eqb_refl].
Qed.

Lemma mem_nat_not_In (k : nat) (l : list nat) : ~ In k l -> mem_nat k l = false.
Proof.
  intros H. destruct (mem_nat k l) eqn:E; [| reflexivity].
  apply mem_nat_In in E. contradiction.
Qed.

Lemma assign_nth (view : list nat) (upd fill : Star -> Star)
    (particles : list Star) (i : nat) :
  nth_error (assign view upd fill particles) i =
  option_map (fun s => if mem_nat i view then upd s else fill s)
    (nth_error particles i).
Proof. unfold assign. rewrite nth_error_map_at_from. reflexivity. Qed.

Lemma assign_length (view : list nat) (upd fill : Star -> Star)
    (particles : list Star) :
  length (assign view upd fill particles) = length particles.
Proof. apply length_map_at_from. Qed.

Lemma assign_disks_length (particles : list Star) :
  length (assign_disks particles) = length particles.
Proof. unfold assign_disks. rewrite !assign_length. reflexivity. Qed.

(** A particle outside both populations is given nothing by the four disk
    assignments: it keeps what it has, and reads 0 for an attribute they
    create. *)
Lemma assign_disks_outside (particles : list Star) (k : nat) (s : Star) :
  ~ In k (bright_stars particles) -> ~ In k (small_stars particles) ->
  nth_error particles k = Some s ->
  nth_error (assign_disks particles) k =
  Some (mk_star (x s) (y s) (z s) (stellar_mass s)
          (Some (or_zero (disk_mass s))) (Some (or_zero (disk_radius s)))).
Proof.
  intros Hb Hs Hk. unfold assign_disks. rewrite !assign_nth.
  rewrite (mem_nat_not_In _ _ Hb), (mem_nat_not_In _ _ Hs), Hk.
  cbn [option_map]. destruct s as [px py pz m [dm |] [dr |]]; reflexivity.
Qed.

(** The disk assignments move no particle and change no stellar mass. *)
Lemma assign_disks_position (particles : list Star) (k : nat) (s' : Star) :
  nth_error (assign_disks particles) k = Some s' ->
  exists s,
    nth_error particles k = Some s /\
    x s' = x s /\ y s' = y s /\ z s' = z s /\
    stellar_mass s' = stellar_mass s.
Proof.
  unfold assign_disks. rewrite !assign_nth.
  destruct (nth_error particles k) as [s |]; [| discriminate].
  cbn [option_map]. intros H. injection H as <-. exists s.
  split; [reflexivity |].
  destruct (mem_nat k (bright_stars particles));
    destruct (mem_nat k (small_stars particles));
    destruct s as [px py pz m [dm |] [dr |]]; repeat split.
Qed.

Lemma assign_disks_small (particles : list Star) (k : nat) :
  In k (small_stars particles) ->
  exists s, nth_error (assign_disks particles) k = Some s /\ has_disk s.
Proof.
  intros Hs. pose proof Hs as Hs'. apply small_stars_In in Hs'.
  destruct Hs' as (s & Hn & _).
  unfold assign_disks. rewrite !assign_nth. rewrite Hn.
  apply mem_nat_In in Hs. rewrite Hs. cbn [option_map].
  destruct (mem_nat k (bright_stars particles)); eexists; split;
    try reflexivity; split; eexists; reflexivity.
Qed.

(** ** The accumulator *)

Lemma slots_le_refl (a : list R) : slots_le a a.
Proof. induction a; constructor; [lra | assumption]. Qed.

Lemma slots_le_trans (a b c : list R) :
  slots_le a b -> slots_le b c -> slots_le a c.
Proof.
  intros Hab. revert c. induction Hab as [| u v a b Huv Hab IH]; intros c Hbc.
  - inversion Hbc. constructor.
  - inversion Hbc as [| v' w b' c' Hvw Hbc']; subst.
    constructor; [lra | apply IH; assumption].
Qed.

Lemma slots_le_nonneg (a b : list R) :
  Forall (fun u => 0 <= u) a -> slots_le a b -> Forall (fun u => 0 <= u) b.
Proof.
  intros Ha Hab. induction Hab as [| u v a b Huv Hab IH]; [constructor |].
  inversion Ha; subst. constructor; [lra | auto].
Qed.

Lemma zeros_nonneg (n : nat) : Forall (fun u => 0 <= u) (repeat 0 n).
Proof. induction n; simpl; constructor; [lra | assumption]. Qed.

Lemma total_loss_nonneg (dt_yr : R) (estimates : list R) :
  0 <= dt_yr -> 0 <= total_loss dt_yr estimates.
Proof.
  intros Hdt. unfold total_loss.
  induction estimates as [| e rest IH]; cbn [map fold_right]; [lra |].
  assert (0 < Rpower 10 e) by (unfold Rpower; apply exp_pos). nra.
Qed.

Lemma total_loss_pos (dt_yr : R) (estimates : list R) :
  0 < dt_yr -> estimates <> [] -> 0 < total_loss dt_yr estimates.
Proof.
  intros Hdt Hne. destruct estimates as [| e rest]; [congruence |].
  pose proof (total_loss_nonneg dt_yr rest) as Hrest.
  unfold total_loss in *. cbn [map fold_right].
  assert (0 < Rpower 10 e) by (unfold Rpower; apply exp_pos). nra.
Qed.

Lemma Forall2_pointwise {A B : Type} (P : A -> B -> Prop) :
  forall (a : list A) (b : list B),
    length a = length b ->
    (forall k u v, nth_error a k = Some u -> nth_error b k = Some v -> P u v) ->
    Forall2 P a b.
Proof.
  induction a as [| u a IH]; intros [| v b] Hlen H; try discriminate Hlen;
    constructor.
  - apply (H O u v); reflexivity.
  - apply IH; [simpl in Hlen; lia |].
    intros k u' v' Hu Hv. apply (H (S k)); assumption.
Qed.

(** ** The flux on a small star *)

Lemma square_zero (a : R) : a ^ 2 = 0 -> a = 0.
Proof.
  intros H. destruct (Req_dec_T a 0) as [E | N]; [exact E |].
  exfalso. apply (pow_nonzero a 2 N). exact H.
Qed.

Lemma sphere_area_pos (d : R) : d <> 0 -> 0 < 4 * PI * d ^ 2.
Proof.
  intros Hd. pose proof PI_RGT_0 as Hpi.
  assert (0 < d ^ 2).
  { pose proof (pow2_ge_0 d) as H0.
    destruct H0 as [H0 | H0]; [exact H0 |].
    symmetry in H0. apply square_zero in H0. contradiction. }
  nra.
Qed.

(** At a non-zero distance the flux is the real quotient. *)
Lemma radiation_at_distance_finite (rad d : R) :
  d <> 0 ->
  radiation_at_distance rad d = Finite (rad / (4 * PI * d ^ 2)).
Proof.
  intros Hd. pose proof (sphere_area_pos d Hd).
  unfold radiation_at_distance. cbn [np_div].
  rewrite Reqb_false by lra. reflexivity.
Qed.

Lemma flux_at_distance (rad d : R) :
  d <> 0 ->
  np_div (radiation_at_distance rad d) (Finite 1.6E-3) =
  Finite (rad / (4 * PI * d ^ 2) / 1.6E-3).
Proof.
  intros Hd. rewrite (radiation_at_distance_finite rad d Hd).
  cbn [np_div]. rewrite Reqb_false by lra. reflexivity.
Qed.

(** At distance zero it is an infinity or NaN, and stays so in units of
    G0. *)
Lemma radiation_at_no_distance (rad : R) :
  radiation_at_distance rad 0 = signed_inf rad NaN.
Proof.
  unfold radiation_at_distance. cbn [np_div].
  rewrite Reqb_true by ring. reflexivity.
Qed.

Lemma flux_at_no_distance (rad : R) :
  is_finite (np_div (radiation_at_distance rad 0) (Finite 1.6E-3)) = false.
Proof.
  rewrite radiation_at_no_distance. unfold signed_inf.
  destruct (Reqb rad 0); [reflexivity |].
  destruct (Rltb 0 rad); cbn [np_div]; destruct (Rltb 1.6E-3 0); reflexivity.
Qed.

(** ** One pair *)

(** What one pair contributes, read off any pass of the inner loop body that
    returns: the two stars are not at the same place, and the slot of the
    small star grows by [10 ^ estimate * dt]. *)
Lemma small_star_step_adds (U : amuse_units) (grid : list grid_row)
    (mem : nat -> nat -> R) (dt_yr : R) (particles : list Star) (s : Star)
    (lum : R) (mass_loss mass_loss' : list R) (zc zc' pos : nat) :
  small_star_step U grid mem dt_yr particles s lum (mass_loss, zc) pos =
    Ok (mass_loss', zc') ->
  exists ss m r e old,
    nth_error particles pos = Some ss /\
    distance s ss <> 0 /\
    disk_mass ss = Some m /\ disk_radius ss = Some r /\
    photoevap_Mdot (mem zc) grid (pair_query U lum s ss m r) = Ok e /\
    nth_error mass_loss zc = Some old /\
    mass_loss' = replace_nth mass_loss zc (old + Rpower 10 e * dt_yr) /\
    zc' = S zc.
Proof.
  unfold small_star_step.
  destruct (getitem particles pos) as [ss |] eqn:Hss; cbn [bind];
    [| discriminate].
  destruct (disk_mass ss) as [m |] eqn:Hm; cbn [bind attribute];
    [| discriminate].
  destruct (disk_radius ss) as [r |] eqn:Hr; cbn [bind attribute];
    [| discriminate].
  destruct (Req_dec_T (distance s ss) 0) as [Hd | Hd].
  - rewrite Hd.
    pose proof (flux_at_no_distance (lum * erg_s_per_LSun U)) as Hnf.
    revert Hnf.
    destruct (np_div (radiation_at_distance (lum * erg_s_per_LSun U) 0)
                (Finite 1.6E-3));
      cbn [is_finite photoevap_Mdot_at bind]; intros Hnf;
      first [discriminate Hnf | discriminate].
  - rewrite (flux_at_distance _ _ Hd). cbn [photoevap_Mdot_at].
    fold (pair_query U lum s ss m r).
    destruct (photoevap_Mdot (mem zc) grid (pair_query U lum s ss m r))
      as [e |] eqn:He; cbn [bind]; [| discriminate].
    destruct (getitem mass_loss zc) as [old |] eqn:Hold; cbn [bind];
      [| discriminate].
    unfold setitem. destruct (zc <? length mass_loss)%nat; cbn [bind];
      [| discriminate].
    intros H. injection H as <- <-.
    exists ss, m, r, e, old.
    split; [apply getitem_nth_error; exact Hss |].
    split; [exact Hd |]. split; [exact Hm |]. split; [exact Hr |].
    split; [exact He |].
    split; [apply getitem_nth_error; exact Hold |].
    split; reflexivity.
Qed.

(** The inner loop, when it returns, has visited one slot per small star,
    in order, and left the other slots alone. *)
Lemma small_loop_adds (U : amuse_units) (grid : list grid_row)
    (mem : nat -> nat -> R) (dt_yr : R) (particles : list Star) (s : Star)
    (lum : R) :
  forall small mass_loss zc mass_loss' zc',
    for_each small (small_star_step U grid mem dt_yr particles s lum)
      (mass_loss, zc) = Ok (mass_loss', zc') ->
    zc' = (zc + length small)%nat /\
    length mass_loss' = length mass_loss /\
    (forall k, (k < zc)%nat \/ (zc + length small <= k)%nat ->
       nth_error mass_loss' k = nth_error mass_loss k) /\
    (forall i pos, nth_error small i = Some pos ->
       exists ss m r e old,
         nth_error particles pos = Some ss /\
         distance s ss <> 0 /\
         disk_mass ss = Some m /\ disk_radius ss = Some r /\
         photoevap_Mdot (mem (zc + i)%nat) grid (pair_query U lum s ss m r)
           = Ok e /\
         nth_error mass_loss (zc + i) = Some old /\
         nth_error mass_loss' (zc + i) = Some (old + Rpower 10 e * dt_yr)).
Proof.
  induction small as [| p rest IH]; intros ml zc ml' zc' Hrun.
  - cbn [for_each] in Hrun. injection Hrun as <- <-. cbn [length].
    split; [lia |]. split; [reflexivity |]. split; [reflexivity |].
    intros [| i] pos H; discriminate H.
  - cbn [for_each] in Hrun.
    destruct (small_star_step U grid mem dt_yr particles s lum (ml, zc) p)
      as [[ml1 zc1] |] eqn:Hstep; cbn [bind] in Hrun; [| discriminate].
    destruct (small_star_step_adds _ _ _ _ _ _ _ _ _ _ _ _ Hstep)
      as (ss & m & r & e & old & Hss & Hd & Hm & Hr & He & Hold & -> & ->).
    destruct (IH _ _ _ _ Hrun) as (Ez & Hlen & Hout & Hin).
    assert (Hzc : (zc < length ml)%nat)
      by (apply nth_error_Some; congruence).
    cbn [length].
    split; [lia |].
    split; [rewrite Hlen; apply replace_nth_length |].
    split.
    + intros k Hk. rewrite Hout by lia.
      apply nth_error_replace_other. lia.
    + intros [| i] pos Hi; cbn [nth_error] in Hi.
      * injection Hi as <-. rewrite Nat.add_0_r.
        exists ss, m, r, e, old.
        repeat (split; [assumption |]).
        rewrite Hout by lia. apply nth_error_replace_same. exact Hzc.
      * destruct (Hin i pos Hi)
          as (ss' & m' & r' & e' & old' & Hss' & Hd' & Hm' & Hr' & He'
              & Hold' & Hnew').
        replace (zc + S i)%nat with (S zc + i)%nat by lia.
        exists ss', m', r', e', old'.
        repeat (split; [assumption |]).
        split; [| exact Hnew'].
        rewrite nth_error_replace_other in Hold' by lia. exact Hold'.
Qed.

(** The outer loop, when it returns: the slot of each small star has grown
    by what the bright stars take off it, one estimate per bright star. *)
Lemma bright_loop_adds (U : amuse_units) (grid : list grid_row)
    (mem : nat -> nat -> nat -> R) (dt_yr : R) (particles : list Star)
    (small : list nat) :
  forall bright acc acc',
    for_each bright (bright_star_step U grid mem dt_yr particles small) acc
      = Ok acc' ->
    length acc' = length acc /\
    (forall k, (length small <= k)%nat ->
       nth_error acc' k = nth_error acc k) /\
    forall z pos old,
      nth_error small z = Some pos -> nth_error acc z = Some old ->
      exists estimates,
        Forall2 (pair_estimate U grid particles mem z pos) bright estimates /\
        nth_error acc' z = Some (old + total_loss dt_yr estimates).
Proof.
  induction bright as [| b rest IH]; intros acc acc' Hrun.
  - cbn [for_each] in Hrun. injection Hrun as <-.
    split; [reflexivity |]. split; [reflexivity |].
    intros z pos old _ Hold. exists []. split; [constructor |].
    rewrite Hold. unfold total_loss. cbn [map fold_right]. f_equal. lra.
  - cbn [for_each] in Hrun. unfold bright_star_step at 1 in Hrun.
    destruct (getitem particles b) as [s |] eqn:Hs; cbn [bind] in Hrun;
      [| discriminate].
    destruct (for_each small
                (small_star_step U grid (mem b) dt_yr particles s
                   (luminosity_fit (stellar_mass s))) (acc, O))
      as [[acc1 z1] |] eqn:Hinner; cbn [bind fst] in Hrun; [| discriminate].
    destruct (small_loop_adds _ _ _ _ _ _ _ _ _ _ _ _ Hinner)
      as (_ & Hlen1 & Hout1 & Hin1).
    destruct (IH acc1 acc' Hrun) as (Hlen & Hout & Hrest).
    split; [congruence |]. split.
    + intros k Hk. rewrite Hout by exact Hk. apply Hout1. right.
      cbn [Nat.add]. exact Hk.
    + intros z pos old Hz Hold.
      destruct (Hin1 z pos Hz)
        as (ss & m & r & e & old0 & Hss & Hd & Hm & Hr & He & Hold0 & Hnew).
      cbn [Nat.add] in He, Hold0, Hnew.
      assert (old0 = old) by congruence. subst old0.
      destruct (Hrest z pos _ Hz Hnew) as (ests & Hall & Hfin).
      exists (e :: ests). split.
      * constructor; [| exact Hall].
        exists s, ss, m, r.
        split; [apply getitem_nth_error; exact Hs |].
        repeat (split; [assumption |]). exact He.
      * rewrite Hfin. unfold total_loss. cbn [map fold_right]. f_equal. lra.
Qed.

(** With a time step that is not negative no slot is lowered. *)
Lemma bright_loop_le (U : amuse_units) (grid : list grid_row)
    (mem : nat -> nat -> nat -> R) (dt_yr : R) (particles : list Star)
    (small bright : list nat) (acc acc' : list R) :
  0 <= dt_yr ->
  for_each bright (bright_star_step U grid mem dt_yr particles small) acc
    = Ok acc' ->
  slots_le acc acc'.
Proof.
  intros Hdt Hrun.
  destruct (bright_loop_adds _ _ _ _ _ _ _ _ _ Hrun) as (Hlen & Hout & Hin).
  apply Forall2_pointwise; [congruence |].
  intros k u v Hu Hv.
  destruct (nth_error small k) as [pos |] eqn:Hk.
  - destruct (Hin k pos u Hk Hu) as (ests & _ & Hnew).
    assert (v = u + total_loss dt_yr ests) by congruence. subst v.
    pose proof (total_loss_nonneg dt_yr ests Hdt). lra.
  - apply nth_error_None in Hk. rewrite (Hout k Hk) in Hv.
    assert (v = u) by congruence. subst v. lra.
Qed.

Section Pair_loop.

Variable U : amuse_units.
Variable grid : list grid_row.
Hypothesis grid_has_rows : grid <> [].

(** One pair at a non-zero distance: the body returns. *)
Lemma small_star_step_ok (mem : nat -> nat -> R) (dt_yr : R)
    (particles : list Star) (s : Star) (lum : R) (mass_loss : list R)
    (zc pos : nat) (ss : Star) :
  nth_error particles pos = Some ss ->
  has_disk ss ->
  distance s ss <> 0 ->
  (zc < length mass_loss)%nat ->
  exists mass_loss',
    small_star_step U grid mem dt_yr particles s lum (mass_loss, zc) pos =
    Ok (mass_loss', S zc) /\
    length mass_loss' = length mass_loss.
Proof.
  intros Hpos [[m Hm] [r Hr]] Hd Hz.
  destruct (photoevap_Mdot_returns (mem zc) grid (pair_query U lum s ss m r)
              grid_has_rows) as (photoevap & Hp).
  destruct (getitem_ok mass_loss zc Hz) as (old & Hget & Hold).
  exists (replace_nth mass_loss zc
            (old + mass_loss_increment photoevap dt_yr)).
  split; [| apply replace_nth_length].
  unfold small_star_step.
  replace (getitem particles pos) with (Ok ss)
    by (symmetry; apply getitem_nth_error; exact Hpos).
  cbn [bind]. rewrite Hm, Hr. cbn [bind attribute].
  rewrite (flux_at_distance _ _ Hd). cbn [photoevap_Mdot_at].
  fold (pair_query U lum s ss m r). rewrite Hp. cbn [bind].
  rewrite Hget. cbn [bind].
  unfold setitem.
  replace (zc <? length mass_loss)%nat with true
    by (symmetry; apply Nat.ltb_lt; exact Hz).
  reflexivity.
Qed.

(** The inner loop returns when no small star is at the place of the
    bright star. *)
Lemma small_loop_ok (mem : nat -> nat -> R) (dt_yr : R)
    (particles : list Star) (s : Star) (lum : R) :
  forall small mass_loss zc,
    (forall pos, In pos small ->
       exists ss, nth_error particles pos = Some ss /\ has_disk ss /\
                  distance s ss <> 0) ->
    (zc + length small <= length mass_loss)%nat ->
    exists mass_loss',
      for_each small (small_star_step U grid mem dt_yr particles s lum)
        (mass_loss, zc) = Ok (mass_loss', (zc + length small)%nat).
Proof.
  induction small as [| pos rest IH]; intros mass_loss zc Hdisk Hlen.
  - exists mass_loss. cbn [for_each length]. rewrite Nat.add_0_r.
    reflexivity.
  - cbn [length] in Hlen.
    destruct (Hdisk pos (or_introl eq_refl)) as (ss & Hss & Hd & Hfar).
    destruct (small_star_step_ok mem dt_yr particles s lum mass_loss zc pos ss
                Hss Hd Hfar) as (next & Hstep & Hnext); [lia |].
    destruct (IH next (S zc)) as (mass_loss' & Hrun).
    { intros p Hp. apply Hdisk. right. exact Hp. }
    { rewrite Hnext. lia. }
    exists mass_loss'.
    cbn [for_each]. rewrite Hstep. cbn [bind]. rewrite Hrun.
    cbn [length]. f_equal. f_equal. lia.
Qed.

(** The outer loop returns when no small star is at the place of a bright
    star. *)
Lemma bright_loop_ok (mem : nat -> nat -> nat -> R) (dt_yr : R)
    (particles : list Star) (small : list nat) :
  (forall pos, In pos small ->
     exists ss, nth_error particles pos = Some ss /\ has_disk ss) ->
  forall bright mass_loss,
    (forall pos, In pos bright -> (pos < length particles)%nat) ->
    apart bright small particles ->
    length mass_loss = length small ->
    exists mass_loss',
      for_each bright (bright_star_step U grid mem dt_yr particles small)
        mass_loss = Ok mass_loss'.
Proof.
  intros Hdisk.
  induction bright as [| pos rest IH]; intros mass_loss Hrange Hfar Hlen.
  - exists mass_loss. reflexivity.
  - destruct (getitem_ok particles pos (Hrange pos (or_introl eq_refl)))
      as (s & Hs & Hs').
    destruct (small_loop_ok (mem pos) dt_yr particles s
                (luminosity_fit (stellar_mass s)) small mass_loss O)
      as (next & Hrun); [| simpl; lia |].
    { intros p Hp. destruct (Hdisk p Hp) as (ss & Hss & Hd).
      exists ss. split; [exact Hss |]. split; [exact Hd |].
      apply (Hfar pos p s ss);
        [left; reflexivity | exact Hp | exact Hs' | exact Hss]. }
    destruct (small_loop_adds _ _ _ _ _ _ _ _ _ _ _ _ Hrun)
      as (_ & Hlen1 & _).
    destruct (IH next) as (mass_loss' & Hrun').
    { intros p Hp. apply Hrange. right. exact Hp. }
    { intros b p sb sp Hb Hp Hsb Hsp.
      apply (Hfar b p sb sp);
        [right; exact Hb | exact Hp | exact Hsb | exact Hsp]. }
    { congruence. }
    exists mass_loss'.
    cbn [for_each]. unfold bright_star_step at 1. rewrite Hs. cbn [bind].
    rewrite Hrun. cbn [bind fst]. exact Hrun'.
Qed.

End Pair_loop.

(** ** The time loop *)

Lemma has_disk_set_position (xyz : R * R * R) (s : Star) :
  has_disk s -> has_disk (set_position xyz s).
Proof. destruct xyz as [[px py] pz]. intros H. exact H. Qed.

Lemma copy_positions_nth (xyz : nat -> R * R * R) (particles : list Star)
    (i : nat) :
  nth_error (copy_positions xyz particles) i =
  option_map (set_position (xyz i)) (nth_error particles i).
Proof. unfold copy_positions. rewrite nth_error_map_at_from. reflexivity. Qed.

Lemma copy_positions_length (xyz : nat -> R * R * R) (particles : list Star) :
  length (copy_positions xyz particles) = length particles.
Proof. apply length_map_at_from. Qed.

Lemma distance_set_position (p q : R * R * R) (s s' ss ss' : Star) :
  distance (set_position p s) (set_position q ss) =
  distance (set_position p s') (set_position q ss').
Proof. destruct p as [[px py] pz]. destruct q as [[qx qy] qz]. reflexivity. Qed.

(** Whether the stars are apart after the positions have been copied from
    the gravity code depends on these positions only. *)
Lemma apart_copy_positions (bright small : list nat)
    (xyz : nat -> R * R * R) (a b : list Star) :
  length a = length b ->
  apart bright small (copy_positions xyz a) ->
  apart bright small (copy_positions xyz b).
Proof.
  intros Hlen Ha b0 pos s ss Hb Hpos Hs Hss.
  rewrite copy_positions_nth in Hs, Hss.
  destruct (nth_error b b0) as [sb |] eqn:E1; [| discriminate Hs].
  destruct (nth_error b pos) as [sp |] eqn:E2; [| discriminate Hss].
  cbn [option_map] in Hs, Hss. injection Hs as <-. injection Hss as <-.
  destruct (nth_error a b0) as [sa |] eqn:F1.
  2: { apply nth_error_None in F1.
       assert ((b0 < length b)%nat) by (apply nth_error_Some; congruence).
       lia. }
  destruct (nth_error a pos) as [spa |] eqn:F2.
  2: { apply nth_error_None in F2.
       assert ((pos < length b)%nat) by (apply nth_error_Some; congruence).
       lia. }
  rewrite (distance_set_position (xyz b0) (xyz pos) sb sa sp spa).
  apply (Ha b0 pos); try assumption;
    rewrite copy_positions_nth; [rewrite F1 | rewrite F2]; reflexivity.
Qed.

(** The disk assignments move no star. *)
Lemma apart_assign_disks (bright small : list nat) (particles : list Star) :
  apart bright small particles ->
  apart bright small (assign_disks particles).
Proof.
  intros Ha b pos s ss Hb Hpos Hs Hss.
  destruct (assign_disks_position particles b s Hs)
    as (s0 & Hs0 & Ex & Ey & Ez & _).
  destruct (assign_disks_position particles pos ss Hss)
    as (ss0 & Hss0 & Fx & Fy & Fz & _).
  unfold distance. rewrite Ex, Ey, Ez, Fx, Fy, Fz.
  apply (Ha b pos s0 ss0); assumption.
Qed.

Lemma initial_state_fits (W : collaborators) (particles : list Star) :
  fits particles (initial_state W particles).
Proof.
  unfold fits, initial_state. cbn [stars time_total_mass_loss].
  split; [apply assign_disks_length |].
  split; [apply assign_disks_small | apply repeat_length].
Qed.

(** What a pass that returns does to the clock, the stars and the
    accumulator. *)
Lemma loop_body_inv (U : amuse_units) (W : collaborators)
    (grid : list grid_row) (t_end : R) (bright small : list nat)
    (st st' : loop_state) :
  loop_body U W grid t_end bright small st = Ok st' ->
  time st' = time st + Rmin (dt st) (t_end - time st) /\
  dt st' = Rmin (dt st) (t_end - time st) /\
  stars st' = copy_positions (gravity_xyz W (iteration st)) (stars st) /\
  iteration st' = S (iteration st).
Proof.
  unfold loop_body.
  destruct (for_each bright _ (time_total_mass_loss st)) as [mass_loss | e];
    cbn [bind]; [| discriminate].
  intros H. injection H as <-. repeat split.
Qed.

Lemma loop_body_accumulates (U : amuse_units) (W : collaborators)
    (grid : list grid_row) (t_end : R) (bright small : list nat)
    (st st' : loop_state) :
  loop_body U W grid t_end bright small st = Ok st' ->
  for_each bright
    (bright_star_step U grid (fresh_memory W (iteration st))
       (Rmin (dt st) (t_end - time st)) (stars st) small)
    (time_total_mass_loss st) = Ok (time_total_mass_loss st').
Proof.
  unfold loop_body.
  destruct (for_each bright _ (time_total_mass_loss st)) as [mass_loss | e];
    cbn [bind]; [| discriminate].
  intros H. injection H as <-. reflexivity.
Qed.

(** A pass that returns keeps the state fit for the run. *)
Lemma loop_body_fits (U : amuse_units) (W : collaborators)
    (grid : list grid_row) (t_end : R) (particles : list Star)
    (st st' : loop_state) :
  fits particles st ->
  loop_body U W grid t_end (bright_stars particles) (small_stars particles) st
    = Ok st' ->
  fits particles st'.
Proof.
  intros (Hlen & Hdisk & Hacc) Hbody.
  destruct (loop_body_inv _ _ _ _ _ _ _ _ Hbody) as (_ & _ & Es & _).
  pose proof (loop_body_accumulates _ _ _ _ _ _ _ _ Hbody) as Hfor.
  destruct (bright_loop_adds _ _ _ _ _ _ _ _ _ Hfor) as (Hlen' & _).
  unfold fits. rewrite Es.
  split; [rewrite copy_positions_length; exact Hlen |].
  split; [| congruence].
  intros pos Hpos. destruct (Hdisk pos Hpos) as (s & Hs & Hd).
  exists (set_position (gravity_xyz W (iteration st) pos) s).
  rewrite copy_positions_nth, Hs.
  split; [reflexivity | apply has_disk_set_position; exact Hd].
Qed.

Lemma while_loop_invariant (U : amuse_units) (W : collaborators)
    (grid : list grid_row) (t_end : R) (bright small : list nat)
    (P : loop_state -> Prop) :
  (forall st st', P st -> time st < t_end ->
     loop_body U W grid t_end bright small st = Ok st' -> P st') ->
  forall n st st',
    P st -> while_loop n U W grid t_end bright small st = Ok st' -> P st'.
Proof.
  intros Hstep. induction n as [| n IH]; intros st st' HP Hrun.
  - simpl in Hrun. injection Hrun as <-. exact HP.
  - cbn [while_loop] in Hrun.
    destruct (Rlt_dec (time st) t_end) as [Hlt | Hge].
    + rewrite Rltb_true in Hrun by exact Hlt.
      destruct (loop_body U W grid t_end bright small st) as [st1 | e] eqn:Hb;
        cbn [bind] in Hrun; [| discriminate].
      apply (IH st1 st'); [| exact Hrun]. eapply Hstep; eauto.
    + rewrite Rltb_false in Hrun by lra. injection Hrun as <-. exact HP.
Qed.

Lemma while_loop_done (n : nat) (U : amuse_units) (W : collaborators)
    (grid : list grid_row) (t_end : R) (bright small : list nat)
    (st : loop_state) :
  t_end <= time st ->
  while_loop n U W grid t_end bright small st = Ok st.
Proof.
  intros H. destruct n; simpl; [reflexivity |].
  rewrite Rltb_false by exact H. reflexivity.
Qed.

(** [n + k] passes are [n] passes followed by [k] more. *)
Lemma while_loop_add (U : amuse_units) (W : collaborators)
    (grid : list grid_row) (t_end : R) (bright small : list nat)
    (n k : nat) : forall st,
  while_loop (n + k) U W grid t_end bright small st =
  bind (while_loop n U W grid t_end bright small st)
       (while_loop k U W grid t_end bright small).
Proof.
  induction n as [| n IH]; intros st; [reflexivity |].
  cbn [Nat.add while_loop].
  destruct (Rlt_dec (time st) t_end) as [Hlt | Hge].
  - rewrite Rltb_true by exact Hlt.
    destruct (loop_body U W grid t_end bright small st) as [st1 | e];
      cbn [bind]; [apply IH | reflexivity].
  - rewrite Rltb_false by lra. cbn [bind]. symmetry.
    apply while_loop_done. lra.
Qed.

(** One more pass, for a state the clock of which has not reached
    [t_end]. *)
Lemma while_loop_next (U : amuse_units) (W : collaborators)
    (grid : list grid_row) (t_end : R) (bright small : list nat)
    (n : nat) (st0 st : loop_state) :
  while_loop n U W grid t_end bright small st0 = Ok st ->
  time st < t_end ->
  while_loop (S n) U W grid t_end bright small st0 =
  loop_body U W grid t_end bright small st.
Proof.
  intros Hrun Hlt. replace (S n) with (n + 1)%nat by lia.
  rewrite while_loop_add, Hrun. cbn [bind while_loop].
  rewrite Rltb_true by exact Hlt.
  destruct (loop_body U W grid t_end bright small st); reflexivity.
Qed.

(** The grid file is read before the loop: with two data lines or more the
    loop runs on these lines, with fewer [main] raises [IndexError]. *)
Lemma main_loop_loaded (n : nat) (U : amuse_units) (W : collaborators)
    (grid : list grid_row) (t_end : R) (particles : list Star) :
  (2 <= length grid)%nat ->
  main_loop n U W grid t_end particles =
  while_loop n U W grid t_end (bright_stars particles)
    (small_stars particles) (initial_state W particles).
Proof.
  intros H. unfold main_loop.
  destruct grid as [| r [| r' rest]]; cbn [length] in H; try lia.
  reflexivity.
Qed.

Lemma main_loop_not_loaded (n : nat) (U : amuse_units) (W : collaborators)
    (grid : list grid_row) (t_end : R) (particles : list Star) :
  (length grid < 2)%nat ->
  main_loop n U W grid t_end particles = Raise IndexError.
Proof.
  intros H. unfold main_loop.
  destruct grid as [| r [| r' rest]]; cbn [length] in H; try lia;
    reflexivity.
Qed.

Lemma main_loop_inv (n : nat) (U : amuse_units) (W : collaborators)
    (grid : list grid_row) (t_end : R) (particles : list Star)
    (st : loop_state) :
  main_loop n U W grid t_end particles = Ok st ->
  (2 <= length grid)%nat /\
  while_loop n U W grid t_end (bright_stars particles)
    (small_stars particles) (initial_state W particles) = Ok st.
Proof.
  intros H. destruct (le_lt_dec 2 (length grid)) as [Hle | Hlt].
  - split; [exact Hle |]. rewrite <- H. symmetry.
    apply main_loop_loaded. exact Hle.
  - rewrite main_loop_not_loaded in H by exact Hlt. discriminate H.
Qed.

Lemma two_rows_nonempty (grid : list grid_row) :
  (2 <= length grid)%nat -> grid <> [].
Proof. intros H E. rewrite E in H. simpl in H. lia. Qed.

(** A property that holds on entry to the loop and is kept by every pass
    that returns holds after every run that returns. *)
Lemma main_loop_invariant (U : amuse_units) (W : collaborators)
    (grid : list grid_row) (t_end : R) (particles : list Star)
    (P : loop_state -> Prop) :
  P (initial_state W particles) ->
  (forall st st', P st -> time st < t_end ->
     loop_body U W grid t_end (bright_stars particles)
       (small_stars particles) st = Ok st' -> P st') ->
  forall n st, main_loop n U W grid t_end particles = Ok st -> P st.
Proof.
  intros H0 Hstep n st Hrun.
  destruct (main_loop_inv _ _ _ _ _ _ _ Hrun) as (_ & Hloop).
  exact (while_loop_invariant U W grid t_end _ _ P Hstep n _ st H0 Hloop).
Qed.

Lemma main_loop_fits (n : nat) (U : amuse_units) (W : collaborators)
    (grid : list grid_row) (t_end : R) (particles : list Star)
    (st : loop_state) :
  main_loop n U W grid t_end particles = Ok st -> fits particles st.
Proof.
  apply (main_loop_invariant U W grid t_end particles (fits particles)).
  - apply initial_state_fits.
  - intros s s' Hf _ Hb. exact (loop_body_fits _ _ _ _ _ _ _ Hf Hb).
Qed.

(** With a positive time step on entry, the step stays positive and the
    accumulator never has a negative slot. *)
Lemma main_loop_grows (n : nat) (U : amuse_units) (W : collaborators)
    (grid : list grid_row) (t_end : R) (particles : list Star)
    (st : loop_state) :
  0 < time_step_amin W ->
  main_loop n U W grid t_end particles = Ok st ->
  0 < dt st /\ Forall (fun u => 0 <= u) (time_total_mass_loss st).
Proof.
  intros Hstep.
  apply (main_loop_invariant U W grid t_end particles
           (fun s => 0 < dt s /\
                     Forall (fun u => 0 <= u) (time_total_mass_loss s))).
  - cbn [dt time_total_mass_loss initial_state].
    split; [exact Hstep | apply zeros_nonneg].
  - intros s s' [Hd Hn] Hlt Hb.
    destruct (loop_body_inv _ _ _ _ _ _ _ _ Hb) as (_ & Ed & _).
    assert (Hd' : 0 < Rmin (dt s) (t_end - time s))
      by (apply Rmin_glb_lt; lra).
    split; [rewrite Ed; exact Hd' |].
    apply slots_le_nonneg with (time_total_mass_loss s); [exact Hn |].
    apply (bright_loop_le _ _ _ _ _ _ _ _ _ (Rlt_le _ _ Hd')
             (loop_body_accumulates _ _ _ _ _ _ _ _ Hb)).
Qed.

Section Time_loop.

Variable U : amuse_units.
Variable W : collaborators.
Variable grid : list grid_row.
Variable t_end : R.
Variable particles : list Star.
Hypothesis grid_has_rows : grid <> [].
Hypothesis stars_never_meet : never_meet W particles.

Let bright := bright_stars particles.
Let small := small_stars particles.

(** A state from which the next pass returns. *)
Let ready (st : loop_state) : Prop :=
  fits particles st /\ apart bright small (stars st).

Lemma initial_state_ready : ready (initial_state W particles).
Proof.
  split; [apply initial_state_fits |].
  cbn [stars initial_state]. apply apart_assign_disks.
  apply stars_never_meet.
Qed.

Lemma loop_body_ok (st : loop_state) :
  ready st ->
  exists st',
    loop_body U W grid t_end bright small st = Ok st' /\ ready st'.
Proof.
  intros [Hfits Hfar]. pose proof Hfits as (Hlen & Hdisk & Hacc).
  destruct (bright_loop_ok U grid grid_has_rows
              (fresh_memory W (iteration st))
              (Rmin (dt st) (t_end - time st)) (stars st) small Hdisk
              bright (time_total_mass_loss st))
    as (mass_loss & Hrun).
  { intros pos Hpos. apply bright_stars_In in Hpos.
    destruct Hpos as (s & Hs & _). rewrite Hlen.
    apply nth_error_Some. congruence. }
  { exact Hfar. }
  { exact Hacc. }
  eexists. split.
  { unfold loop_body. rewrite Hrun. cbn [bind]. reflexivity. }
  split.
  - apply (loop_body_fits U W grid t_end particles st); [exact Hfits |].
    unfold loop_body. fold bright small. rewrite Hrun. reflexivity.
  - cbn [stars].
    apply apart_copy_positions with (a := particles); [congruence |].
    apply stars_never_meet.
Qed.

Lemma while_loop_ok (n : nat) : forall st,
  ready st ->
  exists st',
    while_loop n U W grid t_end bright small st = Ok st' /\ ready st'.
Proof.
  induction n as [| n IH]; intros st Hready.
  - exists st. split; [reflexivity | exact Hready].
  - cbn [while_loop]. destruct (Rlt_dec (time st) t_end) as [Hlt | Hge].
    + rewrite Rltb_true by exact Hlt.
      destruct (loop_body_ok st Hready) as (st1 & Hbody & Hready1).
      destruct (IH st1 Hready1) as (st' & Hrun & Hready').
      exists st'. rewrite Hbody. cbn [bind]. split; assumption.
    + rewrite Rltb_false by lra.
      exists st. split; [reflexivity | exact Hready].
Qed.

End Time_loop.

(** The loop returns after any number of passes when the grid file has two
    data lines or more and no small star is ever at the place of a bright
    star; the state it returns is ready for a further pass. *)
Lemma main_loop_returns (U : amuse_units) (W : collaborators)
    (grid : list grid_row) (t_end : R) (particles : list Star) (n : nat) :
  (2 <= length grid)%nat ->
  never_meet W particles ->
  exists st,
    main_loop n U W grid t_end particles = Ok st /\
    apart (bright_stars particles) (small_stars particles) (stars st).
Proof.
  intros Hgrid Hmeet.
  destruct (while_loop_ok U W grid t_end particles
              (two_rows_nonempty grid Hgrid) Hmeet n
              (initial_state W particles)
              (initial_state_ready W particles Hmeet))
    as (st & Hrun & _ & Hfar).
  exists st. split; [| exact Hfar].
  rewrite main_loop_loaded by exact Hgrid. exact Hrun.
Qed.

(** Later passes lower no slot. *)
Lemma main_loop_more (U : amuse_units) (W : collaborators)
    (grid : list grid_row) (t_end : R) (particles : list Star)
    (n k : nat) (st st' : loop_state) :
  0 < time_step_amin W ->
  main_loop n U W grid t_end particles = Ok st ->
  main_loop (n + k) U W grid t_end particles = Ok st' ->
  slots_le (time_total_mass_loss st) (time_total_mass_loss st').
Proof.
  intros Hstep Hrun Hrun'.
  destruct (main_loop_grows _ _ _ _ _ _ _ Hstep Hrun) as [Hdt _].
  destruct (main_loop_inv _ _ _ _ _ _ _ Hrun) as (_ & Hloop).
  destruct (main_loop_inv _ _ _ _ _ _ _ Hrun') as (_ & Hloop').
  rewrite while_loop_add, Hloop in Hloop'. cbn [bind] in Hloop'.
  apply (while_loop_invariant U W grid t_end (bright_stars particles)
           (small_stars particles)
           (fun s => 0 < dt s /\
                     slots_le (time_total_mass_loss st)
                       (time_total_mass_loss s)))
    with (n := k) (st := st); [| | exact Hloop'].
  - intros s s' [Hd Hle] Hlt Hb.
    destruct (loop_body_inv _ _ _ _ _ _ _ _ Hb) as (_ & Ed & _).
    assert (Hd' : 0 < Rmin (dt s) (t_end - time s))
      by (apply Rmin_glb_lt; lra).
    split; [rewrite Ed; exact Hd' |].
    apply slots_le_trans with (time_total_mass_loss s); [exact Hle |].
    apply (bright_loop_le _ _ _ _ _ _ _ _ _ (Rlt_le _ _ Hd')
             (loop_body_accumulates _ _ _ _ _ _ _ _ Hb)).
  - split; [exact Hdt | apply slots_le_refl].
Qed.

(** What a pass adds to the slot of a small star. *)
Lemma loop_body_adds (U : amuse_units) (W : collaborators)
    (grid : list grid_row) (t_end : R) (bright small : list nat)
    (st st' : loop_state) (z pos : nat) (old : R) :
  loop_body U W grid t_end bright small st = Ok st' ->
  nth_error small z = Some pos ->
  nth_error (time_total_mass_loss st) z = Some old ->
  exists estimates,
    Forall2
      (pair_estimate U grid (stars st) (fresh_memory W (iteration st)) z pos)
      bright estimates /\
    nth_error (time_total_mass_loss st') z =
      Some (old + total_loss (dt st') estimates).
Proof.
  intros Hbody Hz Hold.
  destruct (loop_body_inv _ _ _ _ _ _ _ _ Hbody) as (_ & Ed & _).
  pose proof (loop_body_accumulates _ _ _ _ _ _ _ _ Hbody) as Hfor.
  destruct (bright_loop_adds _ _ _ _ _ _ _ _ _ Hfor) as (_ & _ & Hin).
  rewrite Ed. exact (Hin z pos old Hz Hold).
Qed.

Example sample_cluster_populations :
  bright_stars sample_cluster = [0; 4]%nat /\
  small_stars sample_cluster = [1; 3]%nat.
Proof.
  unfold bright_stars, small_stars, sample_cluster. run_arrays. auto.
Qed.

Lemma distance_zero (s ss : Star) :
  distance s ss = 0 -> x ss = x s /\ y ss = y s /\ z ss = z s.
Proof.
  unfold distance. intros H.
  pose proof (pow2_ge_0 (x ss - x s)). pose proof (pow2_ge_0 (y ss - y s)).
  pose proof (pow2_ge_0 (z ss - z s)).
  apply sqrt_eq_0 in H; [| lra].
  assert (Hx : (x ss - x s) ^ 2 = 0) by lra.
  assert (Hy : (y ss - y s) ^ 2 = 0) by lra.
  assert (Hz : (z ss - z s) ^ 2 = 0) by lra.
  apply square_zero in Hx. apply square_zero in Hy. apply square_zero in Hz.
  lra.
Qed.

(** In the sample cluster no small star is at the place of a bright star,
    and the gravity code of the sample keeps the particles on a line, each
    at its own place. *)
Lemma sample_cluster_never_meet :
  never_meet sample_collaborators sample_cluster.
Proof.
  destruct sample_cluster_populations as [Eb Es].
  assert (Hpow : 0 < 10 ^ 16) by (apply pow_lt; lra).
  unfold never_meet. rewrite Eb, Es. split.
  - intros b pos s ss Hb Hpos Hs Hss Hd.
    apply distance_zero in Hd. destruct Hd as (Hx & Hy & Hz).
    cbn [In] in Hb, Hpos.
    destruct Hb as [<- | [<- | []]]; destruct Hpos as [<- | [<- | []]];
      cbn [nth_error sample_cluster] in Hs, Hss;
      injection Hs as <-; injection Hss as <-;
      cbn [x y z] in Hx, Hy, Hz; lra.
  - intros it b pos s ss Hb Hpos Hs Hss Hd.
    apply distance_zero in Hd. destruct Hd as (Hx & _).
    rewrite copy_positions_nth in Hs, Hss.
    cbn [In] in Hb, Hpos.
    destruct Hb as [<- | [<- | []]]; destruct Hpos as [<- | [<- | []]];
      cbn [nth_error sample_cluster option_map gravity_xyz
           sample_collaborators set_position] in Hs, Hss;
      injection Hs as <-; injection Hss as <-;
      cbn [x INR] in Hx; lra.
Qed.

Lemma sample_cluster_has_bright : bright_stars sample_cluster <> [].
Proof.
  destruct sample_cluster_populations as [Eb _]. rewrite Eb. discriminate.
Qed.

(** C10: with a positive time step, the accumulator array is an array of
    zeros, one slot per small star, when the loop is entered; after any
    number of passes that return, [dt > 0], no slot is negative, and no slot
    is lower than it was after fewer passes.  A further pass, as long as the
    clock has not reached [t_end], runs every pair of a bright and a small
    star: the slot of the small star grows by the sum, over the bright
    stars, of [10 ^ e * dt], where [e] is the estimate the estimator returns
    for the query of that pair and [dt] the time step of the pass; each of
    these increments is strictly positive, and so is their sum when there is
    a bright star.  The passes do return on a grid file with two data lines
    or more, for a cluster with a bright star none of whose small stars is
    ever at the place of a bright star. *)
Theorem mass_loss_only_grows (U : amuse_units) (W : collaborators)
    (grid : list grid_row) (t_end : R) (particles : list Star) :
  0 < time_step_amin W ->
  (forall n st,
     main_loop n U W grid t_end particles = Ok st ->
     (n = O ->
      time_total_mass_loss st = repeat 0 (length (small_stars particles))) /\
     0 < dt st /\
     length (time_total_mass_loss st) = length (small_stars particles) /\
     Forall (fun u => 0 <= u) (time_total_mass_loss st) /\
     (forall k st',
        main_loop (n + k) U W grid t_end particles = Ok st' ->
        slots_le (time_total_mass_loss st) (time_total_mass_loss st')) /\
     (forall st',
        time st < t_end ->
        main_loop (S n) U W grid t_end particles = Ok st' ->
        dt st' = Rmin (dt st) (t_end - time st) /\
        0 < dt st' /\
        forall z pos old,
          nth_error (small_stars particles) z = Some pos ->
          nth_error (time_total_mass_loss st) z = Some old ->
          exists estimates,
            Forall2
              (pair_estimate U grid (stars st)
                 (fresh_memory W (iteration st)) z pos)
              (bright_stars particles) estimates /\
            Forall (fun e => 0 < Rpower 10 e * dt st') estimates /\
            (bright_stars particles <> [] ->
             0 < total_loss (dt st') estimates) /\
            nth_error (time_total_mass_loss st') z =
              Some (old + total_loss (dt st') estimates))) /\
  ((2 <= length grid)%nat ->
   bright_stars particles <> [] ->
   never_meet W particles ->
   forall n, exists st, main_loop n U W grid t_end particles = Ok st).
Proof.
  intros Hstep. split.
  2: { intros Hgrid _ Hmeet n.
       destruct (main_loop_returns U W grid t_end particles n Hgrid Hmeet)
         as (st & Hrun & _).
       exists st. exact Hrun. }
  intros n st Hrun.
  destruct (main_loop_grows _ _ _ _ _ _ _ Hstep Hrun) as [Hdt Hnonneg].
  destruct (main_loop_inv _ _ _ _ _ _ _ Hrun) as (Hgrid & Hloop).
  split.
  { intros ->. cbn [while_loop] in Hloop. injection Hloop as <-.
    reflexivity. }
  split; [exact Hdt |].
  split; [apply (main_loop_fits _ _ _ _ _ _ _ Hrun) |].
  split; [exact Hnonneg |]. split.
  - intros k st' Hrun'.
    exact (main_loop_more _ _ _ _ _ _ _ _ _ Hstep Hrun Hrun').
  - intros st' Hlt Hrun'.
    pose proof Hrun' as Hbody.
    rewrite main_loop_loaded in Hbody by exact Hgrid.
    rewrite (while_loop_next _ _ _ _ _ _ _ _ _ Hloop Hlt) in Hbody.
    destruct (loop_body_inv _ _ _ _ _ _ _ _ Hbody) as (_ & Ed & _).
    assert (Hdt' : 0 < dt st')
      by (rewrite Ed; apply Rmin_glb_lt; lra).
    split; [exact Ed |]. split; [exact Hdt' |].
    intros z pos old Hz Hold.
    destruct (loop_body_adds _ _ _ _ _ _ _ _ z pos old Hbody Hz Hold)
      as (estimates & Hall & Hnew).
    exists estimates. split; [exact Hall |]. split.
    + apply Forall_forall. intros e _.
      apply Rmult_lt_0_compat; [unfold Rpower; apply exp_pos | exact Hdt'].
    + split; [| exact Hnew].
      intros Hbright. apply total_loss_pos; [exact Hdt' |].
      intros E. rewrite E in Hall. inversion Hall. congruence.
Qed.

Lemma mass_loss_only_grows_witness :
  0 < time_step_amin sample_collaborators /\
  forall n, exists st,
    main_loop n sample_units sample_collaborators two_row_grid 6000
      sample_cluster = Ok st /\
    0 < dt st /\
    length (time_total_mass_loss st) = length (small_stars sample_cluster) /\
    Forall (fun u => 0 <= u) (time_total_mass_loss st).
Proof.
  assert (Hstep : 0 < time_step_amin sample_collaborators) by (simpl; lra).
  split; [exact Hstep |].
  destruct (mass_loss_only_grows sample_units sample_collaborators
              two_row_grid 6000 sample_cluster Hstep) as [Hinv Hret].
  intros n.
  destruct (Hret ltac:(simpl; lia) sample_cluster_has_bright
              sample_cluster_never_meet n) as (st & Hrun).
  destruct (Hinv n st Hrun) as (_ & Hdt & Hlen & Hnonneg & _).
  exists st. split; [exact Hrun |]. split; [exact Hdt |].
  split; [exact Hlen | exact Hnonneg].
Defined.

(** ** A particle outside both populations has no influence on the run *)

Lemma select_from_same_mask (mask : Star -> bool) (a : list Star) :
  forall b k0,
    length a = length b ->
    (forall j, option_map mask (nth_error a j) = option_map mask (nth_error b j)) ->
    select_from k0 mask a = select_from k0 mask b.
Proof.
  induction a as [| u a IH]; intros [| v b] k0 Hlen Hmask;
    try discriminate Hlen; [reflexivity |].
  simpl. pose proof (Hmask O) as H0. simpl in H0. injection H0 as H0.
  rewrite H0.
  rewrite (IH b (S k0)).
  - reflexivity.
  - simpl in Hlen. lia.
  - intros j. apply (Hmask (S j)).
Qed.

Lemma for_each_same_body {A S : Type} (body body' : S -> A -> result S)
    (items : list A) :
  (forall s a, In a items -> body s a = body' s a) ->
  forall s, for_each items body s = for_each items body' s.
Proof.
  induction items as [| a rest IH]; intros Hsame s; [reflexivity |].
  simpl. rewrite (Hsame s a (or_introl eq_refl)).
  destruct (body' s a) as [s' | e]; cbn [bind]; [| reflexivity].
  apply IH. intros s0 a0 H0. apply Hsame. right. exact H0.
Qed.

Lemma small_star_step_same (U : amuse_units) (grid : list grid_row)
    (mem : nat -> nat -> R) (dt_yr : R) (a b : list Star) (s : Star)
    (lum : R) (st : list R * nat) (pos : nat) :
  nth_error a pos = nth_error b pos ->
  small_star_step U grid mem dt_yr a s lum st pos =
  small_star_step U grid mem dt_yr b s lum st pos.
Proof.
  intros H. unfold small_star_step, getitem. rewrite H. reflexivity.
Qed.

Lemma bright_star_step_same (U : amuse_units) (grid : list grid_row)
    (mem : nat -> nat -> nat -> R) (dt_yr : R) (a b : list Star)
    (small : list nat) (mass_loss : list R) (pos : nat) :
  nth_error a pos = nth_error b pos ->
  (forall p, In p small -> nth_error a p = nth_error b p) ->
  bright_star_step U grid mem dt_yr a small mass_loss pos =
  bright_star_step U grid mem dt_yr b small mass_loss pos.
Proof.
  intros Hpos Hsmall. unfold bright_star_step, getitem. rewrite Hpos.
  destruct (nth_error b pos) as [s |]; cbn [bind]; [| reflexivity].
  rewrite (for_each_same_body
             (small_star_step U grid (mem pos) dt_yr a s
                (luminosity_fit (stellar_mass s)))
             (small_star_step U grid (mem pos) dt_yr b s
                (luminosity_fit (stellar_mass s)))).
  - reflexivity.
  - intros st p Hp. apply small_star_step_same. apply Hsmall. exact Hp.
Qed.

Lemma copy_positions_same_off (k : nat) (xyz xyz' : nat -> R * R * R)
    (a b : list Star) :
  (forall j, j <> k -> xyz' j = xyz j) ->
  same_off k a b ->
  same_off k (copy_positions xyz a) (copy_positions xyz' b).
Proof.
  intros Hxyz [Hlen Hnth]. split.
  - rewrite !copy_positions_length. exact Hlen.
  - intros j Hj. rewrite !copy_positions_nth.
    rewrite (Hnth j Hj), (Hxyz j Hj). reflexivity.
Qed.

Section Outsider.

Variable U : amuse_units.
Variable W : collaborators.
Variable xyz' : nat -> nat -> R * R * R.
Variable grid : list grid_row.
Variable t_end : R.
Variable k : nat.
Variable bright small : list nat.
Hypothesis k_not_bright : ~ In k bright.
Hypothesis k_not_small : ~ In k small.
Hypothesis xyz'_elsewhere :
  forall it j, j <> k -> xyz' it j = gravity_xyz W it j.

Let W' : collaborators :=
  mk_collaborators (time_step_amin W) xyz' (fresh_memory W).

Lemma loop_body_same_off (st st' : loop_state) :
  states_same_off k st st' ->
  runs_same_off k (loop_body U W grid t_end bright small st)
                  (loop_body U W' grid t_end bright small st').
Proof.
  intros (Ht & Hd & Hm & Hi & Hlen & Hnth). unfold loop_body.
  cbn [fresh_memory gravity_xyz W'].
  rewrite <- Ht, <- Hd, <- Hm, <- Hi.
  rewrite (for_each_same_body
             (bright_star_step U grid (fresh_memory W (iteration st))
                (Rmin (dt st) (t_end - time st)) (stars st) small)
             (bright_star_step U grid (fresh_memory W (iteration st))
                (Rmin (dt st) (t_end - time st)) (stars st') small)).
  - destruct (for_each bright _ (time_total_mass_loss st)) as [mass_loss | e];
      cbn [bind runs_same_off]; [| reflexivity].
    unfold states_same_off. cbn [time dt time_total_mass_loss iteration stars].
    repeat (split; [reflexivity |]).
    apply copy_positions_same_off.
    + intros j Hj. apply xyz'_elsewhere. exact Hj.
    + split; assumption.
  - intros mass_loss pos Hpos. apply bright_star_step_same.
    + apply Hnth. intros ->. contradiction.
    + intros p Hp. apply Hnth. intros ->. contradiction.
Qed.

Lemma while_loop_same_off (n : nat) : forall st st',
  states_same_off k st st' ->
  runs_same_off k (while_loop n U W grid t_end bright small st)
                  (while_loop n U W' grid t_end bright small st').
Proof.
  induction n as [| n IH]; intros st st' Hsame; [exact Hsame |].
  cbn [while_loop]. pose proof Hsame as (Ht & _). rewrite <- Ht.
  destruct (Rltb (time st) t_end); [| exact Hsame].
  pose proof (loop_body_same_off st st' Hsame) as Hbody.
  destruct (loop_body U W grid t_end bright small st) as [st1 | e];
    destruct (loop_body U W' grid t_end bright small st') as [st1' | e'];
    cbn [bind runs_same_off] in *; try contradiction.
  - apply IH. exact Hbody.
  - exact Hbody.
Qed.

End Outsider.

Lemma mass_1_9_outside (particles : list Star) (k : nat) (s : Star) :
  nth_error particles k = Some s -> stellar_mass s = 1.9 ->
  ~ In k (bright_stars particles) /\ ~ In k (small_stars particles).
Proof.
  intros Hk Hm. split.
  - intros H. apply bright_stars_In in H. destruct H as (s0 & Hs0 & Hlt).
    assert (s0 = s) by congruence. subst s0. lra.
  - intros H. apply small_stars_In in H. destruct H as (s0 & Hs0 & Hlt).
    assert (s0 = s) by congruence. subst s0. lra.
Qed.

Lemma populations_after_replace (particles : list Star) (k : nat)
    (s s' : Star) :
  nth_error particles k = Some s ->
  stellar_mass s = 1.9 -> stellar_mass s' = 1.9 ->
  bright_stars (replace_nth particles k s') = bright_stars particles /\
  small_stars (replace_nth particles k s') = small_stars particles.
Proof.
  intros Hk Hm Hm'.
  assert (Hklt : (k < length particles)%nat)
    by (apply nth_error_Some; congruence).
  assert (Hmask : forall mask : Star -> bool, mask s' = mask s ->
            forall j, option_map mask (nth_error (replace_nth particles k s') j)
                      = option_map mask (nth_error particles j)).
  { intros mask Hsame j. destruct (Nat.eq_dec k j) as [<- | Hne].
    - rewrite nth_error_replace_same by exact Hklt. rewrite Hk. simpl.
      rewrite Hsame. reflexivity.
    - rewrite nth_error_replace_other by exact Hne. reflexivity. }
  split; apply select_from_same_mask; try apply replace_nth_length;
    apply Hmask; rewrite Hm, Hm'; reflexivity.
Qed.

(** C8: a star of exactly 1.9 MSun is in neither population.  None of
    the four disk assignments gives it a value: it stays where it is, keeps
    its mass and the disk attributes it had, and reads 0 for a disk
    attribute it did not have, the value a new attribute is created with
    outside the view that is assigned (a small star of that mass would get
    the disk mass 0.19 and the radius [100 * sqrt 1.9]).  No slot of the
    accumulator belongs to it, and it has no influence on the run: with
    another star of 1.9 MSun in its place, anywhere, and whatever positions
    the gravity code reports for it, every pass count ends with the same
    exception or with the same time, time step and accumulated mass loss
    of every small star. *)
Theorem star_of_1_9_MSun_outside_populations (particles : list Star)
    (k : nat) (s : Star) :
  nth_error particles k = Some s ->
  stellar_mass s = 1.9 ->
  ~ In k (bright_stars particles) /\
  ~ In k (small_stars particles) /\
  (exists s0,
     nth_error (assign_disks particles) k = Some s0 /\
     x s0 = x s /\ y s0 = y s /\ z s0 = z s /\
     stellar_mass s0 = stellar_mass s /\
     disk_mass s0 = Some (or_zero (disk_mass s)) /\
     disk_radius s0 = Some (or_zero (disk_radius s))) /\
  (forall zc, nth_error (small_stars particles) zc <> Some k) /\
  forall U W grid t_end s' xyz' n,
    stellar_mass s' = 1.9 ->
    (forall it j, j <> k -> xyz' it j = gravity_xyz W it j) ->
    runs_same_off k
      (main_loop n U W grid t_end particles)
      (main_loop n U
         (mk_collaborators (time_step_amin W) xyz' (fresh_memory W))
         grid t_end (replace_nth particles k s')).
Proof.
  intros Hk Hm.
  destruct (mass_1_9_outside particles k s Hk Hm) as [Hnb Hns].
  split; [exact Hnb |]. split; [exact Hns |].
  split.
  { eexists. split; [apply (assign_disks_outside particles k s Hnb Hns Hk) |].
    cbn [x y z stellar_mass disk_mass disk_radius]. repeat split. }
  split; [intros zc Hzc; apply Hns; eapply nth_error_In; eauto |].
  intros U W grid t_end s' xyz' n Hm' Hxyz.
  destruct (populations_after_replace particles k s s' Hk Hm Hm') as [Eb Es].
  unfold main_loop.
  destruct (select_columns (np_loadtxt grid)) as [rows | e];
    cbn [bind runs_same_off]; [| reflexivity].
  rewrite Eb, Es.
  apply while_loop_same_off; try assumption.
  unfold states_same_off, initial_state.
  cbn [time dt time_total_mass_loss iteration stars time_step_amin].
  rewrite Es. repeat (split; [reflexivity |]).
  split.
  - rewrite !assign_disks_length, replace_nth_length. reflexivity.
  - intros j Hj. unfold assign_disks. rewrite Eb, Es. rewrite !assign_nth.
    rewrite nth_error_replace_other by congruence. reflexivity.
Qed.

Lemma star_of_1_9_MSun_outside_populations_witness :
  nth_error sample_cluster 2 = Some (mk_star 0 (10 ^ 16) 0 1.9 None None) /\
  stellar_mass (mk_star 0 (10 ^ 16) 0 1.9 None None) = 1.9 /\
  ~ In 2%nat (bright_stars sample_cluster) /\
  ~ In 2%nat (small_stars sample_cluster) /\
  exists s0,
    nth_error (assign_disks sample_cluster) 2 = Some s0 /\
    stellar_mass s0 = 1.9 /\
    disk_mass s0 = Some 0 /\ disk_radius s0 = Some 0.
Proof.
  assert (Hk : nth_error sample_cluster 2 =
               Some (mk_star 0 (10 ^ 16) 0 1.9 None None)) by reflexivity.
  assert (Hm : stellar_mass (mk_star 0 (10 ^ 16) 0 1.9 None None) = 1.9)
    by reflexivity.
  split; [exact Hk |]. split; [exact Hm |].
  destruct (star_of_1_9_MSun_outside_populations sample_cluster 2
              (mk_star 0 (10 ^ 16) 0 1.9 None None) Hk Hm)
    as (Hb & Hs & (s0 & Ha & _ & _ & _ & Em & Edm & Edr) & _).
  split; [exact Hb |]. split; [exact Hs |].
  exists s0. split; [exact Ha |]. split; [exact Em |].
  split; [exact Edm | exact Edr].
Defined.

(** ** Row order *)

Lemma grid_AB_candidates (mem : nat -> R) :
  build_candidates mem grid_AB query_10 =
  Ok (mk_candidates
        [0; 2; 3; 4; 5; 6; 7; 8]%nat
        [mk_point 9 8 8 8; mk_point 11 100 100 100;
         mk_point 0 9 100 100; mk_point 0 11 100 100;
         mk_point 0 100 9 100; mk_point 0 100 11 100;
         mk_point 0 100 100 9; mk_point 0 100 100 11]
        [-1; -3; -3; -3; -3; -3; -3; -3]).
Proof.
  unfold grid_AB, row_A, row_B, other_rows, query_10.
  run_estimator. reflexivity.
Qed.

Lemma grid_BA_candidates (mem : nat -> R) :
  build_candidates mem grid_BA query_10 =
  Ok (mk_candidates
        [0; 2; 3; 4; 5; 6; 7; 8]%nat
        [mk_point 9 12 12 12; mk_point 11 100 100 100;
         mk_point 0 9 100 100; mk_point 0 11 100 100;
         mk_point 0 100 9 100; mk_point 0 100 11 100;
         mk_point 0 100 100 9; mk_point 0 100 100 11]
        [-2; -3; -3; -3; -3; -3; -3; -3]).
Proof.
  unfold grid_BA, row_A, row_B, other_rows, query_10.
  run_estimator. reflexivity.
Qed.

Lemma grid_AB_estimate (mem : nat -> R) :
  photoevap_Mdot mem grid_AB query_10 = Ok (-1).
Proof.
  unfold photoevap_Mdot. rewrite grid_AB_candidates.
  cbn [bind subgrid Mdot_values].
  unfold griddata_nearest, nearest_index, getitem, query_10.
  run_arrays. reflexivity.
Qed.

Lemma grid_BA_estimate (mem : nat -> R) :
  photoevap_Mdot mem grid_BA query_10 = Ok (-2).
Proof.
  unfold photoevap_Mdot. rewrite grid_BA_candidates.
  cbn [bind subgrid Mdot_values].
  unfold griddata_nearest, nearest_index, getitem, query_10.
  run_arrays. reflexivity.
Qed.

Lemma point_differs (a b c d a' b' c' d' : R) :
  b <> b' -> mk_point a b c d <> mk_point a' b' c' d'.
Proof. intros H E. injection E as _ E _ _. contradiction. Qed.

(** C5, refuted as stated: exchanging the first two rows of
    [grid_AB], which share their stellar mass, replaces the candidate point
    (9, 8, 8, 8) by (9, 12, 12, 12) and changes the estimate from -1 to -2.
    The eight row indices are pairwise distinct on both grids and the
    nearest row is strictly nearest, so neither the memory content nor the
    order among equally distant rows plays a role. *)
Lemma row_order_changes_estimate :
  Permutation grid_AB grid_BA /\
  exists c c',
    build_candidates (fun _ => 0) grid_AB query_10 = Ok c /\
    build_candidates (fun _ => 0) grid_BA query_10 = Ok c' /\
    In (mk_point 9 8 8 8) (subgrid c) /\
    ~ In (mk_point 9 8 8 8) (subgrid c') /\
    photoevap_Mdot (fun _ => 0) grid_AB query_10 = Ok (-1) /\
    photoevap_Mdot (fun _ => 0) grid_BA query_10 = Ok (-2) /\
    -1 <> -2.
Proof.
  split; [apply perm_swap |].
  eexists. eexists.
  split; [apply grid_AB_candidates |]. split; [apply grid_BA_candidates |].
  cbn [subgrid]. split; [left; reflexivity |]. split.
  - intros H. repeat (destruct H as [H | H];
      [revert H; apply point_differs; lra |]).
    destruct H.
  - split; [apply grid_AB_estimate |]. split; [apply grid_BA_estimate | lra].
Qed.

Lemma below_or_none (column : list R) (val : R) :
  (exists c, In c column /\ c < val) \/ (forall c, In c column -> val <= c).
Proof.
  induction column as [| a rest IH].
  - right. intros c [].
  - destruct (Rlt_dec a val) as [Hlt | Hge].
    + left. exists a. split; [left; reflexivity | exact Hlt].
    + destruct IH as [(c & Hc & Hlt) | Hall].
      * left. exists c. split; [right; exact Hc | exact Hlt].
      * right. intros c [<- | Hc]; [lra | auto].
Qed.

Lemma above_or_none (column : list R) (val : R) :
  (exists c, In c column /\ val < c) \/ (forall c, In c column -> c <= val).
Proof.
  induction column as [| a rest IH].
  - right. intros c [].
  - destruct (Rlt_dec val a) as [Hlt | Hge].
    + left. exists a. split; [left; reflexivity | exact Hlt].
    + destruct IH as [(c & Hc & Hlt) | Hall].
      * left. exists c. split; [right; exact Hc | exact Hlt].
      * right. intros c [<- | Hc]; [lra | auto].
Qed.

Lemma below_choice_unique (column : list R) (val v v' : R) :
  below_choice column val v -> below_choice column val v' -> v = v'.
Proof.
  intros [[_ (Hin & Hlt & Hmax)] | [Hnone (Hin & Hmin)]]
         [[Hex' (Hin' & Hlt' & Hmax')] | [Hnone' (Hin' & Hmin')]].
  - pose proof (Hmax v' Hin' Hlt'). pose proof (Hmax' v Hin Hlt). lra.
  - pose proof (Hnone' v Hin). lra.
  - destruct Hex' as (c & Hc & Hcl). pose proof (Hnone c Hc). lra.
  - pose proof (Hmin v' Hin'). pose proof (Hmin' v Hin). lra.
Qed.

Lemma above_choice_unique (column : list R) (val v v' : R) :
  above_choice column val v -> above_choice column val v' -> v = v'.
Proof.
  intros [[_ (Hin & Hlt & Hmax)] | [Hnone (Hin & Hmin)]]
         [[Hex' (Hin' & Hlt' & Hmax')] | [Hnone' (Hin' & Hmin')]].
  - pose proof (Hmax v' Hin' Hlt'). pose proof (Hmax' v Hin Hlt). lra.
  - pose proof (Hnone' v Hin). lra.
  - destruct Hex' as (c & Hc & Hcl). pose proof (Hnone c Hc). lra.
  - pose proof (Hmin v' Hin'). pose proof (Hmin' v Hin). lra.
Qed.

Lemma below_choice_perm (column column' : list R) (val v : R) :
  Permutation column column' ->
  below_choice column val v -> below_choice column' val v.
Proof.
  intros Hp.
  assert (Hto : forall c, In c column -> In c column')
    by (intros c; apply Permutation_in; exact Hp).
  assert (Hfrom : forall c, In c column' -> In c column)
    by (intros c; apply Permutation_in; apply Permutation_sym; exact Hp).
  intros [[(c & Hc & Hlt) (Hin & Hv & Hmax)] | [Hnone (Hin & Hmin)]].
  - left. split; [exists c; auto |].
    split; [auto |]. split; [exact Hv | intros u Hu; apply Hmax; auto].
  - right. split; [intros u Hu; apply Hnone; auto |].
    split; [auto | intros u Hu; apply Hmin; auto].
Qed.

Lemma above_choice_perm (column column' : list R) (val v : R) :
  Permutation column column' ->
  above_choice column val v -> above_choice column' val v.
Proof.
  intros Hp.
  assert (Hto : forall c, In c column -> In c column')
    by (intros c; apply Permutation_in; exact Hp).
  assert (Hfrom : forall c, In c column' -> In c column)
    by (intros c; apply Permutation_in; apply Permutation_sym; exact Hp).
  intros [[(c & Hc & Hlt) (Hin & Hv & Hmax)] | [Hnone (Hin & Hmin)]].
  - left. split; [exists c; auto |].
    split; [auto |]. split; [exact Hv | intros u Hu; apply Hmax; auto].
  - right. split; [intros u Hu; apply Hnone; auto |].
    split; [auto | intros u Hu; apply Hmin; auto].
Qed.

(** The indexer returns the first rows of the two chosen values. *)
Lemma find_indices_choice (column : list R) (val : R) (i j : nat) :
  find_indices column val = Ok (i, j) ->
  exists ci cj,
    nth_error column i = Some ci /\ nth_error column j = Some cj /\
    below_choice column val ci /\ above_choice column val cj.
Proof.
  intros H. destruct column as [| a rest]; [discriminate H |].
  destruct (find_indices_ok (a :: rest) val)
    as (i' & j' & ci & cj & H' & Hi & Hj & Hb1 & Hb2 & Ha1 & Ha2);
    [discriminate |].
  rewrite H in H'. injection H' as <- <-.
  exists ci, cj. split; [apply Hi |]. split; [apply Hj |]. split.
  - destruct (below_or_none (a :: rest) val) as [Hex | Hnone].
    + left. split; [exact Hex | apply Hb1; exact Hex].
    + right. split; [exact Hnone | apply Hb2; exact Hnone].
  - destruct (above_or_none (a :: rest) val) as [Hex | Hnone].
    + left. split; [exact Hex | apply Ha1; exact Hex].
    + right. split; [exact Hnone | apply Ha2; exact Hnone].
Qed.

(** Permuting a column leaves the two bracketing values as they are. *)
Lemma find_indices_perm (column column' : list R) (val : R) (i j : nat) :
  Permutation column column' ->
  find_indices column val = Ok (i, j) ->
  exists i' j',
    find_indices column' val = Ok (i', j') /\
    nth_error column' i' = nth_error column i /\
    nth_error column' j' = nth_error column j.
Proof.
  intros Hp H.
  destruct (find_indices_choice column val i j H)
    as (ci & cj & Hi & Hj & Hb & Ha).
  assert (Hne : column' <> []).
  { intros E. rewrite E in Hp. apply Permutation_sym, Permutation_nil in Hp.
    rewrite Hp in Hi. destruct i; discriminate Hi. }
  destruct (find_indices_ok column' val Hne)
    as (i' & j' & _ & _ & H' & _).
  destruct (find_indices_choice column' val i' j' H')
    as (ci' & cj' & Hi' & Hj' & Hb' & Ha').
  exists i', j'. split; [exact H' |].
  rewrite Hi, Hj, Hi', Hj'.
  rewrite (below_choice_unique column' val ci' ci Hb'
             (below_choice_perm column column' val ci Hp Hb)).
  rewrite (above_choice_unique column' val cj' cj Ha'
             (above_choice_perm column column' val cj Hp Ha)).
  split; reflexivity.
Qed.

(** ** Rows picked on a permuted grid *)

Lemma grid_columns (grid : list grid_row) :
  grid_stellar_masses grid = map col0 grid /\
  grid_FUV grid = map col1 grid /\
  grid_disk_mass grid = map col2 grid /\
  grid_disk_radius grid = map col4 grid.
Proof.
  unfold grid_stellar_masses, grid_FUV, grid_disk_mass, grid_disk_radius,
    FRIED_grid.
  rewrite !map_map. repeat split; reflexivity.
Qed.

(** The indexer returns the first rows of the values at its two indices. *)
Lemma find_indices_first (column : list R) (val : R) (i j : nat) :
  find_indices column val = Ok (i, j) ->
  exists ci cj, first_index_of column ci i /\ first_index_of column cj j.
Proof.
  intros H. destruct column as [| a rest]; [discriminate H |].
  destruct (find_indices_ok (a :: rest) val)
    as (i' & j' & ci & cj & H' & Hi & Hj & _); [discriminate |].
  rewrite H in H'. injection H' as <- <-. exists ci, cj. split; assumption.
Qed.

(** When the rows that hold a bracketing value are one and the same row,
    the indexer picks that row on the permuted grid as well. *)
Lemma bracket_rows_picked (g : grid_row -> R) (grid grid' : list grid_row)
    (val : R) (i j : nat) :
  Permutation grid grid' ->
  (forall v,
     nth_error (map g grid) i = Some v \/ nth_error (map g grid) j = Some v ->
     held_by_one_row g grid v) ->
  find_indices (map g grid) val = Ok (i, j) ->
  exists i' j',
    find_indices (map g grid') val = Ok (i', j') /\
    picked grid grid' i i' /\ picked grid grid' j j'.
Proof.
  intros Hp Hone H.
  destruct (find_indices_perm (map g grid) (map g grid') val i j
              (Permutation_map g Hp) H) as (i' & j' & H' & Hi & Hj).
  exists i', j'. split; [exact H' |].
  destruct (find_indices_first _ _ _ _ H) as (ci & cj & Fi & Fj).
  destruct (find_indices_first _ _ _ _ H') as (ci' & cj' & Fi' & Fj').
  assert (Hrow : forall k k' c c',
            first_index_of (map g grid) c k ->
            first_index_of (map g grid') c' k' ->
            nth_error (map g grid') k' = nth_error (map g grid) k ->
            held_by_one_row g grid c ->
            picked grid grid' k k').
  { intros k k' c c' Fk Fk' E Hc.
    pose proof Fk as [Hk _]. pose proof Fk' as [Hk' _].
    assert (c' = c) by congruence. subst c'.
    rewrite nth_error_map in Hk, Hk'.
    destruct (nth_error grid k) as [r |] eqn:Hr; [| discriminate Hk].
    destruct (nth_error grid' k') as [r' |] eqn:Hr'; [| discriminate Hk'].
    cbn [option_map] in Hk, Hk'. injection Hk as Hg. injection Hk' as Hg'.
    assert (r' = r).
    { apply Hc; try assumption.
      - apply (Permutation_in r' (Permutation_sym Hp)).
        eapply nth_error_In; eauto.
      - eapply nth_error_In; eauto. }
    subst r'. exists g, r. rewrite Hg.
    split; [exact Hr |]. split; [exact Hr' |]. split; assumption. }
  split.
  - apply (Hrow i i' ci ci' Fi Fi' Hi). apply Hone. left. apply Fi.
  - apply (Hrow j j' cj cj' Fj Fj' Hj). apply Hone. right. apply Fj.
Qed.

(** A row sits at one position only among the first rows of the values it
    holds. *)
Lemma first_rows_agree (grid : list grid_row) (g h : grid_row -> R)
    (r : grid_row) (i j : nat) :
  nth_error grid i = Some r -> nth_error grid j = Some r ->
  first_index_of (map g grid) (g r) i ->
  first_index_of (map h grid) (h r) j ->
  i = j.
Proof.
  intros Hi Hj [_ Fi] [_ Fj].
  destruct (Nat.lt_trichotomy i j) as [H | [H | H]]; [| exact H |].
  - exfalso. apply (Fj i H). rewrite nth_error_map, Hi. reflexivity.
  - exfalso. apply (Fi j H). rewrite nth_error_map, Hj. reflexivity.
Qed.

(** The rows picked on the two grids repeat at the same positions of the two
    index lists. *)
Lemma picked_pattern (grid grid' : list grid_row) (idx idx' : list nat) :
  Forall2 (picked grid grid') idx idx' -> same_pattern idx idx'.
Proof.
  intros Hrows. split; [eapply Forall2_length; eauto |].
  intros k l x y x' y' Hk Hl Hk' Hl'.
  destruct (Forall2_nth_error_l _ _ _ Hrows k x Hk)
    as (x0 & Hx0 & g & r & Hr & Hr' & Fx & Fx').
  destruct (Forall2_nth_error_l _ _ _ Hrows l y Hl)
    as (y0 & Hy0 & h & q & Hq & Hq' & Fy & Fy').
  assert (x0 = x') by congruence. assert (y0 = y') by congruence. subst x0 y0.
  split; intros E.
  - subst y. assert (q = r) by congruence. subst q.
    exact (first_rows_agree grid' g h r x' y' Hr' Hq' Fx' Fy').
  - subst y'. assert (q = r) by congruence. subst q.
    exact (first_rows_agree grid g h r x y Hr Hq Fx Fy).
Qed.

Lemma same_pattern_sym (idx idx' : list nat) :
  same_pattern idx idx' -> same_pattern idx' idx.
Proof.
  intros [Hlen Hp]. split; [congruence |].
  intros k l x y x' y' Hk Hl Hk' Hl'. symmetry. eapply Hp; eauto.
Qed.

Lemma first_index_pattern (idx idx' : list nat) (k x x' : nat) :
  same_pattern idx idx' ->
  nth_error idx k = Some x -> nth_error idx' k = Some x' ->
  first_index_of idx x k -> first_index_of idx' x' k.
Proof.
  intros [Hlen Hp] Hk Hk' [_ Hfirst]. split; [exact Hk' |].
  intros l Hl Hl'.
  destruct (nth_error idx l) as [y |] eqn:Hy.
  - assert (x = y) by (apply (Hp k l x y x' x' Hk Hy Hk' Hl'); reflexivity).
    subst y. exact (Hfirst l Hl Hy).
  - apply nth_error_None in Hy.
    assert ((k < length idx)%nat) by (apply nth_error_Some; congruence).
    lia.
Qed.

Lemma Forall2_same_targets {A B : Type} (P P' : A -> B -> Prop)
    (Q : A -> A -> Prop) (idx idx' : list A) :
  (forall i i' s s', Q i i' -> P i s -> P' i' s' -> s = s') ->
  Forall2 Q idx idx' ->
  forall sub sub', Forall2 P idx sub -> Forall2 P' idx' sub' -> sub = sub'.
Proof.
  intros Hdet HQ. induction HQ as [| i i' idx idx' Hii' HQ IH];
    intros sub sub' H H'; inversion H; inversion H'; subst; [reflexivity |].
  f_equal; [eapply Hdet; eauto | apply IH; assumption].
Qed.

(** When each bracketing value is held by one row, the estimator picks the
    same eight rows on a permuted grid, and builds the same sub-grid. *)
Lemma candidates_perm (mem mem' : nat -> R) (grid grid' : list grid_row)
    (xi : point) (c : candidates) :
  Permutation grid grid' ->
  bracket_rows_unique grid xi ->
  build_candidates mem grid xi = Ok c ->
  exists c',
    build_candidates mem' grid' xi = Ok c' /\
    Forall2 (picked grid grid') (indices_list c) (indices_list c') /\
    subgrid c' = subgrid c.
Proof.
  intros Hp Hone Hc.
  destruct (grid_columns grid) as (E0 & E1 & E2 & E4).
  destruct (grid_columns grid') as (E0' & E1' & E2' & E4').
  assert (Hne' : grid' <> []).
  { intros E. rewrite E in Hp. apply Permutation_sym, Permutation_nil in Hp.
    rewrite Hp in Hc. discriminate Hc. }
  destruct (build_candidates_ok mem' grid' xi Hne') as (c' & Hc' & Hspec').
  pose proof (build_candidates_spec mem grid xi c Hc) as Hspec.
  destruct Hspec as (mi & mj & fi & fj & di & dj & ri & rj
                     & Hm & Hf & Hd & Hr & Hidx & Hsub & _ & _).
  destruct Hspec' as (mi' & mj' & fi' & fj' & di' & dj' & ri' & rj'
                      & Hm' & Hf' & Hd' & Hr' & Hidx' & Hsub' & _ & _).
  rewrite E0 in Hm. rewrite E1 in Hf. rewrite E2 in Hd. rewrite E4 in Hr.
  rewrite E0' in Hm'. rewrite E1' in Hf'. rewrite E2' in Hd'. rewrite E4' in Hr'.
  destruct (bracket_rows_picked col0 grid grid' _ _ _ Hp
              (fun v Hv => Hone col0 (p_stellar_mass xi) (or_introl eq_refl)
                             mi mj v Hm Hv) Hm)
    as (a & b & Ha & Rmi & Rmj).
  rewrite Hm' in Ha. injection Ha as <- <-.
  destruct (bracket_rows_picked col1 grid grid' _ _ _ Hp
              (fun v Hv => Hone col1 (p_FUV xi)
                             (or_intror (or_introl eq_refl))
                             fi fj v Hf Hv) Hf)
    as (a & b & Ha & Rfi & Rfj).
  rewrite Hf' in Ha. injection Ha as <- <-.
  destruct (bracket_rows_picked col2 grid grid' _ _ _ Hp
              (fun v Hv => Hone col2 (p_disk_mass xi)
                             (or_intror (or_intror (or_introl eq_refl)))
                             di dj v Hd Hv) Hd)
    as (a & b & Ha & Rdi & Rdj).
  rewrite Hd' in Ha. injection Ha as <- <-.
  destruct (bracket_rows_picked col4 grid grid' _ _ _ Hp
              (fun v Hv => Hone col4 (p_disk_radius xi)
                             (or_intror (or_intror (or_intror
                                (or_introl eq_refl))))
                             ri rj v Hr Hv) Hr)
    as (a & b & Ha & Rri & Rrj).
  rewrite Hr' in Ha. injection Ha as <- <-.
  assert (Hrows : Forall2 (picked grid grid')
                    (indices_list c) (indices_list c')).
  { rewrite Hidx, Hidx'. repeat constructor; assumption. }
  exists c'. split; [exact Hc' |]. split; [exact Hrows |].
  assert (Hdet : forall i i' s s',
            picked grid grid' i i' ->
            nth_error (FRIED_grid grid) i = Some s ->
            nth_error (FRIED_grid grid') i' = Some s' -> s' = s).
  { intros i i' s s' (g & r & Hr1 & Hr2 & _) Hs Hs'.
    unfold FRIED_grid in Hs, Hs'. rewrite nth_error_map in Hs, Hs'.
    rewrite Hr1 in Hs. rewrite Hr2 in Hs'. simpl in Hs, Hs'. congruence. }
  symmetry.
  apply (Forall2_same_targets
           (fun i s => nth_error (FRIED_grid grid) i = Some s)
           (fun i' s' => nth_error (FRIED_grid grid') i' = Some s')
           (picked grid grid') (indices_list c) (indices_list c'));
    try assumption.
  intros i i' s s' Hq Hs Hs'. symmetry. eapply Hdet; eauto.
Qed.

(** The slots the fill loop writes hold the same values on both grids,
    whatever the two memories. *)
Lemma written_slots_perm (mem mem' : nat -> R) (grid grid' : list grid_row)
    (xi : point) (c c' : candidates) :
  build_candidates mem grid xi = Ok c ->
  build_candidates mem' grid' xi = Ok c' ->
  Forall2 (picked grid grid') (indices_list c) (indices_list c') ->
  forall k x,
    nth_error (indices_list c) k = Some x ->
    first_index_of (indices_list c) x k ->
    exists x' v,
      nth_error (indices_list c') k = Some x' /\
      first_index_of (indices_list c') x' k /\
      nth_error (Mdot_values c) k = Some v /\
      nth_error (Mdot_values c') k = Some v /\
      nth_error (grid_log10Mdot grid) x = Some v.
Proof.
  intros Hc Hc' Hrows k x Hx Hfirst.
  destruct (Mdot_values_slots mem grid xi c Hc) as (_ & _ & Hslots).
  destruct (Mdot_values_slots mem' grid' xi c' Hc') as (_ & _ & Hslots').
  pose proof (picked_pattern grid grid' _ _ Hrows) as Hpat.
  destruct (Forall2_nth_error_l _ _ _ Hrows k x Hx)
    as (x' & Hx' & g & r & Hr1 & Hr2 & _).
  pose proof (first_index_pattern _ _ k x x' Hpat Hx Hx' Hfirst) as Hfirst'.
  destruct (Hslots k x Hx) as [Hw _].
  destruct (Hslots' k x' Hx') as [Hw' _].
  exists x', (col5 r). split; [exact Hx' |]. split; [exact Hfirst' |].
  assert (Hv : nth_error (grid_log10Mdot grid) x = Some (col5 r))
    by (unfold grid_log10Mdot; rewrite nth_error_map, Hr1; reflexivity).
  assert (Hv' : nth_error (grid_log10Mdot grid') x' = Some (col5 r))
    by (unfold grid_log10Mdot; rewrite nth_error_map, Hr2; reflexivity).
  split; [rewrite (Hw Hfirst); exact Hv |].
  split; [rewrite (Hw' Hfirst'); exact Hv' | exact Hv].
Qed.

Lemma estimate_perm (mem mem' : nat -> R) (grid grid' : list grid_row)
    (xi : point) :
  Permutation grid grid' ->
  bracket_rows_unique grid xi ->
  photoevap_Mdot mem' grid' xi = photoevap_Mdot mem grid xi.
Proof.
  intros Hp Hone.
  destruct grid as [| r rest].
  - apply Permutation_nil in Hp. rewrite Hp. reflexivity.
  - destruct (build_candidates_ok mem (r :: rest) xi) as (c & Hc & _);
      [discriminate |].
    destruct (candidates_perm mem mem' (r :: rest) grid' xi c Hp Hone Hc)
      as (c' & Hc' & Hrows & Hsub).
    destruct (photoevap_Mdot_value mem _ xi c Hc)
      as (k & row & out & Hk & Hrow & Hout & Hrun).
    destruct (photoevap_Mdot_value mem' _ xi c' Hc')
      as (k' & row' & out' & Hk' & Hrow' & Hout' & Hrun').
    rewrite Hsub in Hk'. assert (k' = k) by congruence. subst k'.
    destruct (Forall2_nth_error_l _ _ _ Hrows k row Hrow)
      as (row0 & Hrow0 & g & q & Hq & Hq' & _).
    assert (row0 = row') by congruence. subst row0.
    rewrite Hrun, Hrun'. f_equal.
    unfold grid_log10Mdot in Hout, Hout'.
    rewrite nth_error_map in Hout, Hout'.
    rewrite Hq in Hout. rewrite Hq' in Hout'.
    cbn [option_map] in Hout, Hout'. congruence.
Qed.

(** A column without repeated values holds each of its values in one
    row. *)
Lemma distinct_values_one_row (g : grid_row -> R) (grid : list grid_row)
    (v : R) :
  NoDup (map g grid) -> held_by_one_row g grid v.
Proof.
  intros Hnd r r' Hr Hr' E E'.
  destruct (In_nth_error grid r Hr) as (i & Hi).
  destruct (In_nth_error grid r' Hr') as (j & Hj).
  assert (i = j).
  { apply (proj1 (NoDup_nth_error (map g grid)) Hnd).
    - rewrite length_map. apply nth_error_Some. congruence.
    - rewrite !nth_error_map, Hi, Hj. simpl. congruence. }
  subst j. congruence.
Qed.

Ltac distinct_reals :=
  repeat (constructor; [simpl; intuition lra |]); constructor.

(** C5, amended: for every grid, every permutation of its rows and every
    query, the indexer finds the same two bracketing values on each of the
    four working columns of the permuted grid as on the original.  When in
    addition each of the eight bracketing values is held by one row in its
    column (rows that hold it are equal), then, whatever the uninitialised
    memory of the two runs, the estimator builds the same 8-point sub-grid,
    position by position; the row indices repeat at the same positions; the
    slots the fill loop writes, the first position of each row index, hold
    the same log10 mass-loss value, that of the row, on both grids (every
    slot when the eight indices are distinct); and the nearest-neighbour
    estimate is the same. *)
Theorem estimator_row_order (mem mem' : nat -> R)
    (grid grid' : list grid_row) (xi : point) :
  Permutation grid grid' ->
  (forall column,
     In column [grid_stellar_masses; grid_FUV; grid_disk_mass;
                grid_disk_radius] ->
     forall val i j,
       find_indices (column grid) val = Ok (i, j) ->
       exists i' j',
         find_indices (column grid') val = Ok (i', j') /\
         nth_error (column grid') i' = nth_error (column grid) i /\
         nth_error (column grid') j' = nth_error (column grid) j) /\
  (bracket_rows_unique grid xi ->
   (forall c, build_candidates mem grid xi = Ok c ->
      exists c',
        build_candidates mem' grid' xi = Ok c' /\
        subgrid c' = subgrid c /\
        same_pattern (indices_list c) (indices_list c') /\
        (forall k x,
           nth_error (indices_list c) k = Some x ->
           first_index_of (indices_list c) x k ->
           exists v,
             nth_error (Mdot_values c) k = Some v /\
             nth_error (Mdot_values c') k = Some v /\
             nth_error (grid_log10Mdot grid) x = Some v) /\
        (NoDup (indices_list c) -> Mdot_values c' = Mdot_values c)) /\
   photoevap_Mdot mem' grid' xi = photoevap_Mdot mem grid xi).
Proof.
  intros Hp. split.
  - intros column Hcol val i j H.
    apply find_indices_perm with (column := column grid); [| exact H].
    destruct (grid_columns grid) as (E0 & E1 & E2 & E4).
    destruct (grid_columns grid') as (E0' & E1' & E2' & E4').
    destruct Hcol as [<- | [<- | [<- | [<- | []]]]].
    + rewrite E0, E0'. apply Permutation_map. exact Hp.
    + rewrite E1, E1'. apply Permutation_map. exact Hp.
    + rewrite E2, E2'. apply Permutation_map. exact Hp.
    + rewrite E4, E4'. apply Permutation_map. exact Hp.
  - intros Hone. split; [| apply estimate_perm; assumption].
    intros c Hc.
    destruct (candidates_perm mem mem' grid grid' xi c Hp Hone Hc)
      as (c' & Hc' & Hrows & Hsub).
    pose proof (written_slots_perm mem mem' grid grid' xi c c' Hc Hc' Hrows)
      as Hwritten.
    exists c'. split; [exact Hc' |]. split; [exact Hsub |].
    split; [apply (picked_pattern grid grid'); exact Hrows |]. split.
    + intros k x Hx Hfirst.
      destruct (Hwritten k x Hx Hfirst) as (x' & v & _ & _ & Hv & Hv' & Hg).
      exists v. split; [exact Hv |]. split; [exact Hv' | exact Hg].
    + intros Hnd.
      destruct (Mdot_values_slots mem grid xi c Hc) as (Hlen & HlenM & _).
      destruct (Mdot_values_slots mem' grid' xi c' Hc') as (_ & HlenM' & _).
      apply nth_error_ext. intros k.
      destruct (nth_error (indices_list c) k) as [x |] eqn:Hx.
      * assert (Hfirst : first_index_of (indices_list c) x k).
        { split; [exact Hx |]. intros l Hl Hl'.
          assert (l = k); [| lia].
          apply (proj1 (NoDup_nth_error (indices_list c)) Hnd).
          - apply nth_error_Some. congruence.
          - congruence. }
        destruct (Hwritten k x Hx Hfirst) as (x' & v & _ & _ & Hv & Hv' & _).
        congruence.
      * apply nth_error_None in Hx.
        replace (nth_error (Mdot_values c) k) with (@None R)
          by (symmetry; apply nth_error_None; lia).
        apply nth_error_None. lia.
Qed.

Lemma two_row_grid_brackets :
  bracket_rows_unique two_row_grid two_row_query.
Proof.
  intros g val Hg i j v _ _.
  apply distinct_values_one_row.
  cbn [In] in Hg.
  destruct Hg as [E | [E | [E | [E | []]]]]; injection E as <- _;
    unfold two_row_grid; cbn [map col0 col1 col2 col4]; distinct_reals.
Qed.

Lemma estimator_row_order_witness :
  Permutation two_row_grid (rev two_row_grid) /\
  bracket_rows_unique two_row_grid two_row_query /\
  photoevap_Mdot (fun _ => 1) (rev two_row_grid) two_row_query =
  photoevap_Mdot (fun _ => 0) two_row_grid two_row_query.
Proof.
  assert (Hp : Permutation two_row_grid (rev two_row_grid))
    by apply Permutation_rev.
  pose proof two_row_grid_brackets as Hone.
  split; [exact Hp |]. split; [exact Hone |].
  apply (proj2 (estimator_row_order (fun _ => 0) (fun _ => 1) two_row_grid
                  (rev two_row_grid) two_row_query Hp)).
  exact Hone.
Defined.

(* ================================================================== *)
(** * Further properties of the script *)

(** ** Grid indexer *)

(** X1: whatever the indexer returns are positions of the column, so the
    rows fetched with them exist, and the entry at the lower index is never
    larger than the entry at the upper index. *)
Theorem find_indices_valid_rows (column : list R) (val : R) (i j : nat) :
  find_indices column val = Ok (i, j) ->
  (i < length column)%nat /\ (j < length column)%nat /\
  exists ci cj,
    nth_error column i = Some ci /\ nth_error column j = Some cj /\
    ci <= cj.
Proof.
  intros H. destruct (find_indices_in_range column val i j H) as [Hi Hj].
  split; [exact Hi |]. split; [exact Hj |].
  destruct (find_indices_choice column val i j H)
    as (ci & cj & Hci & Hcj & Hb & Ha).
  exists ci, cj. split; [exact Hci |]. split; [exact Hcj |].
  assert (Ici : In ci column) by (eapply nth_error_In; eauto).
  assert (Icj : In cj column) by (eapply nth_error_In; eauto).
  destruct Hb as [[_ (_ & Hlt & _)] | [_ (_ & Hmin)]]; [| apply Hmin; exact Icj].
  destruct Ha as [[_ (_ & Hgt & _)] | [_ (_ & Hmax)]]; [lra | apply Hmax; exact Ici].
Qed.

Lemma find_indices_valid_rows_witness :
  find_indices [3; 1; 2; 1; 3] 2 = Ok (1%nat, 0%nat) /\
  (1 < length [3; 1; 2; 1; 3])%nat /\ (0 < length [3; 1; 2; 1; 3])%nat /\
  exists ci cj,
    nth_error [3; 1; 2; 1; 3] 1 = Some ci /\
    nth_error [3; 1; 2; 1; 3] 0 = Some cj /\ ci <= cj.
Proof.
  assert (H : find_indices [3; 1; 2; 1; 3] 2 = Ok (1%nat, 0%nat))
    by (unfold find_indices, np_where_eq; run_arrays; reflexivity).
  split; [exact H |].
  apply (find_indices_valid_rows [3; 1; 2; 1; 3] 2 1 0 H).
Defined.

(** X2: a query below every entry of the column, or above every entry,
    gets the same index twice: the first row of the column's minimum,
    respectively of its maximum. *)
Theorem find_indices_outside_range (column : list R) (val : R) :
  column <> [] ->
  ((forall c, In c column -> val < c) ->
   exists i m, find_indices column val = Ok (i, i) /\
               is_minimum column m /\ first_index_of column m i) /\
  ((forall c, In c column -> c < val) ->
   exists i m, find_indices column val = Ok (i, i) /\
               is_maximum column m /\ first_index_of column m i).
Proof.
  intros Hne.
  destruct (find_indices_ok column val Hne)
    as (i & j & ci & cj & H & Hi & Hj & Hb1 & Hb2 & Ha1 & Ha2).
  assert (Hsome : exists c, In c column)
    by (destruct column as [| c rest]; [congruence | exists c; left; reflexivity]).
  destruct Hsome as (c0 & Hc0).
  split; intros Hall.
  - assert (Hmin : is_minimum column ci)
      by (apply Hb2; intros c Hc; specialize (Hall c Hc); lra).
    assert (Hsa : smallest_above column val cj)
      by (apply Ha1; exists c0; split; [exact Hc0 | apply Hall; exact Hc0]).
    assert (cj = ci).
    { destruct Hmin as [Hin Hle]. destruct Hsa as (Hin' & _ & Hle').
      pose proof (Hle cj Hin'). pose proof (Hle' ci Hin (Hall ci Hin)). lra. }
    subst cj. rewrite (first_index_of_unique column ci j i Hj Hi) in H.
    exists i, ci. auto.
  - assert (Hmax : is_maximum column cj)
      by (apply Ha2; intros c Hc; specialize (Hall c Hc); lra).
    assert (Hlb : largest_below column val ci)
      by (apply Hb1; exists c0; split; [exact Hc0 | apply Hall; exact Hc0]).
    assert (ci = cj).
    { destruct Hmax as [Hin Hle]. destruct Hlb as (Hin' & _ & Hle').
      pose proof (Hle ci Hin'). pose proof (Hle' cj Hin (Hall cj Hin)). lra. }
    subst ci. rewrite (first_index_of_unique column cj i j Hi Hj) in H.
    exists j, cj. auto.
Qed.

Lemma find_indices_outside_range_witness :
  [3; 1; 2.5; 1; 3] <> [] /\
  (forall c, In c [3; 1; 2.5; 1; 3] -> 0.5 < c) /\
  exists i m, find_indices [3; 1; 2.5; 1; 3] 0.5 = Ok (i, i) /\
              is_minimum [3; 1; 2.5; 1; 3] m /\
              first_index_of [3; 1; 2.5; 1; 3] m i.
Proof.
  assert (Hne : [3; 1; 2.5; 1; 3] <> []) by discriminate.
  assert (Hall : forall c, In c [3; 1; 2.5; 1; 3] -> 0.5 < c)
    by (simpl; intuition lra).
  split; [exact Hne |]. split; [exact Hall |].
  exact (proj1 (find_indices_outside_range [3; 1; 2.5; 1; 3] 0.5 Hne) Hall).
Defined.

(** X3: the brackets move with the query: for [val <= val'] the entry at
    the lower index found for [val] is at most the one found for [val'],
    and likewise for the upper index. *)
Theorem find_indices_monotone (column : list R) (val val' : R)
    (i j i' j' : nat) :
  val <= val' ->
  find_indices column val = Ok (i, j) ->
  find_indices column val' = Ok (i', j') ->
  exists ci cj ci' cj',
    nth_error column i = Some ci /\ nth_error column j = Some cj /\
    nth_error column i' = Some ci' /\ nth_error column j' = Some cj' /\
    ci <= ci' /\ cj <= cj'.
Proof.
  intros Hle H H'.
  destruct (find_indices_choice column val i j H)
    as (ci & cj & Hci & Hcj & Hb & Ha).
  destruct (find_indices_choice column val' i' j' H')
    as (ci' & cj' & Hci' & Hcj' & Hb' & Ha').
  exists ci, cj, ci', cj'.
  repeat (split; [assumption |]).
  assert (Ici : In ci column) by (eapply nth_error_In; eauto).
  assert (Icj : In cj column) by (eapply nth_error_In; eauto).
  assert (Ici' : In ci' column) by (eapply nth_error_In; eauto).
  assert (Icj' : In cj' column) by (eapply nth_error_In; eauto).
  split.
  - destruct Hb as [[_ (_ & Hlt & _)] | [_ (_ & Hmin)]];
      [| apply Hmin; exact Ici'].
    destruct Hb' as [[_ (_ & _ & Hmax')] | [Hnone' _]].
    + apply Hmax'; [exact Ici | lra].
    + specialize (Hnone' ci Ici). lra.
  - destruct Ha' as [[_ (_ & Hgt' & _)] | [_ (_ & Hmax')]];
      [| apply Hmax'; exact Icj].
    destruct Ha as [[_ (_ & _ & Hmin)] | [Hnone _]].
    + apply Hmin; [exact Icj' | lra].
    + specialize (Hnone cj' Icj'). lra.
Qed.

Lemma find_indices_monotone_witness :
  2 <= 7 /\
  find_indices [3; 1; 2; 1; 3] 2 = Ok (1%nat, 0%nat) /\
  find_indices [3; 1; 2; 1; 3] 7 = Ok (0%nat, 0%nat) /\
  exists ci cj ci' cj',
    nth_error [3; 1; 2; 1; 3] 1 = Some ci /\
    nth_error [3; 1; 2; 1; 3] 0 = Some cj /\
    nth_error [3; 1; 2; 1; 3] 0 = Some ci' /\
    nth_error [3; 1; 2; 1; 3] 0 = Some cj' /\
    ci <= ci' /\ cj <= cj'.
Proof.
  assert (Hle : 2 <= 7) by lra.
  assert (H : find_indices [3; 1; 2; 1; 3] 2 = Ok (1%nat, 0%nat))
    by (unfold find_indices, np_where_eq; run_arrays; reflexivity).
  assert (H' : find_indices [3; 1; 2; 1; 3] 7 = Ok (0%nat, 0%nat))
    by (unfold find_indices, np_where_eq; run_arrays; reflexivity).
  split; [exact Hle |]. split; [exact H |]. split; [exact H' |].
  apply (find_indices_monotone [3; 1; 2; 1; 3] 2 7 1 0 0 0 Hle H H').
Defined.

(** ** Mass-loss estimator *)

(** X4: on a grid with rows the candidate set is always built; its eight
    row indices are rows of the grid; a slot of [Mdot_values] holds the
    grid's log10 mass-loss value of its row index exactly when it is the
    first position of that index, and the untouched memory content
    otherwise; so with eight pairwise distinct indices every slot holds the
    value of its row. *)
Theorem Mdot_values_slot_contents (mem : nat -> R) (grid : list grid_row)
    (xi : point) :
  grid <> [] ->
  exists c,
    build_candidates mem grid xi = Ok c /\
    length (indices_list c) = 8%nat /\
    length (subgrid c) = 8%nat /\
    length (Mdot_values c) = 8%nat /\
    Forall (fun i => (i < length grid)%nat) (indices_list c) /\
    (forall k x, nth_error (indices_list c) k = Some x ->
       (first_index_of (indices_list c) x k ->
        nth_error (Mdot_values c) k = nth_error (grid_log10Mdot grid) x) /\
       (~ first_index_of (indices_list c) x k ->
        nth_error (Mdot_values c) k = Some (mem k))) /\
    (NoDup (indices_list c) ->
     forall k x, nth_error (indices_list c) k = Some x ->
       nth_error (Mdot_values c) k = nth_error (grid_log10Mdot grid) x).
Proof.
  intros Hne.
  destruct (build_candidates_ok mem grid xi Hne) as (c & Hc & Hspec).
  destruct (Mdot_values_slots mem grid xi c Hc) as (Hlen & HlenM & Hslots).
  destruct Hspec as (mi & mj & fi & fj & di & dj & ri & rj
                     & _ & _ & _ & _ & _ & Hsub & Hall & _).
  exists c. split; [exact Hc |]. split; [exact Hlen |].
  split; [rewrite <- (Forall2_length Hsub); exact Hlen |].
  split; [exact HlenM |]. split; [exact Hall |]. split; [exact Hslots |].
  intros Hnd k x Hk. apply (Hslots k x Hk). split; [exact Hk |].
  intros l Hl Hl'.
  assert (l = k); [| lia].
  apply (proj1 (NoDup_nth_error (indices_list c)) Hnd).
  - apply nth_error_Some. congruence.
  - congruence.
Qed.

Lemma Mdot_values_slot_contents_witness :
  grid_AB <> [] /\
  exists c,
    build_candidates (fun _ => 0) grid_AB query_10 = Ok c /\
    length (indices_list c) = 8%nat /\
    length (subgrid c) = 8%nat /\
    length (Mdot_values c) = 8%nat /\
    Forall (fun i => (i < length grid_AB)%nat) (indices_list c) /\
    (forall k x, nth_error (indices_list c) k = Some x ->
       (first_index_of (indices_list c) x k ->
        nth_error (Mdot_values c) k = nth_error (grid_log10Mdot grid_AB) x) /\
       (~ first_index_of (indices_list c) x k ->
        nth_error (Mdot_values c) k = Some ((fun _ : nat => 0) k))) /\
    (NoDup (indices_list c) ->
     forall k x, nth_error (indices_list c) k = Some x ->
       nth_error (Mdot_values c) k = nth_error (grid_log10Mdot grid_AB) x).
Proof.
  assert (Hne : grid_AB <> []) by discriminate.
  split; [exact Hne |].
  apply (Mdot_values_slot_contents (fun _ => 0) grid_AB query_10 Hne).
Defined.

(** X5: the estimator raises [ValueError] on a grid without rows and
    returns on every other grid; what it returns is an entry of the grid's
    log10 mass-loss column, so it lies between any two bounds of that
    column: the estimator never extrapolates. *)
Theorem estimate_is_grid_value (mem : nat -> R) (grid : list grid_row)
    (xi : point) :
  (grid = [] -> photoevap_Mdot mem grid xi = Raise ValueError) /\
  (grid <> [] ->
   exists out,
     photoevap_Mdot mem grid xi = Ok out /\
     In out (grid_log10Mdot grid) /\
     forall lo hi,
       (forall v, In v (grid_log10Mdot grid) -> lo <= v <= hi) ->
       lo <= out <= hi).
Proof.
  split.
  - intros ->. reflexivity.
  - intros Hne.
    destruct (build_candidates_ok mem grid xi Hne) as (c & Hc & _).
    destruct (photoevap_Mdot_value mem grid xi c Hc)
      as (k & row & out & _ & _ & Hout & Hrun).
    assert (Hin : In out (grid_log10Mdot grid))
      by (eapply nth_error_In; eauto).
    exists out. split; [exact Hrun |]. split; [exact Hin |].
    intros lo hi Hb. apply Hb. exact Hin.
Qed.

(** X6: the content of the uninitialised array never reaches the
    estimate: the position reported by the nearest-neighbour query (the
    lowest among equally distant rows) is a slot the fill loop has written,
    so two runs that differ only in the memory handed out for
    [Mdot_values] give the same result. *)
Theorem estimate_ignores_memory (mem mem' : nat -> R) (grid : list grid_row)
    (xi : point) :
  photoevap_Mdot mem grid xi = photoevap_Mdot mem' grid xi.
Proof. exact (photoevap_Mdot_any_memory mem mem' grid xi). Qed.

(** ** Luminosity fit *)

Lemma power_law_increasing (coefficient exponent m1 m2 : R) :
  0 < coefficient -> 0 < exponent -> 0 < m1 < m2 ->
  0 < coefficient * Rpower m1 exponent < coefficient * Rpower m2 exponent.
Proof.
  intros Hc He Hm. split; [apply power_law_pos; exact Hc |].
  apply Rmult_lt_compat_l; [exact Hc |].
  apply Rlt_Rpower_l; assumption.
Qed.

Ltac in_bounds :=
  unfold fit_bounds; cbn [In]; repeat first [left; reflexivity | right].

Lemma bound_not_between (m1 m2 b : R) :
  (forall c, In c fit_bounds -> ~ (m1 <= c <= m2)) ->
  In b fit_bounds -> b < m1 \/ m2 < b.
Proof.
  intros H Hb. destruct (Rlt_dec b m1) as [Hlt | Hge]; [left; exact Hlt |].
  destruct (Rlt_dec m2 b) as [Hlt' | Hge']; [right; exact Hlt' |].
  exfalso. apply (H b Hb). lra.
Qed.

Lemma increasing_on_branch (coefficient exponent m1 m2 : R) :
  (forall m, m1 <= m <= m2 ->
     luminosity_fit m = coefficient * Rpower m exponent) ->
  0 < coefficient -> 0 < exponent -> 0 < m1 < m2 ->
  0 < luminosity_fit m1 < luminosity_fit m2.
Proof.
  intros Hfit Hc He Hm.
  rewrite (Hfit m1), (Hfit m2) by lra.
  apply power_law_increasing; assumption.
Qed.

(** Two masses with no branch bound between them lie in one interval. *)
Lemma same_interval (m1 m2 : R) :
  0.12 < m1 -> m1 < m2 ->
  (forall b, In b fit_bounds -> ~ (m1 <= b <= m2)) ->
  m2 < 0.24 \/ (0.24 < m1 /\ m2 < 0.56) \/ (0.56 < m1 /\ m2 < 0.70) \/
  (0.70 < m1 /\ m2 < 0.91) \/ (0.91 < m1 /\ m2 < 1.37) \/
  (1.37 < m1 /\ m2 < 2.07) \/ (2.07 < m1 /\ m2 < 3.72) \/
  (3.72 < m1 /\ m2 < 10.0) \/ (10.0 < m1 /\ m2 < 20.2) \/ 20.2 < m1.
Proof.
  intros Hlow Hlt Hb.
  destruct (bound_not_between m1 m2 0.24 Hb ltac:(in_bounds)) as [H1 | H1];
    [right | left; exact H1].
  destruct (bound_not_between m1 m2 0.56 Hb ltac:(in_bounds)) as [H2 | H2];
    [right | left; split; assumption].
  destruct (bound_not_between m1 m2 0.70 Hb ltac:(in_bounds)) as [H3 | H3];
    [right | left; split; assumption].
  destruct (bound_not_between m1 m2 0.91 Hb ltac:(in_bounds)) as [H4 | H4];
    [right | left; split; assumption].
  destruct (bound_not_between m1 m2 1.37 Hb ltac:(in_bounds)) as [H5 | H5];
    [right | left; split; assumption].
  destruct (bound_not_between m1 m2 2.07 Hb ltac:(in_bounds)) as [H6 | H6];
    [right | left; split; assumption].
  destruct (bound_not_between m1 m2 3.72 Hb ltac:(in_bounds)) as [H7 | H7];
    [right | left; split; assumption].
  destruct (bound_not_between m1 m2 10.0 Hb ltac:(in_bounds)) as [H8 | H8];
    [right | left; split; assumption].
  destruct (bound_not_between m1 m2 20.2 Hb ltac:(in_bounds)) as [H9 | H9];
    [right; exact H9 | left; split; assumption].
Qed.

(** X7: inside each of its ten open mass intervals the fit is positive and
    strictly increasing: for two masses above 0.12 with no branch bound
    between them (bounds included), the smaller mass has the smaller,
    positive luminosity. *)
Theorem luminosity_fit_increasing (m1 m2 : R) :
  0.12 < m1 -> m1 < m2 ->
  (forall b, In b fit_bounds -> ~ (m1 <= b <= m2)) ->
  0 < luminosity_fit m1 < luminosity_fit m2.
Proof.
  intros Hlow Hlt Hb.
  destruct (same_interval m1 m2 Hlow Hlt Hb)
    as [H | [H | [H | [H | [H | [H | [H | [H | [H | H]]]]]]]]];
    clear Hb.
  - apply (increasing_on_branch 1.70294E16 42.557);
      [intros m Hm; apply luminosity_fit_branches; lra | lra | lra | lra].
  - apply (increasing_on_branch 9.11137E-9 3.8845);
      [intros m Hm; apply luminosity_fit_branches; lra | lra | lra | lra].
  - apply (increasing_on_branch 1.10021E-6 12.237);
      [intros m Hm; apply luminosity_fit_branches; lra | lra | lra | lra].
  - apply (increasing_on_branch 2.38690E-4 27.199);
      [intros m Hm; apply luminosity_fit_branches; lra | lra | lra | lra].
  - apply (increasing_on_branch 1.02477E-4 18.465);
      [intros m Hm; apply luminosity_fit_branches; lra | lra | lra | lra].
  - apply (increasing_on_branch 9.66362E-4 11.410);
      [intros m Hm; apply luminosity_fit_branches; lra | lra | lra | lra].
  - apply (increasing_on_branch 6.49335E-2 5.6147);
      [intros m Hm; apply luminosity_fit_branches; lra | lra | lra | lra].
  - apply (increasing_on_branch 6.99075E-1 3.8058);
      [intros m Hm; apply luminosity_fit_branches; lra | lra | lra | lra].
  - apply (increasing_on_branch 9.73664E0 2.6620);
      [intros m Hm; apply luminosity_fit_branches; lra | lra | lra | lra].
  - apply (increasing_on_branch 1.31175E2 1.7974);
      [intros m Hm; apply luminosity_fit_branches; lra | lra | lra | lra].
Qed.

Lemma luminosity_fit_increasing_witness :
  0.12 < 0.3 /\ 0.3 < 0.5 /\
  (forall b, In b fit_bounds -> ~ (0.3 <= b <= 0.5)) /\
  0 < luminosity_fit 0.3 < luminosity_fit 0.5.
Proof.
  assert (H1 : 0.12 < 0.3) by lra.
  assert (H2 : 0.3 < 0.5) by lra.
  assert (H3 : forall b, In b fit_bounds -> ~ (0.3 <= b <= 0.5))
    by (unfold fit_bounds; cbn [In]; intros b Hb Hin;
        repeat (destruct Hb as [<- | Hb]; [lra |]); exact Hb).
  split; [exact H1 |]. split; [exact H2 |]. split; [exact H3 |].
  apply (luminosity_fit_increasing 0.3 0.5 H1 H2 H3).
Defined.

(** ** Geometry *)

Lemma sum_squares_nonneg (a b c : R) : 0 <= a ^ 2 + b ^ 2 + c ^ 2.
Proof.
  pose proof (pow2_ge_0 a). pose proof (pow2_ge_0 b). pose proof (pow2_ge_0 c).
  lra.
Qed.

Lemma cauchy_schwarz_3 (a b c u v w : R) :
  (a * u + b * v + c * w) ^ 2
  <= (a ^ 2 + b ^ 2 + c ^ 2) * (u ^ 2 + v ^ 2 + w ^ 2).
Proof.
  pose proof (pow2_ge_0 (a * v - b * u)).
  pose proof (pow2_ge_0 (a * w - c * u)).
  pose proof (pow2_ge_0 (b * w - c * v)).
  nra.
Qed.

Lemma norm_triangle (a b c u v w : R) :
  sqrt ((a + u) ^ 2 + (b + v) ^ 2 + (c + w) ^ 2)
  <= sqrt (a ^ 2 + b ^ 2 + c ^ 2) + sqrt (u ^ 2 + v ^ 2 + w ^ 2).
Proof.
  set (A := a ^ 2 + b ^ 2 + c ^ 2). set (B := u ^ 2 + v ^ 2 + w ^ 2).
  assert (HA : 0 <= A) by apply sum_squares_nonneg.
  assert (HB : 0 <= B) by apply sum_squares_nonneg.
  pose proof (sqrt_pos A) as HsA. pose proof (sqrt_pos B) as HsB.
  assert (Hdot : a * u + b * v + c * w <= sqrt A * sqrt B).
  { rewrite <- sqrt_mult_alt by exact HA.
    destruct (Rle_dec (a * u + b * v + c * w) 0) as [Hneg | Hpos].
    - pose proof (sqrt_pos (A * B)). lra.
    - rewrite <- (sqrt_square (a * u + b * v + c * w)) by lra.
      apply sqrt_le_1_alt.
      pose proof (cauchy_schwarz_3 a b c u v w). unfold A, B. lra. }
  rewrite <- (sqrt_square (sqrt A + sqrt B)) by lra.
  apply sqrt_le_1_alt.
  pose proof (sqrt_sqrt A HA). pose proof (sqrt_sqrt B HB).
  unfold A, B in *. nra.
Qed.

(** X8: [distance] is a metric on the positions of the stars: it is never
    negative, it is zero exactly when the two stars are at the same
    position, it does not depend on the order of its arguments, and it
    obeys the triangle inequality. *)
Theorem distance_is_metric (s1 s2 s3 : Star) :
  0 <= distance s1 s2 /\
  (distance s1 s2 = 0 <-> x s1 = x s2 /\ y s1 = y s2 /\ z s1 = z s2) /\
  distance s1 s2 = distance s2 s1 /\
  distance s1 s3 <= distance s1 s2 + distance s2 s3.
Proof.
  unfold distance. split; [apply sqrt_pos |]. split; [| split].
  - split.
    + intros H. apply sqrt_eq_0 in H; [| apply sum_squares_nonneg].
      pose proof (pow2_ge_0 (x s2 - x s1)). pose proof (pow2_ge_0 (y s2 - y s1)).
      pose proof (pow2_ge_0 (z s2 - z s1)).
      assert (Hx : (x s2 - x s1) ^ 2 = 0) by lra.
      assert (Hy : (y s2 - y s1) ^ 2 = 0) by lra.
      assert (Hz : (z s2 - z s1) ^ 2 = 0) by lra.
      apply square_zero in Hx. apply square_zero in Hy.
      apply square_zero in Hz. lra.
    + intros (Hx & Hy & Hz). rewrite Hx, Hy, Hz.
      replace ((x s2 - x s2) ^ 2 + (y s2 - y s2) ^ 2 + (z s2 - z s2) ^ 2)
        with 0 by ring.
      apply sqrt_0.
  - f_equal. ring.
  - replace (x s3 - x s1) with ((x s2 - x s1) + (x s3 - x s2)) by ring.
    replace (y s3 - y s1) with ((y s2 - y s1) + (y s3 - y s2)) by ring.
    replace (z s3 - z s1) with ((z s2 - z s1) + (z s3 - z s2)) by ring.
    apply norm_triangle.
Qed.

(** X9: [radiation_at_distance] follows the inverse-square law: for a
    positive luminosity the flux is a positive real at every non-zero
    distance, strictly smaller at the larger of two positive distances, and
    divided by [k ^ 2] when the distance is multiplied by [k]; at distance
    zero it is the positive infinity. *)
Theorem radiation_inverse_square (rad : R) :
  0 < rad ->
  (forall d, d <> 0 ->
     exists f, radiation_at_distance rad d = Finite f /\ 0 < f) /\
  (forall d1 d2, 0 < d1 < d2 ->
     exists f1 f2,
       radiation_at_distance rad d1 = Finite f1 /\
       radiation_at_distance rad d2 = Finite f2 /\
       f2 < f1) /\
  (forall d k, d <> 0 -> k <> 0 ->
     exists f,
       radiation_at_distance rad d = Finite f /\
       radiation_at_distance rad (k * d) = Finite (f / k ^ 2)) /\
  radiation_at_distance rad 0 = PosInf.
Proof.
  intros Hrad. pose proof PI_RGT_0 as Hpi.
  split; [| split; [| split]].
  - intros d Hd. eexists.
    split; [apply radiation_at_distance_finite; exact Hd |].
    apply Rdiv_lt_0_compat; [exact Hrad | apply sphere_area_pos; exact Hd].
  - intros d1 d2 [H1 H2]. eexists. eexists.
    split; [apply radiation_at_distance_finite; lra |].
    split; [apply radiation_at_distance_finite; lra |].
    unfold Rdiv. apply Rmult_lt_compat_l; [exact Hrad |].
    apply Rinv_lt_contravar.
    + assert (0 < 4 * PI * d1 ^ 2) by (apply sphere_area_pos; lra).
      assert (0 < 4 * PI * d2 ^ 2) by (apply sphere_area_pos; lra). nra.
    + assert (d1 ^ 2 < d2 ^ 2) by nra. nra.
  - intros d k Hd Hk. eexists.
    split; [apply radiation_at_distance_finite; exact Hd |].
    rewrite radiation_at_distance_finite
      by (apply Rmult_integral_contrapositive_currified; assumption).
    f_equal. field. repeat split; try assumption. lra.
  - rewrite radiation_at_no_distance. unfold signed_inf.
    rewrite Reqb_false by lra. rewrite Rltb_true by exact Hrad. reflexivity.
Qed.

Lemma radiation_inverse_square_witness :
  0 < 5 /\
  exists f,
    radiation_at_distance 5 10 = Finite f /\
    radiation_at_distance 5 (2 * 10) = Finite (f / 2 ^ 2).
Proof.
  assert (H : 0 < 5) by lra.
  split; [exact H |].
  apply (proj1 (proj2 (proj2 (radiation_inverse_square 5 H)))); lra.
Defined.

(** ** Disk-radius updater *)

Lemma radius_finite_value (U : amuse_units) (star : Star)
    (mass R_char M : R) :
  disk_radius star = Some R_char ->
  disk_mass star = Some M ->
  0 < M * MJupiter_per_MSun U ->
  0 <= mass * MJupiter_per_MSun U < M * MJupiter_per_MSun U ->
  radius_containing_mass U star mass =
  Ok (Finite
        (R_char *
         ln (1 / (1 - mass * MJupiter_per_MSun U
                      / (M * MJupiter_per_MSun U))))).
Proof.
  intros HR HM HMpos Hin.
  unfold radius_containing_mass. rewrite HR, HM. cbn [bind attribute].
  destruct (ratio_below_one _ _ HMpos Hin) as [Hr0 Hr1].
  cbn [np_div]. rewrite Reqb_false by lra. cbn [np_sub np_div].
  rewrite Reqb_false by lra. cbn [np_log].
  assert (Hinv : 0 < 1 / (1 - mass * MJupiter_per_MSun U
                            / (M * MJupiter_per_MSun U)))
    by (unfold Rdiv at 1; rewrite Rmult_1_l; apply Rinv_0_lt_compat; lra).
  rewrite Rltb_true by exact Hinv. reflexivity.
Qed.

(** X10: for a disk with positive characteristic radius and positive
    total mass, the radius returned for an enclosed mass below the total is
    finite and non-negative, it is zero for no enclosed mass, it grows
    strictly with the enclosed mass, and it inverts the exponential
    profile: [M_total * (1 - exp (- r / R_char))] is the enclosed mass. *)
Theorem radius_inverts_profile (U : amuse_units) (star : Star)
    (R_char M : R) :
  disk_radius star = Some R_char ->
  disk_mass star = Some M ->
  0 < R_char ->
  0 < M * MJupiter_per_MSun U ->
  radius_containing_mass U star 0 = Ok (Finite 0) /\
  (forall mass,
     0 <= mass * MJupiter_per_MSun U < M * MJupiter_per_MSun U ->
     exists r,
       radius_containing_mass U star mass = Ok (Finite r) /\
       0 <= r /\
       M * MJupiter_per_MSun U * (1 - exp (- r / R_char))
       = mass * MJupiter_per_MSun U) /\
  (forall mass1 mass2,
     0 <= mass1 * MJupiter_per_MSun U ->
     mass1 * MJupiter_per_MSun U < mass2 * MJupiter_per_MSun U ->
     mass2 * MJupiter_per_MSun U < M * MJupiter_per_MSun U ->
     exists r1 r2,
       radius_containing_mass U star mass1 = Ok (Finite r1) /\
       radius_containing_mass U star mass2 = Ok (Finite r2) /\
       r1 < r2).
Proof.
  intros HR HM HRpos HMpos.
  pose proof (radius_finite_value U star) as Hval.
  remember (MJupiter_per_MSun U) as c eqn:Hc_def. clear Hc_def.
  assert (Hln : forall mass, 0 <= mass * c < M * c ->
            0 < 1 - mass * c / (M * c) <= 1 /\
            ln (1 / (1 - mass * c / (M * c)))
            = - ln (1 - mass * c / (M * c))).
  { intros mass Hin. destruct (ratio_below_one _ _ HMpos Hin) as [H0 H1].
    split; [lra |]. unfold Rdiv at 1. rewrite Rmult_1_l.
    apply ln_Rinv. lra. }
  split; [| split].
  - rewrite (Hval 0 R_char M HR HM HMpos) by lra.
    replace (0 * c / (M * c)) with 0 by (unfold Rdiv; ring).
    replace (1 / (1 - 0)) with 1 by (field; lra).
    rewrite ln_1. do 2 f_equal. ring.
  - intros mass Hin. destruct (Hln mass Hin) as [[Hd0 Hd1] Heq].
    exists (R_char * ln (1 / (1 - mass * c / (M * c)))).
    split; [apply (Hval mass R_char M HR HM HMpos Hin) |].
    rewrite Heq. split.
    + assert (ln (1 - mass * c / (M * c)) <= 0).
      { destruct Hd1 as [Hlt | E]; [| rewrite E, ln_1; lra].
        pose proof (ln_increasing _ _ Hd0 Hlt) as Hl. rewrite ln_1 in Hl. lra. }
      nra.
    + replace (- (R_char * - ln (1 - mass * c / (M * c))) / R_char)
        with (ln (1 - mass * c / (M * c))) by (field; lra).
      rewrite exp_ln by exact Hd0.
      replace (M * c * (1 - (1 - mass * c / (M * c))))
        with (mass * c * (M * c * / (M * c))) by (unfold Rdiv; ring).
      rewrite Rinv_r by lra. ring.
  - intros mass1 mass2 H0 H12 H2M.
    assert (Hin1 : 0 <= mass1 * c < M * c) by lra.
    assert (Hin2 : 0 <= mass2 * c < M * c) by lra.
    destruct (Hln mass1 Hin1) as [[Hd1 _] Heq1].
    destruct (Hln mass2 Hin2) as [[Hd2 _] Heq2].
    exists (R_char * ln (1 / (1 - mass1 * c / (M * c)))),
           (R_char * ln (1 / (1 - mass2 * c / (M * c)))).
    split; [apply (Hval mass1 R_char M HR HM HMpos Hin1) |].
    split; [apply (Hval mass2 R_char M HR HM HMpos Hin2) |].
    rewrite Heq1, Heq2.
    assert (Hratio : mass1 * c / (M * c) < mass2 * c / (M * c)).
    { unfold Rdiv. apply Rmult_lt_compat_r; [| exact H12].
      apply Rinv_0_lt_compat. exact HMpos. }
    assert (Hl : ln (1 - mass2 * c / (M * c)) < ln (1 - mass1 * c / (M * c)))
      by (apply ln_increasing; lra).
    nra.
Qed.

Lemma radius_inverts_profile_witness :
  disk_radius (mk_star 0 0 0 1 (Some 0.1) (Some 100)) = Some 100 /\
  disk_mass (mk_star 0 0 0 1 (Some 0.1) (Some 100)) = Some 0.1 /\
  0 < 100 /\
  0 < 0.1 * MJupiter_per_MSun (mk_units 1000 1) /\
  radius_containing_mass (mk_units 1000 1)
    (mk_star 0 0 0 1 (Some 0.1) (Some 100)) 0 = Ok (Finite 0).
Proof.
  assert (H1 : disk_radius (mk_star 0 0 0 1 (Some 0.1) (Some 100)) = Some 100)
    by reflexivity.
  assert (H2 : disk_mass (mk_star 0 0 0 1 (Some 0.1) (Some 100)) = Some 0.1)
    by reflexivity.
  assert (H3 : 0 < 100) by lra.
  assert (H4 : 0 < 0.1 * MJupiter_per_MSun (mk_units 1000 1))
    by (cbn [MJupiter_per_MSun]; lra).
  repeat (split; [assumption |]).
  exact (proj1 (radius_inverts_profile (mk_units 1000 1)
                  (mk_star 0 0 0 1 (Some 0.1) (Some 100)) 100 0.1
                  H1 H2 H3 H4)).
Defined.

(** X11: for a star whose disk mass is zero, as the driver sets it for
    every bright star, the result is never a finite number, whatever mass
    is asked for. *)
Theorem radius_of_massless_disk (U : amuse_units) (star : Star)
    (mass R_char : R) :
  disk_radius star = Some R_char ->
  disk_mass star = Some 0 ->
  exists v, radius_containing_mass U star mass = Ok v /\ is_finite v = false.
Proof.
  intros HR HM. unfold radius_containing_mass. rewrite HR, HM.
  cbn [bind attribute]. rewrite Rmult_0_l. cbn [np_div].
  rewrite Reqb_true by reflexivity.
  assert (Hlog0 : np_log (Finite 0) = NegInf).
  { cbn [np_log]. rewrite Rltb_false by lra.
    rewrite Reqb_true by reflexivity. reflexivity. }
  assert (Hmul : forall r, is_finite (np_mul (Finite r) NegInf) = false).
  { intros r. cbn [np_mul]. unfold signed_inf.
    destruct (Reqb r 0); [reflexivity |]. destruct (Rltb 0 r); reflexivity. }
  unfold signed_inf at 1.
  destruct (Req_dec_T (mass * MJupiter_per_MSun U) 0) as [E | N].
  - rewrite Reqb_true by exact E. cbn [np_sub np_div np_log np_mul].
    exists NaN. split; reflexivity.
  - rewrite Reqb_false by exact N.
    destruct (Rltb 0 (mass * MJupiter_per_MSun U));
      cbn [np_sub np_div]; rewrite Hlog0; eexists; split;
        try reflexivity; apply Hmul.
Qed.

Lemma radius_of_massless_disk_witness :
  disk_radius (mk_star 0 0 0 5 (Some 0) (Some 0)) = Some 0 /\
  disk_mass (mk_star 0 0 0 5 (Some 0) (Some 0)) = Some 0 /\
  exists v,
    radius_containing_mass (mk_units 1000 1)
      (mk_star 0 0 0 5 (Some 0) (Some 0)) 0.01 = Ok v /\
    is_finite v = false.
Proof.
  assert (H1 : disk_radius (mk_star 0 0 0 5 (Some 0) (Some 0)) = Some 0)
    by reflexivity.
  assert (H2 : disk_mass (mk_star 0 0 0 5 (Some 0) (Some 0)) = Some 0)
    by reflexivity.
  split; [exact H1 |]. split; [exact H2 |].
  apply (radius_of_massless_disk (mk_units 1000 1)
           (mk_star 0 0 0 5 (Some 0) (Some 0)) 0.01 0 H1 H2).
Defined.

(** ** Populations and disks *)

Lemma select_from_NoDup (mask : Star -> bool) (particles : list Star) :
  forall k0, NoDup (select_from k0 mask particles).
Proof.
  induction particles as [| a rest IH]; intros k0; simpl; [constructor |].
  destruct (mask a); [| apply IH].
  constructor; [| apply IH].
  intros H. apply select_from_In in H. destruct H as (s & Hle & _). lia.
Qed.

(** X12: the two populations split the particle set by mass: no particle
    is in both, every particle is bright (above 1.9 MSun), small (below
    1.9 MSun) or of exactly 1.9 MSun, the members are positions of the set,
    and each loop visits a member once. *)
Theorem populations_split_by_mass (particles : list Star) :
  (forall k, In k (bright_stars particles) ->
             ~ In k (small_stars particles)) /\
  (forall k s, nth_error particles k = Some s ->
     (In k (bright_stars particles) <-> 1.9 < stellar_mass s) /\
     (In k (small_stars particles) <-> stellar_mass s < 1.9)) /\
  (forall k, In k (bright_stars particles) \/ In k (small_stars particles) ->
             (k < length particles)%nat) /\
  NoDup (bright_stars particles) /\
  NoDup (small_stars particles).
Proof.
  split; [| split; [| split; [| split]]].
  - intros k Hb Hs. apply bright_stars_In in Hb. apply small_stars_In in Hs.
    destruct Hb as (s & Hs1 & Hgt). destruct Hs as (s' & Hs2 & Hlt).
    assert (s' = s) by congruence. subst s'. lra.
  - intros k s Hk. split.
    + rewrite bright_stars_In. split.
      * intros (s' & Hs' & Hgt). assert (s' = s) by congruence. subst s'.
        exact Hgt.
      * intros Hgt. exists s. auto.
    + rewrite small_stars_In. split.
      * intros (s' & Hs' & Hlt). assert (s' = s) by congruence. subst s'.
        exact Hlt.
      * intros Hlt. exists s. auto.
  - intros k [H | H];
      [apply bright_stars_In in H | apply small_stars_In in H];
      destruct H as (s & Hs & _); apply nth_error_Some; congruence.
  - apply select_from_NoDup.
  - apply select_from_NoDup.
Qed.

(** X13: the four disk assignments give every small star a disk of a tenth
    of its stellar mass and of radius [100 * sqrt m] AU, give every bright
    star a disk of mass 0 and radius 0, and change neither the position nor
    the stellar mass of any particle. *)
Theorem assign_disks_values (particles : list Star) (k : nat) (s : Star) :
  nth_error particles k = Some s ->
  exists s',
    nth_error (assign_disks particles) k = Some s' /\
    x s' = x s /\ y s' = y s /\ z s' = z s /\
    stellar_mass s' = stellar_mass s /\
    (1.9 < stellar_mass s ->
     disk_mass s' = Some 0 /\ disk_radius s' = Some 0) /\
    (stellar_mass s < 1.9 ->
     disk_mass s' = Some (0.1 * stellar_mass s) /\
     disk_radius s' = Some (100 * sqrt (stellar_mass s))).
Proof.
  intros Hk.
  assert (Hb : mem_nat k (bright_stars particles) = true ->
               1.9 < stellar_mass s).
  { intros Eb. apply mem_nat_In in Eb. apply bright_stars_In in Eb.
    destruct Eb as (s1 & H1 & Hgt). assert (s1 = s) by congruence.
    subst s1. exact Hgt. }
  assert (Hs : mem_nat k (small_stars particles) = true ->
               stellar_mass s < 1.9).
  { intros Es. apply mem_nat_In in Es. apply small_stars_In in Es.
    destruct Es as (s1 & H1 & Hlt). assert (s1 = s) by congruence.
    subst s1. exact Hlt. }
  assert (Hb' : 1.9 < stellar_mass s ->
                mem_nat k (bright_stars particles) = true).
  { intros Hgt. apply mem_nat_In. apply bright_stars_In. exists s. auto. }
  assert (Hs' : stellar_mass s < 1.9 ->
                mem_nat k (small_stars particles) = true).
  { intros Hlt. apply mem_nat_In. apply small_stars_In. exists s. auto. }
  unfold assign_disks. rewrite !assign_nth, Hk. cbn [option_map].
  destruct (mem_nat k (bright_stars particles)) eqn:Eb;
    destruct (mem_nat k (small_stars particles)) eqn:Es;
    destruct s as [px py pz m [dm |] [dr |]];
    cbn [stellar_mass] in Hb, Hs, Hb', Hs';
    eexists; (split; [reflexivity |]);
    cbn [set_disk_mass set_disk_radius new_disk_mass new_disk_radius
         x y z stellar_mass disk_mass disk_radius];
    repeat (split; [reflexivity |]);
    (split; intros Hcmp;
     [try (specialize (Hs eq_refl); exfalso; lra);
      try (specialize (Hb' Hcmp); discriminate Hb');
      split; reflexivity
     |try (specialize (Hb eq_refl); exfalso; lra);
      try (specialize (Hs' Hcmp); discriminate Hs');
      split; reflexivity]).
Qed.

Lemma assign_disks_values_witness :
  nth_error sample_cluster 1 = Some (mk_star (10 ^ 16) 0 0 0.3 None None) /\
  exists s',
    nth_error (assign_disks sample_cluster) 1 = Some s' /\
    x s' = x (mk_star (10 ^ 16) 0 0 0.3 None None) /\
    y s' = y (mk_star (10 ^ 16) 0 0 0.3 None None) /\
    z s' = z (mk_star (10 ^ 16) 0 0 0.3 None None) /\
    stellar_mass s' = stellar_mass (mk_star (10 ^ 16) 0 0 0.3 None None) /\
    (1.9 < stellar_mass (mk_star (10 ^ 16) 0 0 0.3 None None) ->
     disk_mass s' = Some 0 /\ disk_radius s' = Some 0) /\
    (stellar_mass (mk_star (10 ^ 16) 0 0 0.3 None None) < 1.9 ->
     disk_mass s' =
       Some (0.1 * stellar_mass (mk_star (10 ^ 16) 0 0 0.3 None None)) /\
     disk_radius s' =
       Some (100 * sqrt (stellar_mass (mk_star (10 ^ 16) 0 0 0.3 None None)))).
Proof.
  assert (Hk : nth_error sample_cluster 1 =
               Some (mk_star (10 ^ 16) 0 0 0.3 None None)) by reflexivity.
  split; [exact Hk |].
  apply (assign_disks_values sample_cluster 1
           (mk_star (10 ^ 16) 0 0 0.3 None None) Hk).
Defined.

(** ** The run *)

(** Once the remaining time fits in [n] steps of the current size, [n]
    passes bring the clock to [t_end]. *)
Lemma while_loop_reaches_end (U : amuse_units) (W : collaborators)
    (grid : list grid_row) (t_end : R) (particles : list Star) :
  grid <> [] ->
  never_meet W particles ->
  forall n st,
    fits particles st ->
    apart (bright_stars particles) (small_stars particles) (stars st) ->
    0 < dt st -> time st <= t_end ->
    t_end - time st <= INR n * dt st ->
    exists st',
      while_loop n U W grid t_end (bright_stars particles)
        (small_stars particles) st = Ok st' /\
      time st' = t_end /\ (iteration st' <= iteration st + n)%nat.
Proof.
  intros Hgrid Hmeet. induction n as [| n IH]; intros st Hfits Hfar Hdt Hle Hfit.
  - exists st. simpl in Hfit. split; [reflexivity |]. split; [lra | lia].
  - cbn [while_loop]. destruct (Rlt_dec (time st) t_end) as [Hlt | Hge].
    + rewrite Rltb_true by exact Hlt.
      destruct (loop_body_ok U W grid t_end particles Hgrid Hmeet st
                  (conj Hfits Hfar))
        as (st1 & Hbody & Hfits1 & Hfar1).
      destruct (loop_body_inv _ _ _ _ _ _ _ _ Hbody) as (Etime & Edt & _ & Eit).
      assert (Hdt1 : 0 < dt st1)
        by (rewrite Edt; apply Rmin_glb_lt; lra).
      rewrite Hbody. cbn [bind].
      destruct (IH st1 Hfits1 Hfar1 Hdt1) as (st' & Hrun & Hend & Hit).
      * rewrite Etime. pose proof (Rmin_r (dt st) (t_end - time st)). lra.
      * rewrite S_INR in Hfit. pose proof (pos_INR n) as Hn.
        rewrite Etime. rewrite Edt in *.
        unfold Rmin in *. destruct (Rle_dec (dt st) (t_end - time st)); nra.
      * exists st'. split; [exact Hrun |]. split; [exact Hend | lia].
    + rewrite Rltb_false by lra.
      exists st. split; [reflexivity |]. split; [lra | lia].
Qed.

Lemma enough_steps (t_end step : R) :
  0 < step -> exists n, t_end <= INR n * step.
Proof.
  intros Hstep. destruct (INR_archimed step t_end) as (n & Hn); [lra |].
  exists n. lra.
Qed.

(** X14: the loop terminates on a grid file with two data lines or more,
    for a cluster with a bright star none of whose small stars is ever at
    the place of a bright star, and with a positive time step: as soon as
    [n] steps of the initial size cover [t_end], [n] passes end with the
    clock exactly at [t_end], after at most [n] passes of the body, and
    further passes change nothing; such an [n] exists for every [t_end]. *)
Theorem main_loop_terminates (U : amuse_units) (W : collaborators)
    (grid : list grid_row) (t_end : R) (particles : list Star) :
  (2 <= length grid)%nat ->
  bright_stars particles <> [] ->
  never_meet W particles ->
  0 < time_step_amin W ->
  0 <= t_end ->
  (exists n, t_end <= INR n * time_step_amin W) /\
  forall n, t_end <= INR n * time_step_amin W ->
    exists st,
      main_loop n U W grid t_end particles = Ok st /\
      time st = t_end /\
      (iteration st <= n)%nat /\
      forall k, main_loop (n + k) U W grid t_end particles = Ok st.
Proof.
  intros Hgrid _ Hmeet Hstep Hend.
  split; [apply enough_steps; exact Hstep |].
  intros n Hn.
  destruct (while_loop_reaches_end U W grid t_end particles
              (two_rows_nonempty grid Hgrid) Hmeet n
              (initial_state W particles) (initial_state_fits W particles))
    as (st & Hrun & Htime & Hit).
  - cbn [stars initial_state]. apply apart_assign_disks. apply Hmeet.
  - exact Hstep.
  - exact Hend.
  - cbn [time dt initial_state]. lra.
  - exists st. rewrite main_loop_loaded by exact Hgrid.
    split; [exact Hrun |]. split; [exact Htime |].
    split; [exact Hit |].
    intros k. rewrite main_loop_loaded by exact Hgrid.
    rewrite while_loop_add, Hrun. cbn [bind].
    apply while_loop_done. lra.
Qed.

Lemma main_loop_terminates_witness :
  (2 <= length two_row_grid)%nat /\
  bright_stars sample_cluster <> [] /\
  never_meet sample_collaborators sample_cluster /\
  0 < time_step_amin sample_collaborators /\
  0 <= 6000 /\
  6000 <= INR 3 * time_step_amin sample_collaborators /\
  exists st,
    main_loop 3 sample_units sample_collaborators two_row_grid 6000
      sample_cluster = Ok st /\
    time st = 6000 /\
    (iteration st <= 3)%nat /\
    forall k,
      main_loop (3 + k) sample_units sample_collaborators two_row_grid 6000
        sample_cluster = Ok st.
Proof.
  assert (Hgrid : (2 <= length two_row_grid)%nat) by (simpl; lia).
  pose proof sample_cluster_has_bright as Hbright.
  pose proof sample_cluster_never_meet as Hmeet.
  assert (Hstep : 0 < time_step_amin sample_collaborators)
    by (cbn [time_step_amin sample_collaborators]; lra).
  assert (Hend : 0 <= 6000) by lra.
  assert (Hn : 6000 <= INR 3 * time_step_amin sample_collaborators)
    by (cbn [time_step_amin sample_collaborators INR]; lra).
  repeat (split; [assumption |]).
  apply (proj2 (main_loop_terminates sample_units sample_collaborators
                  two_row_grid 6000 sample_cluster Hgrid Hbright Hmeet Hstep
                  Hend) 3%nat Hn).
Defined.

(** The body has run at most once per pass. *)
Lemma while_loop_iterations (U : amuse_units) (W : collaborators)
    (grid : list grid_row) (t_end : R) (bright small : list nat) :
  forall n st st',
    while_loop n U W grid t_end bright small st = Ok st' ->
    (iteration st' <= iteration st + n)%nat.
Proof.
  induction n as [| n IH]; intros st st' Hrun.
  - simpl in Hrun. injection Hrun as <-. lia.
  - cbn [while_loop] in Hrun.
    destruct (Rltb (time st) t_end).
    + destruct (loop_body U W grid t_end bright small st) as [s1 | e] eqn:Hb;
        cbn [bind] in Hrun; [| discriminate].
      destruct (loop_body_inv _ _ _ _ _ _ _ _ Hb) as (_ & _ & _ & Ei).
      specialize (IH s1 st' Hrun). lia.
    + injection Hrun as <-. lia.
Qed.

(** X15: the clock never passes [t_end] and the time step never grows:
    after any number of passes that return, the time lies between 0 and
    [t_end], the step is positive and at most the step the stellar-evolution
    code suggested at the start, and the body has run at most once per
    pass.  The passes do return on a grid file with two data lines or more,
    for a cluster with a bright star none of whose small stars is ever at
    the place of a bright star. *)
Theorem clock_stays_in_range (U : amuse_units) (W : collaborators)
    (grid : list grid_row) (t_end : R) (particles : list Star) :
  0 < time_step_amin W ->
  0 <= t_end ->
  (forall n st,
     main_loop n U W grid t_end particles = Ok st ->
     0 <= time st <= t_end /\
     0 < dt st <= time_step_amin W /\
     (iteration st <= n)%nat) /\
  ((2 <= length grid)%nat ->
   bright_stars particles <> [] ->
   never_meet W particles ->
   forall n, exists st, main_loop n U W grid t_end particles = Ok st).
Proof.
  intros Hstep Hend. split.
  - intros n st Hrun.
    assert (HP : (0 <= time st <= t_end /\ 0 < dt st <= time_step_amin W)).
    { apply (main_loop_invariant U W grid t_end particles
               (fun s => 0 <= time s <= t_end /\
                         0 < dt s <= time_step_amin W))
        with (n := n); [| | exact Hrun].
      - cbn [time dt initial_state]. lra.
      - intros s s' [Ht Hd] Hlt Hb.
        destruct (loop_body_inv _ _ _ _ _ _ _ _ Hb) as (Et & Ed & _).
        rewrite Et, Ed.
        pose proof (Rmin_l (dt s) (t_end - time s)).
        pose proof (Rmin_r (dt s) (t_end - time s)).
        assert (0 < Rmin (dt s) (t_end - time s))
          by (apply Rmin_glb_lt; lra).
        lra. }
    split; [apply HP |]. split; [apply HP |].
    destruct (main_loop_inv _ _ _ _ _ _ _ Hrun) as (_ & Hloop).
    apply (while_loop_iterations _ _ _ _ _ _ _ _ _ Hloop).
  - intros Hgrid _ Hmeet n.
    destruct (main_loop_returns U W grid t_end particles n Hgrid Hmeet)
      as (st & Hrun & _).
    exists st. exact Hrun.
Qed.

Lemma clock_stays_in_range_witness :
  0 < time_step_amin sample_collaborators /\
  0 <= 6000 /\
  forall n, exists st,
    main_loop n sample_units sample_collaborators two_row_grid 6000
      sample_cluster = Ok st /\
    0 <= time st <= 6000 /\
    0 < dt st <= time_step_amin sample_collaborators /\
    (iteration st <= n)%nat.
Proof.
  assert (Hstep : 0 < time_step_amin sample_collaborators)
    by (cbn [time_step_amin sample_collaborators]; lra).
  assert (Hend : 0 <= 6000) by lra.
  repeat (split; [assumption |]).
  destruct (clock_stays_in_range sample_units sample_collaborators
              two_row_grid 6000 sample_cluster Hstep Hend) as [Hinv Hret].
  intros n.
  destruct (Hret ltac:(simpl; lia) sample_cluster_has_bright
              sample_cluster_never_meet n) as (st & Hrun).
  exists st. split; [exact Hrun | exact (Hinv n st Hrun)].
Defined.

Lemma copy_positions_keeps_attributes (xyz : nat -> R * R * R)
    (particles : list Star) (k : nat) (s : Star) :
  nth_error (copy_positions xyz particles) k = Some s ->
  exists s0,
    nth_error particles k = Some s0 /\
    stellar_mass s = stellar_mass s0 /\
    disk_mass s = disk_mass s0 /\ disk_radius s = disk_radius s0.
Proof.
  rewrite copy_positions_nth.
  destruct (nth_error particles k) as [s0 |]; [| discriminate].
  simpl. intros H. injection H as <-. exists s0.
  destruct (xyz k) as [[px py] pz]. repeat split.
Qed.

Lemma attributes_kept (U : amuse_units) (W : collaborators)
    (grid : list grid_row) (t_end : R) (particles : list Star)
    (n : nat) (st : loop_state) :
  main_loop n U W grid t_end particles = Ok st ->
  forall k s, nth_error (stars st) k = Some s ->
    exists s0,
      nth_error (assign_disks particles) k = Some s0 /\
      stellar_mass s = stellar_mass s0 /\
      disk_mass s = disk_mass s0 /\ disk_radius s = disk_radius s0.
Proof.
  intros Hrun.
  apply (main_loop_invariant U W grid t_end particles
           (fun st =>
              forall k s, nth_error (stars st) k = Some s ->
                exists s0,
                  nth_error (assign_disks particles) k = Some s0 /\
                  stellar_mass s = stellar_mass s0 /\
                  disk_mass s = disk_mass s0 /\
                  disk_radius s = disk_radius s0))
    with (n := n); [| | exact Hrun].
  - intros k s Hk. exists s. cbn [stars initial_state] in Hk.
    repeat split; auto.
  - intros s1 s2 HP _ Hb k s Hk.
    destruct (loop_body_inv _ _ _ _ _ _ _ _ Hb) as (_ & _ & Es & _).
    rewrite Es in Hk.
    destruct (copy_positions_keeps_attributes _ _ _ _ Hk)
      as (s' & Hs' & E1 & E2 & E3).
    destruct (HP k s' Hs') as (s0 & Hs0 & F1 & F2 & F3).
    exists s0. split; [exact Hs0 |]. repeat split; congruence.
Qed.

(** X16: the loop moves the stars and nothing else: after any number of
    passes that return, every particle still has the stellar mass, the disk
    mass and the disk radius it had when the loop was entered; the
    accumulated mass loss is never taken off a disk.  The passes do return
    on a grid file with two data lines or more, for a cluster with a bright
    star none of whose small stars is ever at the place of a bright
    star. *)
Theorem disks_unchanged_by_loop (U : amuse_units) (W : collaborators)
    (grid : list grid_row) (t_end : R) (particles : list Star) :
  (forall n st,
     main_loop n U W grid t_end particles = Ok st ->
     length (stars st) = length particles /\
     forall k s, nth_error (stars st) k = Some s ->
       exists s0,
         nth_error (assign_disks particles) k = Some s0 /\
         stellar_mass s = stellar_mass s0 /\
         disk_mass s = disk_mass s0 /\ disk_radius s = disk_radius s0) /\
  ((2 <= length grid)%nat ->
   bright_stars particles <> [] ->
   never_meet W particles ->
   forall n, exists st, main_loop n U W grid t_end particles = Ok st).
Proof.
  split.
  - intros n st Hrun.
    split; [apply (main_loop_fits _ _ _ _ _ _ _ Hrun) |].
    exact (attributes_kept U W grid t_end particles n st Hrun).
  - intros Hgrid _ Hmeet n.
    destruct (main_loop_returns U W grid t_end particles n Hgrid Hmeet)
      as (st & Hrun & _).
    exists st. exact Hrun.
Qed.

Lemma disks_unchanged_by_loop_witness :
  (2 <= length two_row_grid)%nat /\
  bright_stars sample_cluster <> [] /\
  never_meet sample_collaborators sample_cluster /\
  forall n, exists st,
    main_loop n sample_units sample_collaborators two_row_grid 6000
      sample_cluster = Ok st /\
    length (stars st) = length sample_cluster /\
    forall k s, nth_error (stars st) k = Some s ->
      exists s0,
        nth_error (assign_disks sample_cluster) k = Some s0 /\
        stellar_mass s = stellar_mass s0 /\
        disk_mass s = disk_mass s0 /\ disk_radius s = disk_radius s0.
Proof.
  assert (Hgrid : (2 <= length two_row_grid)%nat) by (simpl; lia).
  pose proof sample_cluster_has_bright as Hbright.
  pose proof sample_cluster_never_meet as Hmeet.
  repeat (split; [assumption |]).
  destruct (disks_unchanged_by_loop sample_units sample_collaborators
              two_row_grid 6000 sample_cluster) as [Hinv Hret].
  intros n.
  destruct (Hret Hgrid Hbright Hmeet n) as (st & Hrun).
  exists st. split; [exact Hrun | exact (Hinv n st Hrun)].
Defined.

(** ** Exceptions of the run *)









(** X18: as soon as the cluster has one bright star and the loop runs at
    all, every small star has lost mass: on a grid file with two data lines
    or more, and when no small star is ever at the place of a bright star,
    after one pass or more every slot of the accumulator is strictly
    positive, whatever the luminosity of the bright stars, zero included,
    and however far away they are. *)
Theorem bright_star_costs_every_disk (U : amuse_units) (W : collaborators)
    (grid : list grid_row) (t_end : R) (particles : list Star) :
  (2 <= length grid)%nat ->
  never_meet W particles ->
  0 < time_step_amin W ->
  0 < t_end ->
  bright_stars particles <> [] ->
  forall n, exists st,
    main_loop (S n) U W grid t_end particles = Ok st /\
    length (time_total_mass_loss st) = length (small_stars particles) /\
    Forall (fun u => 0 < u) (time_total_mass_loss st).
Proof.
  intros Hgrid Hmeet Hstep Hend Hbright n.
  destruct (main_loop_returns U W grid t_end particles 1 Hgrid Hmeet)
    as (st1 & Hrun1 & _).
  destruct (main_loop_returns U W grid t_end particles (S n) Hgrid Hmeet)
    as (st & Hrun & _).
  exists st. split; [exact Hrun |].
  pose proof (main_loop_fits _ _ _ _ _ _ _ Hrun) as (_ & _ & Hacc).
  pose proof (main_loop_fits _ _ _ _ _ _ _ Hrun1) as (_ & _ & Hacc1).
  split; [exact Hacc |].
  (* the first pass raises every slot above zero *)
  assert (Hbody : loop_body U W grid t_end (bright_stars particles)
                    (small_stars particles) (initial_state W particles)
                  = Ok st1).
  { rewrite main_loop_loaded in Hrun1 by exact Hgrid.
    rewrite <- Hrun1. symmetry.
    apply (while_loop_next U W grid t_end _ _ 0 (initial_state W particles));
      [reflexivity | cbn [time initial_state]; exact Hend]. }
  assert (Hdt1 : 0 < dt st1).
  { destruct (loop_body_inv _ _ _ _ _ _ _ _ Hbody) as (_ & Ed & _).
    rewrite Ed. cbn [time dt initial_state]. apply Rmin_glb_lt; lra. }
  assert (Hfirst : forall k v,
            nth_error (time_total_mass_loss st1) k = Some v -> 0 < v).
  { intros k v Hk.
    assert (Hklt : (k < length (small_stars particles))%nat)
      by (rewrite <- Hacc1; apply nth_error_Some; congruence).
    destruct (nth_error (small_stars particles) k) as [pos |] eqn:Hpos;
      [| apply nth_error_None in Hpos; lia].
    assert (Hzero : nth_error
                      (time_total_mass_loss (initial_state W particles)) k
                    = Some 0).
    { cbn [time_total_mass_loss initial_state].
      rewrite nth_error_repeat by exact Hklt. reflexivity. }
    destruct (loop_body_adds _ _ _ _ _ _ _ _ k pos 0 Hbody Hpos Hzero)
      as (estimates & Hall & Hnew).
    assert (Hne : estimates <> []).
    { intros E. rewrite E in Hall. inversion Hall. congruence. }
    pose proof (total_loss_pos (dt st1) estimates Hdt1 Hne).
    assert (v = 0 + total_loss (dt st1) estimates) by congruence. lra. }
  pose proof (main_loop_more U W grid t_end particles 1 n st1 st Hstep Hrun1
                Hrun) as Hle.
  apply Forall_forall. intros v Hv.
  destruct (In_nth_error _ _ Hv) as (k & Hk).
  destruct (Forall2_nth_error_r _ _ _ Hle k v Hk) as (u & Hu & Huv).
  pose proof (Hfirst k u Hu). lra.
Qed.

Lemma bright_star_costs_every_disk_witness :
  (2 <= length two_row_grid)%nat /\
  never_meet sample_collaborators sample_cluster /\
  0 < time_step_amin sample_collaborators /\
  0 < 6000 /\
  bright_stars sample_cluster <> [] /\
  forall n, exists st,
    main_loop (S n) sample_units sample_collaborators two_row_grid 6000
      sample_cluster = Ok st /\
    length (time_total_mass_loss st) = length (small_stars sample_cluster) /\
    Forall (fun u => 0 < u) (time_total_mass_loss st).
Proof.
  assert (Hgrid : (2 <= length two_row_grid)%nat) by (simpl; lia).
  pose proof sample_cluster_never_meet as Hmeet.
  assert (Hstep : 0 < time_step_amin sample_collaborators)
    by (cbn [time_step_amin sample_collaborators]; lra).
  assert (Hend : 0 < 6000) by lra.
  pose proof sample_cluster_has_bright as Hb.
  repeat (split; [assumption |]).
  apply (bright_star_costs_every_disk sample_units sample_collaborators
           two_row_grid 6000 sample_cluster Hgrid Hmeet Hstep Hend Hb).
Defined.

(** ** The closing report *)

(** The mass handed to [radius_containing_mass] is [(1 - t)] times the
    disk mass, so the ratio under the logarithm is the accumulated loss
    [t] itself. *)
Lemma report_line_value (U : amuse_units) (particles : list Star)
    (t : R) (pos : nat) (ss : Star) (R_char M : R) :
  nth_error particles pos = Some ss ->
  disk_radius ss = Some R_char ->
  disk_mass ss = Some M ->
  0 < R_char ->
  0 < M * MJupiter_per_MSun U ->
  (0 < t ->
   report_line U particles (t, pos) =
   Ok (R_char, Finite (R_char * ln (1 / t)))) /\
  (t = 0 -> report_line U particles (t, pos) = Ok (R_char, PosInf)).
Proof.
  intros Hpos HR HM HRpos HMpos.
  assert (Hratio : 1 - (1 - t) * M * MJupiter_per_MSun U
                       / (M * MJupiter_per_MSun U) = t).
  { unfold Rdiv. rewrite (Rmult_assoc (1 - t)), (Rmult_assoc (1 - t)).
    rewrite Rinv_r by lra. ring. }
  assert (Hrun : report_line U particles (t, pos) =
                 Ok (R_char,
                     np_mul (Finite R_char)
                       (np_log (np_div (Finite 1) (Finite t))))).
  { unfold report_line, getitem. rewrite Hpos. cbn [bind].
    rewrite HR, HM. cbn [bind attribute].
    unfold radius_containing_mass. rewrite HR, HM. cbn [bind attribute].
    cbn [np_div]. rewrite Reqb_false by lra. cbn [np_sub].
    rewrite Hratio. reflexivity. }
  rewrite Hrun. split.
  - intros Ht. cbn [np_div]. rewrite Reqb_false by lra. cbn [np_log].
    assert (Hinv : 0 < 1 / t)
      by (unfold Rdiv; rewrite Rmult_1_l; apply Rinv_0_lt_compat; exact Ht).
    rewrite Rltb_true by exact Hinv. reflexivity.
  - intros ->. cbn [np_div]. rewrite Reqb_true by reflexivity.
    unfold signed_inf at 1. rewrite Reqb_false by lra.
    rewrite Rltb_true by lra. cbn [np_log np_mul].
    unfold signed_inf. rewrite Reqb_false by lra. rewrite Rltb_true by lra.
    reflexivity.
Qed.

Lemma map_result_ok {A B : Type} (f : A -> result B) (P : A -> B -> Prop)
    (l : list A) :
  (forall a, In a l -> exists b, f a = Ok b /\ P a b) ->
  exists bs, map_result f l = Ok bs /\ Forall2 P l bs.
Proof.
  induction l as [| a rest IH]; intros H.
  - exists []. split; [reflexivity | constructor].
  - destruct (H a (or_introl eq_refl)) as (b & Hb & Pb).
    destruct IH as (bs & Hbs & Pbs); [intros u Hu; apply H; right; exact Hu |].
    exists (b :: bs). split; [| constructor; assumption].
    cbn [map_result]. rewrite Hb. cbn [bind]. rewrite Hbs. reflexivity.
Qed.

Lemma small_star_disk_values (particles : list Star) (pos : nat) :
  In pos (small_stars particles) ->
  exists s s0,
    nth_error particles pos = Some s /\
    nth_error (assign_disks particles) pos = Some s0 /\
    stellar_mass s0 = stellar_mass s /\
    disk_mass s0 = Some (0.1 * stellar_mass s) /\
    disk_radius s0 = Some (100 * sqrt (stellar_mass s)).
Proof.
  intros Hin. pose proof Hin as Hin'. apply small_stars_In in Hin'.
  destruct Hin' as (s & Hs & Hlt).
  assert (Hnb : mem_nat pos (bright_stars particles) = false).
  { apply mem_nat_not_In. intros Hb. apply bright_stars_In in Hb.
    destruct Hb as (s' & Hs' & Hgt). assert (s' = s) by congruence.
    subst s'. lra. }
  apply mem_nat_In in Hin.
  exists s. unfold assign_disks. rewrite !assign_nth, Hs, Hin, Hnb.
  cbn [option_map]. eexists. split; [reflexivity |].
  split; [reflexivity |].
  destruct s as [px py pz m [dm |] [dr |]]; repeat split.
Qed.

(** X19: the closing report of a run that returns has one line per small
    star; a line shows the star's disk radius [100 * sqrt m] and, as
    recomputed radius, that radius times [ln (1 / t)] for an accumulated
    loss [t > 0], and an infinity for a star that has lost nothing.  The
    recomputed radius does not depend on the disk mass.  The run does
    return on a grid file with two data lines or more, for a cluster with a
    bright star none of whose small stars is ever at the place of a bright
    star. *)
Theorem final_report_lines (U : amuse_units) (W : collaborators)
    (grid : list grid_row) (t_end : R) (particles : list Star) :
  0 < MJupiter_per_MSun U ->
  (forall s, In s particles -> 0 < stellar_mass s) ->
  (forall n st,
     main_loop n U W grid t_end particles = Ok st ->
     exists lines,
       final_report U (small_stars particles) st = Ok lines /\
       length lines = length (small_stars particles) /\
       Forall2 (report_of particles)
         (combine (time_total_mass_loss st) (small_stars particles)) lines) /\
  ((2 <= length grid)%nat ->
   bright_stars particles <> [] ->
   never_meet W particles ->
   forall n, exists st, main_loop n U W grid t_end particles = Ok st).
Proof.
  intros Hc Hmass. split.
  2: { intros Hgrid _ Hmeet n.
       destruct (main_loop_returns U W grid t_end particles n Hgrid Hmeet)
         as (st & Hrun & _).
       exists st. exact Hrun. }
  intros n st Hrun.
  pose proof (main_loop_fits _ _ _ _ _ _ _ Hrun) as (Hlen & Hdisk & Hacc).
  destruct (map_result_ok (report_line U (stars st)) (report_of particles)
              (combine (time_total_mass_loss st) (small_stars particles)))
    as (lines & Hlines & Hall).
  { intros [t pos] Hin. apply in_combine_r in Hin.
    destruct (Hdisk pos Hin) as (ss & Hss & _).
    destruct (attributes_kept U W grid t_end particles n st Hrun pos ss Hss)
      as (s0 & Hs0 & E1 & E2 & E3).
    destruct (small_star_disk_values particles pos Hin)
      as (s & s0' & Hs & Hs0' & F1 & F2 & F3).
    assert (s0' = s0) by congruence. subst s0'.
    assert (Hm : 0 < stellar_mass s)
      by (apply Hmass; eapply nth_error_In; eauto).
    assert (HR : 0 < 100 * sqrt (stellar_mass s))
      by (pose proof (sqrt_lt_R0 _ Hm); lra).
    assert (HM : 0 < 0.1 * stellar_mass s * MJupiter_per_MSun U) by nra.
    assert (Er : disk_radius ss = Some (100 * sqrt (stellar_mass s)))
      by congruence.
    assert (Em : disk_mass ss = Some (0.1 * stellar_mass s)) by congruence.
    destruct (report_line_value U (stars st) t pos ss
                (100 * sqrt (stellar_mass s)) (0.1 * stellar_mass s) Hss
                Er Em HR HM) as [Hpos Hzero].
    destruct (Rlt_dec 0 t) as [Ht | Ht].
    - eexists. split; [apply Hpos; exact Ht |].
      exists s. cbn [fst snd]. split; [exact Hs |]. split; [reflexivity |].
      split; [reflexivity | intros E; lra].
    - destruct (Req_dec_T t 0) as [E | N].
      + eexists. split; [apply Hzero; exact E |].
        exists s. cbn [fst snd]. split; [exact Hs |]. split; [reflexivity |].
        split; [intros H; lra | reflexivity].
      + (* a negative entry: the line is still produced *)
        unfold report_line, getitem. rewrite Hss. cbn [bind].
        rewrite Er, Em. cbn [bind attribute]. unfold radius_containing_mass.
        rewrite Er, Em.
        cbn [bind attribute]. eexists. split; [reflexivity |].
        exists s. cbn [fst snd]. split; [exact Hs |]. split; [reflexivity |].
        split; intros H; lra. }
  exists lines. split; [exact Hlines |].
  split; [| exact Hall].
  rewrite <- (Forall2_length Hall), length_combine, Hacc.
  apply Nat.min_id.
Qed.

Lemma final_report_lines_witness :
  0 < MJupiter_per_MSun sample_units /\
  (forall s, In s sample_cluster -> 0 < stellar_mass s) /\
  forall n, exists st lines,
    main_loop n sample_units sample_collaborators two_row_grid 6000
      sample_cluster = Ok st /\
    final_report sample_units (small_stars sample_cluster) st = Ok lines /\
    length lines = length (small_stars sample_cluster) /\
    Forall2 (report_of sample_cluster)
      (combine (time_total_mass_loss st) (small_stars sample_cluster)) lines.
Proof.
  assert (Hc : 0 < MJupiter_per_MSun sample_units)
    by (cbn [MJupiter_per_MSun sample_units]; lra).
  assert (Hm : forall s, In s sample_cluster -> 0 < stellar_mass s).
  { unfold sample_cluster. cbn [In]. intros s Hs.
    repeat (destruct Hs as [<- | Hs]; [cbn [stellar_mass]; lra |]).
    destruct Hs. }
  repeat (split; [assumption |]).
  destruct (final_report_lines sample_units sample_collaborators two_row_grid
              6000 sample_cluster Hc Hm) as [Hinv Hret].
  intros n.
  destruct (Hret ltac:(simpl; lia) sample_cluster_has_bright
              sample_cluster_never_meet n) as (st & Hrun).
  destruct (Hinv n st Hrun) as (lines & Hlines).
  exists st, lines. split; [exact Hrun | exact Hlines].
Defined.

(** ** [find_nearest] *)

Lemma argmin_scan_spec (a : list R) :
  forall k best best_v,
    (argmin_scan a k best best_v = best /\
     forall l v, nth_error a l = Some v -> best_v <= v) \/
    (exists l v,
       argmin_scan a k best best_v = (k + l)%nat /\
       nth_error a l = Some v /\
       v < best_v /\
       (forall l' v', nth_error a l' = Some v' -> v <= v') /\
       (forall l' v', (l' < l)%nat -> nth_error a l' = Some v' -> v < v')).
Proof.
  induction a as [| u rest IH]; intros k best best_v.
  - left. split; [reflexivity |]. intros [| l] v H; discriminate H.
  - simpl. destruct (Rlt_dec u best_v) as [Hlt | Hge].
    + rewrite Rltb_true by exact Hlt. right.
      destruct (IH (S k) k u)
        as [[Hr Hall] | (l & v & Hr & Hv & Hd & Hmin & Hearly)].
      * exists O, u. split; [rewrite Hr; lia |]. split; [reflexivity |].
        split; [exact Hlt |]. split.
        -- intros [| l'] v' H'; simpl in H'.
           ++ injection H' as <-. lra.
           ++ apply (Hall l' v' H').
        -- intros l' v' Hl'. lia.
      * exists (S l), v. split; [rewrite Hr; lia |]. split; [exact Hv |].
        split; [lra |]. split.
        -- intros [| l'] v' H'; simpl in H'.
           ++ injection H' as <-. lra.
           ++ apply (Hmin l' v' H').
        -- intros [| l'] v' Hl' H'; simpl in H'.
           ++ injection H' as <-. exact Hd.
           ++ apply (Hearly l' v'); [lia | exact H'].
    + rewrite Rltb_false by lra.
      destruct (IH (S k) best best_v)
        as [[Hr Hall] | (l & v & Hr & Hv & Hd & Hmin & Hearly)].
      * left. split; [exact Hr |].
        intros [| l'] v' H'; simpl in H'.
        -- injection H' as <-. lra.
        -- apply (Hall l' v' H').
      * right. exists (S l), v. split; [rewrite Hr; lia |].
        split; [exact Hv |]. split; [exact Hd |]. split.
        -- intros [| l'] v' H'; simpl in H'.
           ++ injection H' as <-. lra.
           ++ apply (Hmin l' v' H').
        -- intros [| l'] v' Hl' H'; simpl in H'.
           ++ injection H' as <-. lra.
           ++ apply (Hearly l' v'); [lia | exact H'].
Qed.

(** [argmin] reports the first position of the smallest entry. *)
Lemma np_argmin_spec (a : list R) :
  a <> [] ->
  exists k v,
    np_argmin a = Ok k /\ nth_error a k = Some v /\
    (forall l u, nth_error a l = Some u -> v <= u) /\
    (forall l u, (l < k)%nat -> nth_error a l = Some u -> v < u).
Proof.
  destruct a as [| u rest]; [congruence |]. intros _. simpl.
  destruct (argmin_scan_spec rest 1 0 u)
    as [[Hr Hall] | (l & v & Hr & Hv & Hd & Hmin & Hearly)].
  - exists O, u. split; [rewrite Hr; reflexivity |]. split; [reflexivity |].
    split.
    + intros [| l] w H; simpl in H.
      * injection H as <-. lra.
      * apply (Hall l w H).
    + intros l w Hl. lia.
  - exists (S l), v. split; [rewrite Hr; reflexivity |]. split; [exact Hv |].
    split.
    + intros [| l'] w H'; simpl in H'.
      * injection H' as <-. lra.
      * apply (Hmin l' w H').
    + intros [| l'] w Hl' H'; simpl in H'.
      * injection H' as <-. exact Hd.
      * apply (Hearly l' w); [lia | exact H'].
Qed.

Lemma find_nearest_ok (array : list R) (value : R) :
  array <> [] ->
  exists idx nearest,
    find_nearest array value = Ok (idx, nearest) /\
    nth_error array idx = Some nearest /\
    (forall a, In a array -> Rabs (nearest - value) <= Rabs (a - value)) /\
    (forall k a, (k < idx)%nat -> nth_error array k = Some a ->
                 Rabs (nearest - value) < Rabs (a - value)).
Proof.
  intros Hne.
  assert (Hne' : map (fun a => Rabs (a - value)) array <> [])
    by (destruct array; [congruence | discriminate]).
  destruct (np_argmin_spec _ Hne') as (idx & d & Hidx & Hd & Hmin & Hearly).
  rewrite nth_error_map in Hd.
  destruct (nth_error array idx) as [nearest |] eqn:Hn; [| discriminate Hd].
  simpl in Hd. injection Hd as <-.
  exists idx, nearest. split.
  { unfold find_nearest, getitem. rewrite Hidx. cbn [bind]. rewrite Hn.
    reflexivity. }
  split; [exact Hn |]. split.
  - intros a Ha. destruct (In_nth_error _ _ Ha) as (l & Hl).
    apply (Hmin l). rewrite nth_error_map, Hl. reflexivity.
  - intros k a Hk Ha. apply (Hearly k); [exact Hk |].
    rewrite nth_error_map, Ha. reflexivity.
Qed.

(** X20: [find_nearest] raises [ValueError] on an empty array; on any
    other array it returns a position of the array together with the entry
    at that position, no entry is closer to the value than that one, every
    entry before it is strictly farther away, and a value that occurs in the
    array is returned itself. *)
Theorem find_nearest_closest (array : list R) (value : R) :
  (array = [] -> find_nearest array value = Raise ValueError) /\
  (array <> [] ->
   exists idx nearest,
     find_nearest array value = Ok (idx, nearest) /\
     nth_error array idx = Some nearest /\
     (forall a, In a array -> Rabs (nearest - value) <= Rabs (a - value)) /\
     (forall k a, (k < idx)%nat -> nth_error array k = Some a ->
                  Rabs (nearest - value) < Rabs (a - value)) /\
     (In value array -> nearest = value)).
Proof.
  split; [intros ->; reflexivity |].
  intros Hne.
  destruct (find_nearest_ok array value Hne)
    as (idx & nearest & Hrun & Hn & Hmin & Hearly).
  exists idx, nearest. repeat (split; [assumption |]).
  intros Hin. specialize (Hmin value Hin).
  replace (value - value) with 0 in Hmin by ring. rewrite Rabs_R0 in Hmin.
  pose proof (Rabs_pos (nearest - value)) as Hpos.
  assert (Hz : Rabs (nearest - value) = 0) by lra.
  destruct (Req_dec_T (nearest - value) 0) as [E | N]; [lra |].
  exfalso. apply (Rabs_no_R0 _ N). exact Hz.
Qed.

(** ** UVBLUE spectra *)

Lemma read_columns_from (data : list (list token)) :
  forall c1 c2,
    (forall r1 r2,
       for_each data
         (fun columns line =>
            ' (l1, l2) <- unpack2 line ;;
            v1 <- py_float l1 ;;
            v2 <- py_float l2 ;;
            Ok (fst columns ++ [v1], snd columns ++ [v2]))
         (c1, c2) = Ok (r1, r2) ->
       exists vals, r1 = c1 ++ vals /\ Forall2 data_line data vals) /\
    (forall vals, Forall2 data_line data vals ->
       exists r2,
         for_each data
           (fun columns line =>
              ' (l1, l2) <- unpack2 line ;;
              v1 <- py_float l1 ;;
              v2 <- py_float l2 ;;
              Ok (fst columns ++ [v1], snd columns ++ [v2]))
           (c1, c2) = Ok (c1 ++ vals, r2)) /\
    (forall e,
       for_each data
         (fun columns line =>
            ' (l1, l2) <- unpack2 line ;;
            v1 <- py_float l1 ;;
            v2 <- py_float l2 ;;
            Ok (fst columns ++ [v1], snd columns ++ [v2]))
         (c1, c2) = Raise e -> e = ValueError).
Proof.
  induction data as [| line rest IH]; intros c1 c2.
  - split; [| split].
    + intros r1 r2 H. simpl in H. injection H as <- <-.
      exists []. rewrite app_nil_r. split; [reflexivity | constructor].
    + intros vals H. inversion H. exists c2. simpl. rewrite app_nil_r.
      reflexivity.
    + intros e H. discriminate H.
  - cbn [for_each].
    destruct line as [| l1 [| l2 [| l3 more]]];
      try (split; [intros r1 r2 H; discriminate H
                  | split; [intros vals H; inversion H as [| ? v ? vs Hl Hr];
                            subst; destruct Hl as (a & b & vb & E & _);
                            discriminate E
                           | intros e H; cbn in H; congruence]]).
    cbn [unpack2 bind].
    destruct (py_float l1) as [v1 | e1] eqn:E1; cbn [bind];
      [| split; [intros r1 r2 H; discriminate H
                | split; [intros vals H; inversion H as [| ? v ? vs Hl Hr];
                          subst; destruct Hl as (a & b & vb & E & Ea & _);
                          injection E as <- <-; congruence
                         | intros e H; injection H as <-;
                           destruct l1; simpl in E1; congruence]]].
    destruct (py_float l2) as [v2 | e2] eqn:E2; cbn [bind fst snd];
      [| split; [intros r1 r2 H; discriminate H
                | split; [intros vals H; inversion H as [| ? v ? vs Hl Hr];
                          subst; destruct Hl as (a & b & vb & E & _ & Eb);
                          injection E as <- <-; congruence
                         | intros e H; injection H as <-;
                           destruct l2; simpl in E2; congruence]]].
    destruct (IH (c1 ++ [v1]) (c2 ++ [v2])) as (Hinv & Hrun & Herr).
    split; [| split].
    + intros r1 r2 H. destruct (Hinv r1 r2 H) as (vals & Er & Hall).
      exists (v1 :: vals). split.
      * rewrite Er, <- app_assoc. reflexivity.
      * constructor; [| exact Hall]. exists l1, l2, v2. auto.
    + intros vals H. inversion H as [| ? v ? vs Hl Hr]; subst.
      destruct Hl as (a & b & vb & E & Ea & Eb). injection E as <- <-.
      assert (v = v1) by congruence. subst v.
      destruct (Hrun vs Hr) as (r2 & Hr2). exists r2.
      rewrite Hr2, <- app_assoc. reflexivity.
    + exact Herr.
Qed.

Lemma read_columns_spec (data : list (list token)) :
  (forall vals,
     (exists c2, read_columns data = Ok (vals, c2)) <->
     Forall2 data_line data vals) /\
  (forall e, read_columns data = Raise e -> e = ValueError).
Proof.
  destruct (read_columns_from data [] []) as (Hinv & Hrun & Herr).
  split; [| exact Herr].
  intros vals. split.
  - intros (c2 & H). destruct (Hinv vals c2 H) as (vs & E & Hall).
    simpl in E. subst vs. exact Hall.
  - intros H. destruct (Hrun vals H) as (r2 & Hr). exists r2. exact Hr.
Qed.

(** X21: without limits [read_UVBLUE] returns the first field of every
    line after the third, in order, exactly when each of these lines has two
    numeric fields; when some data line has not, it raises [ValueError],
    with or without limits; a file of at most three lines gives the empty
    array. *)
Theorem read_UVBLUE_whole_spectrum (file : list (list token)) :
  (forall vals,
     read_UVBLUE file None = Ok vals <->
     Forall2 data_line (skipn 3 file) vals) /\
  (forall vals, read_UVBLUE file None = Ok vals ->
     length vals = (length file - 3)%nat) /\
  (forall limits,
     (forall vals, ~ Forall2 data_line (skipn 3 file) vals) ->
     read_UVBLUE file limits = Raise ValueError) /\
  ((length file <= 3)%nat -> read_UVBLUE file None = Ok []).
Proof.
  destruct (read_columns_spec (skipn 3 file)) as [Hok Herr].
  assert (Hiff : forall vals,
            read_UVBLUE file None = Ok vals <->
            Forall2 data_line (skipn 3 file) vals).
  { intros vals. rewrite <- Hok. unfold read_UVBLUE. split.
    - destruct (read_columns (skipn 3 file)) as [[c1 c2] | e]; cbn [bind fst];
        [| discriminate].
      intros H. injection H as <-. exists c2. reflexivity.
    - intros (c2 & H). rewrite H. reflexivity. }
  split; [exact Hiff |]. split; [| split].
  - intros vals H. apply Hiff in H.
    rewrite <- (Forall2_length H). apply length_skipn.
  - intros limits Hnone. unfold read_UVBLUE.
    destruct (read_columns (skipn 3 file)) as [[c1 c2] | e] eqn:E.
    + exfalso. apply (Hnone c1). apply Hok. exists c2. reflexivity.
    + rewrite (Herr e eq_refl). reflexivity.
  - intros Hshort. apply Hiff.
    rewrite skipn_all2 by exact Hshort. constructor.
Qed.

Lemma np_linspace_spec (first last : R) (steps : Z) :
  ((steps < 0)%Z -> np_linspace first last steps = Raise ValueError) /\
  ((0 <= steps)%Z ->
   exists w,
     np_linspace first last steps = Ok w /\
     length w = Z.to_nat steps /\
     (first <= last -> nondecreasing w)).
Proof.
  unfold np_linspace. split.
  - intros H. apply Z.ltb_lt in H. rewrite H. reflexivity.
  - intros H. replace (steps <? 0)%Z with false
      by (symmetry; apply Z.ltb_ge; exact H).
    eexists. split; [reflexivity |].
    split; [rewrite length_map, length_seq; reflexivity |].
    intros Hfl i j u v Hij Hi Hj.
    rewrite nth_error_map, nth_error_seq in Hi, Hj.
    destruct (i <? Z.to_nat steps)%nat eqn:Ei; [| discriminate Hi].
    destruct (j <? Z.to_nat steps)%nat; [| discriminate Hj].
    apply Nat.ltb_lt in Ei.
    cbn [option_map Nat.add] in Hi, Hj.
    injection Hi as <-. injection Hj as <-.
    destruct (Z.to_nat steps) as [| [| n]].
    + lia.
    + lra.
    + assert (Hden : 0 < INR (S (S n)) - 1)
        by (rewrite !S_INR; pose proof (pos_INR n); lra).
      assert (Hstep : 0 <= (last - first) / (INR (S (S n)) - 1)).
      { unfold Rdiv. apply Rmult_le_pos; [lra |].
        apply Rlt_le, Rinv_0_lt_compat. exact Hden. }
      apply le_INR in Hij. nra.
Qed.

(** On a non-decreasing array the nearest position follows the value. *)
Lemma find_nearest_monotone (w : list R) (low high : R)
    (i j : nat) (vi vj : R) :
  nondecreasing w -> low <= high ->
  find_nearest w low = Ok (i, vi) ->
  find_nearest w high = Ok (j, vj) ->
  (i <= j)%nat.
Proof.
  intros Hsorted Hlh Hi Hj.
  assert (Hne : w <> []) by (intros ->; discriminate Hi).
  destruct (find_nearest_ok w low Hne) as (i' & vi' & Hi' & Hni & _ & Hearly).
  destruct (find_nearest_ok w high Hne) as (j' & vj' & Hj' & Hnj & Hmin & _).
  rewrite Hi in Hi'. injection Hi' as <- <-.
  rewrite Hj in Hj'. injection Hj' as <- <-.
  destruct (Nat.le_gt_cases i j) as [Hle | Hgt]; [exact Hle | exfalso].
  pose proof (Hearly j vj Hgt Hnj) as H1.
  pose proof (Hmin vi (nth_error_In _ _ Hni)) as H2.
  assert (H3 : vj <= vi) by (apply (Hsorted j i vj vi); [lia | | ]; assumption).
  unfold Rabs in H1, H2.
  destruct (Rcase_abs (vi - low)); destruct (Rcase_abs (vj - low));
    destruct (Rcase_abs (vj - high)); destruct (Rcase_abs (vi - high)); lra.
Qed.

Lemma In_firstn {A : Type} (n : nat) (l : list A) (v : A) :
  In v (firstn n l) -> In v l.
Proof.
  intros H. rewrite <- (firstn_skipn n l). apply in_or_app. left. exact H.
Qed.

Lemma In_skipn {A : Type} (n : nat) (l : list A) (v : A) :
  In v (skipn n l) -> In v l.
Proof.
  intros H. rewrite <- (firstn_skipn n l). apply in_or_app. right. exact H.
Qed.

Lemma py_slice_part {A : Type} (l : list A) (a b : nat) :
  (forall v, In v (py_slice l a b) -> In v l) /\
  length (py_slice l a b) = Nat.min (b - a) (length l - a).
Proof.
  unfold py_slice. split.
  - intros v Hv. apply In_firstn in Hv. apply (In_skipn a l). exact Hv.
  - rewrite length_firstn, length_skipn. reflexivity.
Qed.

(** X22: with limits [read_UVBLUE] returns a contiguous range
    [column1[id_lower : id_higher + 1]] of what it returns without limits,
    the two positions being those of the samples of
    [linspace(first, last, steps)] nearest to the limits; so it returns
    nothing that is not in the file, and when the header has
    [first <= last] and the limits come in increasing order, the range
    starts no later than it ends. *)
Theorem read_UVBLUE_range (file : list (list token)) (low high : R)
    (radiation : list R) :
  read_UVBLUE file (Some (low, high)) = Ok radiation ->
  exists column1 wl0 wl1 wl2 steps first last w id_lower lower
         id_higher higher,
    read_UVBLUE file None = Ok column1 /\
    nth_error file 1 = Some (wl0 :: wl1 :: wl2) /\
    py_int wl0 = Ok steps /\ py_float wl1 = Ok first /\
    (exists f2, hd_error wl2 = Some f2 /\ py_float f2 = Ok last) /\
    np_linspace first last steps = Ok w /\
    find_nearest w low = Ok (id_lower, lower) /\
    find_nearest w high = Ok (id_higher, higher) /\
    radiation = py_slice column1 id_lower (id_higher + 1) /\
    (forall v, In v radiation -> In v column1) /\
    (length radiation <= length column1)%nat /\
    (first <= last -> low <= high -> (id_lower <= id_higher)%nat).
Proof.
  unfold read_UVBLUE.
  destruct (read_columns (skipn 3 file)) as [[column1 column2] | e];
    cbn [bind fst]; [| discriminate].
  unfold getitem.
  destruct (nth_error file 1) as [wl |] eqn:Ewl; cbn [bind]; [| discriminate].
  destruct wl as [| wl0 [| wl1 [| f2 more]]]; cbn [nth_error bind];
    try discriminate.
  - destruct (py_int wl0); cbn [bind]; discriminate.
  - destruct (py_int wl0); cbn [bind]; [| discriminate].
    destruct (py_float wl1); cbn [bind]; discriminate.
  - destruct (py_int wl0) as [steps |] eqn:E0; cbn [bind]; [| discriminate].
    destruct (py_float wl1) as [first |] eqn:E1; cbn [bind]; [| discriminate].
    destruct (py_float f2) as [last |] eqn:E2; cbn [bind]; [| discriminate].
    destruct (np_linspace first last steps) as [w |] eqn:Ew; cbn [bind];
      [| discriminate].
    destruct (find_nearest w low) as [[id_lower lower] |] eqn:El; cbn [bind];
      [| discriminate].
    destruct (find_nearest w high) as [[id_higher higher] |] eqn:Eh;
      cbn [bind]; [| discriminate].
    intros H. injection H as <-.
    exists column1, wl0, wl1, (f2 :: more), steps, first, last, w,
      id_lower, lower, id_higher, higher.
    destruct (py_slice_part column1 id_lower (id_higher + 1)) as [Hin Hlen].
    split; [reflexivity |]. split; [reflexivity |]. split; [exact E0 |].
    split; [exact E1 |]. split; [exists f2; auto |].
    split; [exact Ew |]. split; [exact El |]. split; [exact Eh |].
    split; [reflexivity |]. split; [exact Hin |]. split; [rewrite Hlen; lia |].
    intros Hfl Hlh.
    apply (find_nearest_monotone w low high id_lower id_higher lower higher);
      try assumption.
    destruct (Z.lt_ge_cases steps 0) as [Hneg | Hpos].
    + destruct (np_linspace_spec first last steps) as [Hraise _].
      rewrite (Hraise Hneg) in Ew. discriminate Ew.
    + destruct (np_linspace_spec first last steps) as [_ Hok].
      destruct (Hok Hpos) as (w' & Hw' & _ & Hs).
      rewrite Ew in Hw'. injection Hw' as <-. apply Hs. exact Hfl.
Qed.

Lemma scan_closer (v : R) (rest : list R) (k best : nat) (best_v : R) :
  v < best_v ->
  argmin_scan (v :: rest) k best best_v = argmin_scan rest (S k) k v.
Proof. intros H. simpl. rewrite Rltb_true by exact H. reflexivity. Qed.

Lemma scan_farther (v : R) (rest : list R) (k best : nat) (best_v : R) :
  best_v <= v ->
  argmin_scan (v :: rest) k best best_v = argmin_scan rest (S k) best best_v.
Proof. intros H. simpl. rewrite Rltb_false by exact H. reflexivity. Qed.

Ltac by_abs :=
  unfold Rabs;
  repeat match goal with
         | |- context [Rcase_abs ?u] => destruct (Rcase_abs u)
         end;
  lra.

Ltac step_scan :=
  match goal with
  | |- context [argmin_scan [] ?k ?best ?v] =>
      change (argmin_scan [] k best v) with best
  | |- context [argmin_scan (?v :: ?rest) ?k ?best ?b] =>
      first [rewrite (scan_closer v rest k best b) by by_abs
            |rewrite (scan_farther v rest k best b) by by_abs]
  end.

Lemma sample_wavelengths :
  np_linspace 1000 3000 5 = Ok [1000; 1500; 2000; 2500; 3000].
Proof.
  unfold np_linspace. change ((5 <? 0)%Z) with false.
  change (Z.to_nat 5) with 5%nat. cbn [seq map]. f_equal.
  repeat (apply (f_equal2 cons); [simpl INR; field |]). reflexivity.
Qed.

Lemma sample_spectrum_range :
  read_UVBLUE sample_spectrum (Some (1400, 2600)) = Ok [2.5; 4; 3].
Proof.
  unfold read_UVBLUE, sample_spectrum, read_columns, getitem.
  cbn [skipn for_each unpack2 bind py_float py_int fst snd app nth_error].
  rewrite sample_wavelengths. cbn [bind].
  unfold find_nearest, np_argmin, getitem. cbn [map].
  repeat step_scan. cbn [bind nth_error].
  repeat step_scan. cbn [bind nth_error]. reflexivity.
Qed.

Lemma read_UVBLUE_range_witness :
  read_UVBLUE sample_spectrum (Some (1400, 2600)) = Ok [2.5; 4; 3] /\
  exists column1 id_lower id_higher,
    read_UVBLUE sample_spectrum None = Ok column1 /\
    [2.5; 4; 3] = py_slice column1 id_lower (id_higher + 1) /\
    (forall v, In v [2.5; 4; 3] -> In v column1).
Proof.
  split; [exact sample_spectrum_range |].
  destruct (read_UVBLUE_range sample_spectrum 1400 2600 [2.5; 4; 3]
              sample_spectrum_range)
    as (column1 & wl0 & wl1 & wl2 & steps & first & last & w & id_lower
        & lower & id_higher & higher & Hc & _ & _ & _ & _ & _ & _ & _
        & Hslice & Hin & _).
  exists column1, id_lower, id_higher.
  split; [exact Hc |]. split; [exact Hslice | exact Hin].
Defined.

Lemma read_UVBLUE_slice (file : list (list token)) (low high : R)
    (radiation : list R) :
  read_UVBLUE file (Some (low, high)) = Ok radiation ->
  exists column1 a b,
    read_UVBLUE file None = Ok column1 /\ radiation = py_slice column1 a b.
Proof.
  unfold read_UVBLUE.
  destruct (read_columns (skipn 3 file)) as [[column1 column2] | e];
    cbn [bind fst]; [| discriminate].
  destruct (getitem file 1) as [wl |]; cbn [bind]; [| discriminate].
  destruct (getitem wl 0) as [wl0 |]; cbn [bind]; [| discriminate].
  destruct (py_int wl0) as [steps |]; cbn [bind]; [| discriminate].
  destruct (getitem wl 1) as [wl1 |]; cbn [bind]; [| discriminate].
  destruct (py_float wl1) as [first |]; cbn [bind]; [| discriminate].
  destruct (getitem wl 2) as [wl2 |]; cbn [bind]; [| discriminate].
  destruct (py_float wl2) as [last |]; cbn [bind]; [| discriminate].
  destruct (np_linspace first last steps) as [w |]; cbn [bind];
    [| discriminate].
  destruct (find_nearest w low) as [[id_lower lower] |]; cbn [bind];
    [| discriminate].
  destruct (find_nearest w high) as [[id_higher higher] |]; cbn [bind];
    [| discriminate].
  intros H. injection H as <-.
  exists column1, id_lower, (id_higher + 1)%nat. split; reflexivity.
Qed.

Lemma np_sum_app (a b : list R) : np_sum (a ++ b) = np_sum a + np_sum b.
Proof.
  induction a as [| u a IH]; simpl; [lra | rewrite IH; lra].
Qed.

Lemma np_sum_nonneg (a : list R) :
  Forall (fun v => 0 <= v) a -> 0 <= np_sum a.
Proof.
  induction 1 as [| u a Hu Ha IH]; simpl; lra.
Qed.

Lemma np_sum_slice (l : list R) (a b : nat) :
  Forall (fun v => 0 <= v) l ->
  0 <= np_sum (py_slice l a b) <= np_sum l.
Proof.
  intros Hl. unfold py_slice.
  assert (Hpart : forall n (m : list R),
            Forall (fun v => 0 <= v) m ->
            Forall (fun v => 0 <= v) (firstn n m) /\
            Forall (fun v => 0 <= v) (skipn n m)).
  { intros n m Hm. rewrite Forall_forall in Hm. split; apply Forall_forall;
      intros v Hv; apply Hm;
      [eapply In_firstn | eapply In_skipn]; eauto. }
  destruct (Hpart a l Hl) as [Hf Hs].
  destruct (Hpart (b - a)%nat (skipn a l) Hs) as [Hff Hfs].
  pose proof (np_sum_nonneg _ Hf). pose proof (np_sum_nonneg _ Hff).
  pose proof (np_sum_nonneg _ Hfs).
  assert (E1 : np_sum l = np_sum (firstn a l) + np_sum (skipn a l))
    by (rewrite <- np_sum_app, firstn_skipn; reflexivity).
  assert (E2 : np_sum (skipn a l) =
               np_sum (firstn (b - a) (skipn a l))
               + np_sum (skipn (b - a) (skipn a l)))
    by (rewrite <- np_sum_app, firstn_skipn; reflexivity).
  lra.
Qed.

(** X23: [integrate_FUV] adds up a contiguous range of the spectrum's
    first column; when no sample of the spectrum is negative the result
    lies between zero and the sum of the whole column. *)
Theorem integrate_FUV_bounds (file : list (list token)) (lower higher : R)
    (total : R) :
  integrate_FUV file lower higher = Ok total ->
  exists column1 a b,
    read_UVBLUE file None = Ok column1 /\
    total = np_sum (py_slice column1 a b) /\
    (Forall (fun v => 0 <= v) column1 -> 0 <= total <= np_sum column1).
Proof.
  unfold integrate_FUV.
  destruct (read_UVBLUE file (Some (lower, higher))) as [radiation |] eqn:E;
    cbn [bind]; [| discriminate].
  intros H. injection H as <-.
  destruct (read_UVBLUE_slice file lower higher radiation E)
    as (column1 & a & b & Hc & ->).
  exists column1, a, b. split; [exact Hc |]. split; [reflexivity |].
  apply np_sum_slice.
Qed.

Lemma integrate_FUV_bounds_witness :
  integrate_FUV sample_spectrum 1400 2600 = Ok (2.5 + (4 + (3 + 0))) /\
  exists column1 a b,
    read_UVBLUE sample_spectrum None = Ok column1 /\
    2.5 + (4 + (3 + 0)) = np_sum (py_slice column1 a b) /\
    (Forall (fun v => 0 <= v) column1 ->
     0 <= 2.5 + (4 + (3 + 0)) <= np_sum column1).
Proof.
  assert (H : integrate_FUV sample_spectrum 1400 2600
              = Ok (2.5 + (4 + (3 + 0))))
    by (unfold integrate_FUV; rewrite sample_spectrum_range; reflexivity).
  split; [exact H |].
  apply (integrate_FUV_bounds sample_spectrum 1400 2600 _ H).
Defined.
